(** * Gift-card checkout study: the step-flow state machine of [app.js]

    A shallow embedding of the checkout wizard's core (answer store, flow
    builder, modality resolver, step gate, transition recorder, pricing
    engine, survey validation) together with the properties its
    specification states about them, and of the condition selection, the
    hints and the HTML escaping, with further properties of the code:
    invariants of every run of the handlers, what freeform input
    selects, what is written to the datastore. The handlers come twice:
    [handle] takes each event with its callbacks run to their end;
    [react] is the page with the callbacks that may still be pending (a
    recognizer that answers late, a write that is not answered yet).

    Conventions of the embedding.
    - A JavaScript string is a [string]: a sequence of code units below 256.
    - A JavaScript number is a [number]: NaN, an infinity, or a finite
      binary64 value kept as the rational it denotes (the sign of zero is
      not tracked; nothing in the program observes it).
    - The objects [answers], [session.answers] and the Condition C tables
      are used as maps from step identifier to value: [gmap string _].
    - [Date.now()] is an input of every handler that reads the clock. *)

From Stdlib Require Import ZArith QArith Qpower Qround Qabs Qcanon Lqa Lia Bool List Ascii String DecimalString.
From stdpp Require Import base option list gmap strings.
Import ListNotations.

#[local] Open Scope string_scope.
#[local] Open Scope Z_scope.

(** ** JavaScript primitives used by the program *)

Module Js.

(** *** Strings *)

Definition chars (s : string) : list ascii := list_ascii_of_string s.
Definition str (l : list ascii) : string := string_of_list_ascii l.

Definition code (c : ascii) : nat := nat_of_ascii c.

Definition is_digit (c : ascii) : bool :=
  (48 <=? code c)%nat && (code c <=? 57)%nat.

Definition is_upper (c : ascii) : bool :=
  ((65 <=? code c)%nat && (code c <=? 90)%nat)
  || ((192 <=? code c)%nat && (code c <=? 222)%nat && negb (code c =? 215)%nat).

(** [\w] of a regular expression without the unicode flag. *)
Definition is_word (c : ascii) : bool :=
  is_digit c
  || ((65 <=? code c)%nat && (code c <=? 90)%nat)
  || ((97 <=? code c)%nat && (code c <=? 122)%nat)
  || (code c =? 95)%nat.

(** [\s], and the characters [trim] and [Number] strip: TAB, LF, VT, FF,
    CR, SPACE and NBSP are the ones below 256. *)
Definition is_space (c : ascii) : bool :=
  ((9 <=? code c)%nat && (code c <=? 13)%nat)
  || (code c =? 32)%nat || (code c =? 160)%nat.

Definition lower_char (c : ascii) : ascii :=
  if is_upper c then ascii_of_nat (code c + 32) else c.

Definition toLowerCase (s : string) : string := str (map lower_char (chars s)).

Fixpoint drop_spaces (l : list ascii) : list ascii :=
  match l with
  | c :: r => if is_space c then drop_spaces r else l
  | [] => []
  end.

Definition trim_chars (l : list ascii) : list ascii :=
  rev (drop_spaces (rev (drop_spaces l))).

Definition trim (s : string) : string := str (trim_chars (chars s)).

Fixpoint is_prefix (p l : list ascii) : bool :=
  match p, l with
  | [], _ => true
  | a :: p', b :: l' => if ascii_dec a b then is_prefix p' l' else false
  | _ :: _, [] => false
  end.

Fixpoint is_infix (p l : list ascii) : bool :=
  is_prefix p l
  || match l with
     | [] => false
     | _ :: l' => is_infix p l'
     end.

Definition startsWith (s p : string) : bool := is_prefix (chars p) (chars s).
Definition includes (s p : string) : bool := is_infix (chars p) (chars s).

(** A string is falsy exactly when it is empty. *)
Definition truthy (s : string) : bool :=
  match s with EmptyString => false | _ => true end.

(** [v || d] on an optional string property. *)
Definition or_default (v : option string) (d : string) : string :=
  match v with
  | Some s => if truthy s then s else d
  | None => d
  end.

(** [!!v] on an optional string property. *)
Definition present (v : option string) : bool :=
  match v with
  | Some s => truthy s
  | None => false
  end.

(** *** Numbers *)

Inductive number : Type :=
| NaN
| Inf (negative : bool)
| Fin (q : Q).

(** [x >= y]; false as soon as one side is NaN. *)
Definition ge (x y : number) : bool :=
  match x, y with
  | NaN, _ | _, NaN => false
  | Inf false, _ => true
  | _, Inf true => true
  | Inf true, _ => false
  | _, Inf false => false
  | Fin a, Fin b => Qle_bool b a
  end.

Definition of_Z (z : Z) : number := Fin (inject_Z z).

Definition two_pow (e : Z) : Q := Qpower 2 e.

Definition round_half_even (x : Q) : Z :=
  let f := Qfloor x in
  let r := (x - inject_Z f)%Q in
  match (r ?= 1 # 2)%Q with
  | Lt => f
  | Gt => f + 1
  | Eq => if Z.even f then f else f + 1
  end.

(** The exponent of the leading bit of a positive rational:
    the floor of its binary logarithm. *)
Definition floor_log2 (a : Q) : Z :=
  let e0 := Z.log2 (Qnum a) - Z.log2 (Zpos (Qden a)) in
  if Qle_bool (two_pow e0) a then e0 else e0 - 1.

(** A positive rational rounded to 53 significant bits (fewer below
    2^-1022), ties to even. *)
Definition round_magnitude (a : Q) : Q :=
  let e := Z.max (floor_log2 a - 52) (-1074) in
  (inject_Z (round_half_even (a / two_pow e)) * two_pow e)%Q.

(** Round a rational to the nearest binary64 value, ties to even; a
    result of magnitude 2^1024 or more is an infinity. *)
Definition round64 (x : Q) : number :=
  if Qeq_bool x 0 then Fin 0
  else
    let v := round_magnitude (Qabs x) in
    let neg := match Qnum x with Zneg _ => true | _ => false end in
    if Qle_bool (two_pow 1024) v then Inf neg
    else Fin (Qred (if neg then - v else v)%Q).

Definition digit_val (c : ascii) : Z := Z.of_nat (code c) - 48.

Fixpoint digits_val (acc : Z) (l : list ascii) : Z :=
  match l with
  | [] => acc
  | c :: r => digits_val (10 * acc + digit_val c) r
  end.

Fixpoint span_digits (l : list ascii) : list ascii * list ascii :=
  match l with
  | c :: r =>
      if is_digit c then let (d, t) := span_digits r in (c :: d, t) else ([], l)
  | [] => ([], [])
  end.

Definition is_null {A} (l : list A) : bool :=
  match l with [] => true | _ => false end.

(** ExponentPart: [e] or [E], an optional sign, at least one digit, and
    nothing after it. *)
Definition parse_exponent (l : list ascii) : option Z :=
  match l with
  | c :: r =>
      if (code c =? 101)%nat || (code c =? 69)%nat then
        let '(neg, r') :=
          match r with
          | s :: t =>
              if (code s =? 45)%nat then (true, t)
              else if (code s =? 43)%nat then (false, t)
              else (false, r)
          | [] => (false, r)
          end in
        let (d, t) := span_digits r' in
        if is_null d || negb (is_null t) then None
        else Some (if neg then - digits_val 0 d else digits_val 0 d)
      else None
  | [] => Some 0
  end.

(** StrUnsignedDecimalLiteral without [Infinity]: digits, an optional
    fraction, an optional exponent. *)
Definition parse_unsigned (l : list ascii) : option Q :=
  let (ip, r1) := span_digits l in
  let '(fp, r2) :=
    match r1 with
    | c :: r => if (code c =? 46)%nat then span_digits r else ([], r1)
    | [] => ([], r1)
    end in
  if is_null ip && is_null fp then None
  else
    match parse_exponent r2 with
    | Some ex =>
        Some (inject_Z (digits_val 0 (ip ++ fp))
              * Qpower 10 (ex - Z.of_nat (length fp)))%Q
    | None => None
    end.

Definition radix_digit (radix : Z) (c : ascii) : option Z :=
  let n := Z.of_nat (code c) in
  let v :=
    if (48 <=? n) && (n <=? 57) then n - 48
    else if (97 <=? n) && (n <=? 102) then n - 87
    else if (65 <=? n) && (n <=? 70) then n - 55
    else 99 in
  if v <? radix then Some v else None.

Fixpoint radix_val (radix acc : Z) (l : list ascii) : option Z :=
  match l with
  | [] => Some acc
  | c :: r =>
      match radix_digit radix c with
      | Some v => radix_val radix (radix * acc + v) r
      | None => None
      end
  end.

(** NonDecimalIntegerLiteral: [0x], [0o], [0b] (either case) and at
    least one digit of that radix. *)
Definition parse_radix (l : list ascii) : option Z :=
  match l with
  | z :: p :: (d :: _) as ds =>
      if (code z =? 48)%nat then
        if (code p =? 120)%nat || (code p =? 88)%nat then radix_val 16 0 ds
        else if (code p =? 111)%nat || (code p =? 79)%nat then radix_val 8 0 ds
        else if (code p =? 98)%nat || (code p =? 66)%nat then radix_val 2 0 ds
        else None
      else None
  | _ => None
  end.

Definition parse_signed (l : list ascii) : number :=
  let '(neg, body) :=
    match l with
    | c :: r =>
        if (code c =? 45)%nat then (true, r)
        else if (code c =? 43)%nat then (false, r)
        else (false, l)
    | [] => (false, l)
    end in
  if String.eqb (str body) "Infinity" then Inf neg
  else
    match parse_unsigned body with
    | Some q => round64 (if neg then - q else q)%Q
    | None => NaN
    end.

(** [Number(s)] for a string [s] (StringToNumber). *)
Definition Number (s : string) : number :=
  let l := trim_chars (chars s) in
  if is_null l then Fin 0
  else
    match parse_radix l with
    | Some z => round64 (inject_Z z)
    | None => parse_signed l
    end.

(** [Math.round]: the nearest integer, a tie going up; NaN and the
    infinities are returned as they are. *)
Definition Math_round (x : number) : number :=
  match x with
  | Fin q => of_Z (Qfloor (q + (1 # 2))%Q)
  | _ => x
  end.

(** [String(n)] for an integer [n] (below 10^21 in magnitude). *)
Definition String_of_Z (n : Z) : string := NilZero.string_of_int (Z.to_int n).

End Js.

(** ** Data model *)

Inductive Condition : Type := A | B | C.

(** The three input methods, ["standard"], ["voice"], ["chat"]. *)
Inductive Modality : Type := standard | voice | chat.

(** The [kind] of a step: ["choice"], ["design"], ["number"], ["amount"],
    ["text"], ["info"]. *)
Inductive Kind : Type := choice | design | number | amount | text | info.

#[global] Instance Condition_eq_dec : EqDecision Condition.
Proof. solve_decision. Defined.
#[global] Instance Modality_eq_dec : EqDecision Modality.
Proof. solve_decision. Defined.
#[global] Instance Kind_eq_dec : EqDecision Kind.
Proof. solve_decision. Defined.

(** A step as [step({ id, title, required, kind, options })] builds it; the
    [render] closure only produces markup and is left out. *)
Record Step : Type := step {
  step_id : string;
  title : string;
  required : bool;
  kind : Kind;
  options : list string
}.

Record Design : Type := mkDesign {
  design_id : string;
  label : string;
  style : string;
  category : string
}.

Definition CARD_DESIGNS : list Design := [
  mkDesign "balloons" "Bright Balloons" "bg-balloons" "Celebration";
  mkDesign "confetti" "Confetti Pop" "bg-confetti" "Celebration";
  mkDesign "birthday" "Birthday Cake" "bg-birthday" "Celebration";
  mkDesign "love" "Love Notes" "bg-love" "Greetings";
  mkDesign "thanks" "Thank You" "bg-thanks" "Appreciation";
  mkDesign "holiday" "Holiday Cheer" "bg-holiday" "Seasonal";
  mkDesign "gold" "Golden Luxe" "bg-gold" "Luxury";
  mkDesign "black" "Matte Black" "bg-black" "Luxury";
  mkDesign "classic" "Classic Red" "bg-classic" "Classic";
  mkDesign "neon" "Neon Night" "bg-neon" "Modern";
  mkDesign "pastel" "Soft Pastels" "bg-pastel" "Any Occasion";
  mkDesign "minimal1" "Minimal Light" "bg-minimal-1" "Minimal";
  mkDesign "minimal2" "Minimal Dark" "bg-minimal-2" "Minimal";
  mkDesign "fun1" "Smile Waves" "bg-fun-1" "Fun";
  mkDesign "fun2" "Fresh Mint" "bg-fun-2" "Fun";
  mkDesign "nature1" "Green Calm" "bg-nature-1" "Nature";
  mkDesign "nature2" "Ocean Blue" "bg-nature-2" "Nature";
  mkDesign "abs1" "Abstract Flow" "bg-abs-1" "Abstract";
  mkDesign "abs2" "Abstract Bold" "bg-abs-2" "Abstract";
  mkDesign "skyline" "City Skyline" "bg-skyline" "Modern";
  mkDesign "lavender" "Lavender Haze" "bg-lavender" "Any Occasion";
  mkDesign "sand" "Sunny Sand" "bg-sand" "Seasonal";
  mkDesign "mint" "Mint Glow" "bg-mint" "Modern";
  mkDesign "kids" "Kids Party" "bg-kids" "Kids"
].

(** The answer store: step identifier to answer value. *)
Abbreviation Answers := (gmap string string).

(** ** Flow builder *)

Definition baseSteps : list Step := [
  step "card_type" "Select Card Type" true choice ["Physical"; "Digital"];
  step "variant" "Card Variant" true choice ["Reloadable"; "Non-reloadable"];
  step "expiry" "Expiry & Pricing" true choice
    ["No expiry (higher price)"; "6-month expiry"; "12-month expiry"];
  step "design" "Choose a Design" true design (map label CARD_DESIGNS);
  step "activation" "Delivery & Activation" true choice
    ["Same activation for all cards"; "Unique activation per card";
     "Bulk activation by sender"; "Activation via card number"];
  step "r1_qty" "Recipient: Quantity" true number [];
  step "r1_amt" "Recipient: Gift amount" true amount [];
  step "r1_msg" "Recipient: Gift message (optional)" false text []
].

Definition getConditionalSteps (answers : Answers) : list Step :=
  let type := answers !! "card_type" in
  if decide (type = Some "Digital") then
    [ step "digital_delivery" "Digital Delivery Method" true choice ["Email"; "SMS"];
      step "digital_identifier" "Delivery Identifier" false info [] ]
  else
    [ step "packaging" "Packaging" true choice
        ["Greeting card"; "Trifold printed paper"; "Box packaging"];
      step "shipping_method" "Shipping Method" true choice
        ["Standard shipping"; "Expedited shipping"];
      step "shipping_address" "Shipping Address" false info [] ].

Definition paymentStep : Step :=
  step "payment" "Payment Method" true choice
    ["Test Credit Card (4242)"; "Test Debit Card (1111)"].

Definition computeFlow (answers : Answers) : list Step :=
  baseSteps ++ getConditionalSteps answers ++ [paymentStep].

(** ** Modality resolver *)

Definition CONDITION_C_MAP_PHYSICAL : gmap string Modality :=
  list_to_map [
    ("card_type", voice); ("variant", voice); ("expiry", chat);
    ("design", standard); ("activation", voice); ("packaging", chat);
    ("r1_qty", voice); ("r1_amt", chat); ("r1_msg", chat);
    ("shipping_method", voice); ("shipping_address", chat);
    ("payment", standard) ].

Definition CONDITION_C_MAP_DIGITAL : gmap string Modality :=
  list_to_map [
    ("card_type", voice); ("variant", chat); ("expiry", standard);
    ("design", standard); ("activation", voice);
    ("r1_qty", chat); ("r1_amt", voice); ("r1_msg", chat);
    ("digital_delivery", voice); ("digital_identifier", standard);
    ("payment", chat) ].

Definition getConditionCMap (answers : Answers) : gmap string Modality :=
  if decide (answers !! "card_type" = Some "Physical")
  then CONDITION_C_MAP_PHYSICAL else CONDITION_C_MAP_DIGITAL.

(** [CONDITION] and [currentInputMethod] are globals of the program; here
    they are arguments. An identifier the table does not hold gives
    [undefined], which [||] turns into ["standard"]. The tables are read
    at their own keys: the identifiers looked up are step identifiers,
    never a name that an object inherits from its prototype. *)
Definition resolveInputMethodForStep
    (CONDITION : Condition) (currentInputMethod : Modality)
    (answers : Answers) (stepId : string) : Modality :=
  match CONDITION with
  | C => default standard (getConditionCMap answers !! stepId)
  | _ => currentInputMethod
  end.

Definition isManualInputAllowedForCurrentStep
    (CONDITION : Condition) (currentInputMethod : Modality) : bool :=
  match CONDITION with
  | A => true
  | _ => bool_decide (currentInputMethod = standard)
  end.

(** ** Answer store *)

(** [answers] and [session.answers], which [setAnswer] writes together. *)
Record Store : Type := mkStore {
  answers : Answers;
  session_answers : Answers
}.

Definition empty_store : Store := mkStore ∅ ∅.

Definition put (key value : string) (st : Store) : Store :=
  mkStore (<[key := value]> (answers st)) (<[key := value]> (session_answers st)).

Definition del (key : string) (st : Store) : Store :=
  mkStore (delete key (answers st)) (delete key (session_answers st)).

Definition setAnswer (key value : string) (st : Store) : Store :=
  let st := put key value st in
  if decide (key = "card_type") then
    if decide (value = "Digital") then
      del "shipping_address" (del "shipping_method" (del "packaging" st))
    else if decide (value = "Physical") then
      del "digital_identifier" (del "digital_delivery" st)
    else st
  else st.

Definition ensureRecipient1Defaults (st : Store) : Store :=
  let st := if Js.present (answers st !! "r1_qty") then st else setAnswer "r1_qty" "1" st in
  let st := if Js.present (answers st !! "r1_amt") then st else setAnswer "r1_amt" "50" st in
  match answers st !! "r1_msg" with
  | None => setAnswer "r1_msg" "" st
  | Some _ => st
  end.

Definition ensureDesignDefaults (st : Store) : Store :=
  let st := if Js.present (answers st !! "design_category") then st
            else setAnswer "design_category" "All" st in
  if Js.present (answers st !! "design") then st else setAnswer "design" "confetti" st.

(** ** Step gate *)

(** [Number(answers.k)]: an absent property is [undefined], whose number
    is NaN. *)
Definition Number_of (v : option string) : Js.number :=
  match v with
  | Some s => Js.Number s
  | None => Js.NaN
  end.

Definition isStepComplete (answers : Answers) (stepObj : Step) : bool :=
  if negb (required stepObj) then true
  else
    match kind stepObj with
    | design => Js.present (answers !! "design")
    | choice => Js.present (answers !! step_id stepObj)
    | number => Js.ge (Number_of (answers !! "r1_qty")) (Js.of_Z 1)
    | amount => Js.ge (Number_of (answers !! "r1_amt")) (Js.of_Z 5)
    | _ => true
    end.

(** ** Pricing engine *)

(** [clampInt(n, min, max)] at integer bounds, as every caller has them:
    [Math.round], then [min] when the result is not finite, else the
    clamp. *)
Definition clampInt (n : Js.number) (min max : Z) : Z :=
  match Js.Math_round n with
  | Js.Fin x => Z.min max (Z.max min (Qfloor x))
  | _ => min
  end.

Record Totals : Type := mkTotals { qty : Z; amt : Z; giftTotal : Z }.

(** [answers.k ?? d] followed by [Number]. *)
Definition Number_or (v : option string) (d : Z) : Js.number :=
  match v with
  | Some s => Js.Number s
  | None => Js.of_Z d
  end.

Definition computeTotals (st : Store) : Totals * Store :=
  let st := ensureRecipient1Defaults st in
  let qty := clampInt (Number_or (answers st !! "r1_qty") 1) 1 10 in
  let amt := clampInt (Number_or (answers st !! "r1_amt") 50) 5 2000 in
  (mkTotals qty amt (qty * amt), st).

Definition canShowPrice (answers : Answers) : bool :=
  let type := answers !! "card_type" in
  if negb (Js.present type) then false
  else if negb (Js.present (answers !! "expiry")) then false
  else if negb (Js.present (answers !! "r1_qty"))
          || negb (Js.present (answers !! "r1_amt")) then false
  else if decide (type = Some "Physical") then
    if negb (Js.present (answers !! "packaging")) then false
    else if negb (Js.present (answers !! "shipping_method")) then false
    else true
  else
    if negb (Js.present (answers !! "digital_delivery")) then false
    else true.

Definition Math_max (a b : Q) : Q := if Qle_bool a b then b else a.

(** The sums below are exact: every term is a multiple of 1/2 far below
    2^53 (lemma [computePrice_halves]). *)
Definition computePrice (st : Store) : Q * Store :=
  let '(t, st) := computeTotals st in
  let total := inject_Z (giftTotal t) in
  let expiry := Js.or_default (answers st !! "expiry") "" in
  let cardType := answers st !! "card_type" in
  let total := if Js.startsWith expiry "No expiry" then (total + 6)%Q else total in
  let total := if Js.startsWith expiry "12-month" then (total + 2)%Q else total in
  let total :=
    if decide (cardType = Some "Physical") then
      let packaging := Js.or_default (answers st !! "packaging") "Greeting card" in
      let shippingMethod :=
        Js.or_default (answers st !! "shipping_method") "Standard shipping" in
      let total := if Js.includes packaging "Trifold" then (total + (5 # 2))%Q else total in
      let total := if Js.includes packaging "Box" then (total + 4)%Q else total in
      (total + (if Js.includes shippingMethod "Expedited" then 12 else 4))%Q
    else total in
  (Math_max total 10, st).

(** ** Matching and parsing of freeform (voice / chat) input *)

Definition space : ascii := ascii_of_nat 32.

Fixpoint collapse_spaces (in_run : bool) (l : list ascii) : list ascii :=
  match l with
  | [] => []
  | c :: r =>
      if Js.is_space c then
        if in_run then collapse_spaces true r else space :: collapse_spaces true r
      else c :: collapse_spaces false r
  end.

(** [toLowerCase], then [/[^\w\s$]/g] to a space, then [/\s+/g] to one
    space, then [trim]. *)
Definition normalizeText (s : string) : string :=
  let l := map Js.lower_char (Js.chars s) in
  let l := map (fun c => if Js.is_word c || Js.is_space c || (Js.code c =? 36)%nat
                         then c else space) l in
  Js.str (Js.trim_chars (collapse_spaces false l)).

(** [s.split(" ").filter(Boolean)]. *)
Fixpoint split_spaces (cur : list ascii) (l : list ascii) : list string :=
  match l with
  | [] => if Js.is_null cur then [] else [Js.str (rev cur)]
  | c :: r =>
      if (Js.code c =? 32)%nat then
        (if Js.is_null cur then [] else [Js.str (rev cur)]) ++ split_spaces [] r
      else split_spaces (c :: cur) r
  end.

Definition tokens (s : string) : list string := split_spaces [] (Js.chars s).

(** [options.find(p)] followed by a truthiness test of what it found. *)
Definition find_truthy (p : string -> bool) (options : list string) : option string :=
  match List.find p options with
  | Some o => if Js.truthy o then Some o else None
  | None => None
  end.

Definition option_score (clean : string) (inToks : list string) (o : string) : Q :=
  let ot := normalizeText o in
  let oToks := tokens ot in
  let score :=
    fold_left (fun (sc : Q) t => if existsb (String.eqb t) inToks then (sc + 1)%Q else sc)
              oToks 0%Q in
  let score := if Js.startsWith ot clean then (score + (1 # 2))%Q else score in
  if Js.startsWith clean ot then (score + (1 # 2))%Q else score.

(** The scoring loop: the first option of the highest score wins. *)
Fixpoint best_by_score (clean : string) (inToks : list string)
    (options : list string) (best : option string) (bestScore : Q)
    : option string * Q :=
  match options with
  | [] => (best, bestScore)
  | o :: r =>
      let score := option_score clean inToks o in
      if Qlt_le_dec bestScore score
      then best_by_score clean inToks r (Some o) score
      else best_by_score clean inToks r best bestScore
  end.

Definition bestOptionMatch (input : string) (options : list string) : option string :=
  if negb (Js.truthy input) || Js.is_null options then None
  else
    let clean := normalizeText input in
    match find_truthy (fun o => String.eqb (normalizeText o) clean) options with
    | Some direct => Some direct
    | None =>
        let direct :=
          match find_truthy (fun o => Js.includes (normalizeText o) clean) options with
          | Some d => Some d
          | None => List.find (fun o => Js.includes clean (normalizeText o)) options
          end in
        match direct with
        | Some d =>
            if Js.truthy d then Some d
            else
              let '(best, bestScore) :=
                best_by_score clean (tokens clean) options None (-1)%Q in
              if Qle_bool 1 bestScore then best else None
        | None =>
            let '(best, bestScore) :=
              best_by_score clean (tokens clean) options None (-1)%Q in
            if Qle_bool 1 bestScore then best else None
        end
    end.

(** The first match of [/-?\d+/]: the leftmost digit run, with the minus
    sign that immediately precedes it when there is one. *)
Fixpoint match_signed_digits (l : list ascii) : option (list ascii) :=
  match l with
  | [] => None
  | c :: r =>
      if Js.is_digit c then Some (c :: fst (Js.span_digits r))
      else if (Js.code c =? 45)%nat then
        match r with
        | d :: _ =>
            if Js.is_digit d then Some (c :: fst (Js.span_digits r))
            else match_signed_digits r
        | [] => None
        end
      else match_signed_digits r
  end.

(** The number words, in the order the object literal lists them. *)
Definition number_words : list (string * Z) := [
  ("zero", 0); ("one", 1); ("won", 1); ("two", 2); ("to", 2); ("too", 2);
  ("three", 3); ("four", 4); ("for", 4); ("five", 5); ("six", 6);
  ("seven", 7); ("eight", 8); ("ate", 8); ("nine", 9); ("ten", 10)
].

Definition find_number_word (s : string) : option (string * Z) :=
  List.find (fun kv => Js.includes s (fst kv)) number_words.

Definition parseSpokenNumberClosest
    (raw : string) (min max : Z) (fallback : Js.number) : Z :=
  if negb (Js.truthy raw) then clampInt fallback min max
  else
    let s := Js.toLowerCase raw in
    match match_signed_digits (Js.chars s) with
    | Some digitMatch => clampInt (Js.Number (Js.str digitMatch)) min max
    | None =>
        match find_number_word s with
        | Some (_, v) => clampInt (Js.of_Z v) min max
        | None => clampInt fallback min max
        end
    end.

(** [Number(answers.k || d)]. *)
Definition Number_or_falsy (v : option string) (d : Z) : Js.number :=
  match v with
  | Some s => if Js.truthy s then Js.Number s else Js.of_Z d
  | None => Js.of_Z d
  end.

(** What [refreshPreview] does to the store: it only fills in defaults
    (the texts it writes into the preview pane are not modelled). *)
Definition refreshPreview (st : Store) : Store :=
  let st := ensureRecipient1Defaults st in
  let st := ensureDesignDefaults st in
  let '(_, st) := computeTotals st in
  if canShowPrice (answers st) then snd (computePrice st) else st.

(** [raw.trim().slice(0, 140)]. *)
Definition trim_slice140 (raw : string) : string :=
  Js.str (firstn 140 (Js.trim_chars (Js.chars raw))).

Definition applyFreeformToStep (stepObj : Step) (raw : string) (st : Store) : Store :=
  let text := normalizeText raw in
  match kind stepObj with
  | choice =>
      match bestOptionMatch text (options stepObj) with
      | Some best =>
          if Js.truthy best then refreshPreview (setAnswer (step_id stepObj) best st)
          else st
      | None => st
      end
  | design =>
      match bestOptionMatch text (map label CARD_DESIGNS) with
      | Some bestLabel =>
          if Js.truthy bestLabel then
            let st :=
              match List.find (fun x => String.eqb (label x) bestLabel) CARD_DESIGNS with
              | Some d => setAnswer "design" (design_id d) st
              | None => st
              end in
            refreshPreview st
          else st
      | None => st
      end
  | number =>
      let n := parseSpokenNumberClosest raw 1 10
                 (Number_or_falsy (answers st !! "r1_qty") 1) in
      refreshPreview (setAnswer "r1_qty" (Js.String_of_Z n) st)
  | amount =>
      let n := parseSpokenNumberClosest raw 5 2000
                 (Number_or_falsy (answers st !! "r1_amt") 50) in
      refreshPreview (setAnswer "r1_amt" (Js.String_of_Z n) st)
  | text => setAnswer "r1_msg" (trim_slice140 raw) st
  | info => st
  end.

(** ** Session, transition log and survey *)

Inductive Action : Type := next | back.

Record Transition : Type := mkTransition {
  action : Action;
  from_step_id : option string;
  from_step_index : nat;
  to_step_id : option string;
  to_step_index : option nat;
  step_count : nat;
  enteredAt : option Z;
  exitedAt : Z;
  dwellMs : option Z
}.

(** A survey answer: a number, or [null] for a Likert item nobody picked.
    A key the object does not hold is [undefined]. *)
Inductive SurveyValue : Type := SNum (x : Js.number) | SNull.

Abbreviation Survey := (gmap string SurveyValue).

(** [session], without [condition] (the constant [CONDITION]) and without
    [answers] (kept in the [Store]). *)
Record Session : Type := mkSession {
  startedAt : option Z;
  checkoutCompletedAt : option Z;
  surveySubmittedAt : option Z;
  taskDurationMs : option Z;
  transitions : list Transition;
  input_method_by_step : gmap string Modality;
  survey : Survey
}.

Record Payload : Type := mkPayload {
  p_condition : Condition;
  p_startedAt : option Z;
  p_checkoutCompletedAt : option Z;
  p_surveySubmittedAt : option Z;
  p_taskDurationMs : option Z;
  p_transitions : list Transition;
  p_answers : Answers;
  p_input_method_by_step : gmap string Modality;
  p_survey : Survey
}.

(** What the user and the datastore get to see. *)
Inductive Effect : Type :=
| Alert (msg : string)
| SurveyStatus (txt : string)
| WriteFinal (payload : Payload).

Record State : Type := mkState {
  store : Store;
  session : Session;
  currentStep : nat;
  stepEnteredAt : option Z;
  currentInputMethod : Modality;
  submitDisabled : bool;
  effects : list Effect
}.

Definition initial_session : Session :=
  mkSession None None None None [] ∅ ∅.

Definition initial_state : State :=
  mkState empty_store initial_session 0 None standard false [].

Definition set_store (st : Store) (s : State) : State :=
  mkState st (session s) (currentStep s) (stepEnteredAt s)
          (currentInputMethod s) (submitDisabled s) (effects s).

Definition set_session (se : Session) (s : State) : State :=
  mkState (store s) se (currentStep s) (stepEnteredAt s)
          (currentInputMethod s) (submitDisabled s) (effects s).

Definition set_currentStep (i : nat) (s : State) : State :=
  mkState (store s) (session s) i (stepEnteredAt s)
          (currentInputMethod s) (submitDisabled s) (effects s).

Definition set_stepEnteredAt (t : option Z) (s : State) : State :=
  mkState (store s) (session s) (currentStep s) t
          (currentInputMethod s) (submitDisabled s) (effects s).

Definition set_currentInputMethod (m : Modality) (s : State) : State :=
  mkState (store s) (session s) (currentStep s) (stepEnteredAt s)
          m (submitDisabled s) (effects s).

Definition set_submitDisabled (b : bool) (s : State) : State :=
  mkState (store s) (session s) (currentStep s) (stepEnteredAt s)
          (currentInputMethod s) b (effects s).

Definition emit (e : Effect) (s : State) : State :=
  mkState (store s) (session s) (currentStep s) (stepEnteredAt s)
          (currentInputMethod s) (submitDisabled s) (effects s ++ [e]).

Definition push_transition (r : Transition) (se : Session) : Session :=
  mkSession (startedAt se) (checkoutCompletedAt se) (surveySubmittedAt se)
            (taskDurationMs se) (transitions se ++ [r])
            (input_method_by_step se) (survey se).

Definition set_input_method (stepId : string) (m : Modality) (se : Session) : Session :=
  mkSession (startedAt se) (checkoutCompletedAt se) (surveySubmittedAt se)
            (taskDurationMs se) (transitions se)
            (<[stepId := m]> (input_method_by_step se)) (survey se).

Definition set_startedAt (t : Z) (se : Session) : Session :=
  mkSession (Some t) (checkoutCompletedAt se) (surveySubmittedAt se)
            (taskDurationMs se) (transitions se)
            (input_method_by_step se) (survey se).

(** [checkoutCompletedAt = now; taskDurationMs = now - startedAt], a
    [null] start counting as 0. *)
Definition complete_checkout (now : Z) (se : Session) : Session :=
  mkSession (startedAt se) (Some now) (surveySubmittedAt se)
            (Some (now - default 0 (startedAt se))) (transitions se)
            (input_method_by_step se) (survey se).

Definition submit_survey (sv : Survey) (now : Z) (se : Session) : Session :=
  mkSession (startedAt se) (checkoutCompletedAt se) (Some now)
            (taskDurationMs se) (transitions se)
            (input_method_by_step se) sv.

(** ** Transition recorder *)

(** [toStep] is the destination step with its [index], or [null];
    [stepEnteredAt ? now - stepEnteredAt : null] is [null] for [null] and
    for 0. *)
Definition recordTransition (act : Action) (fromStep : option Step)
    (toStep : option (Step * nat)) (flowLength : nat) (now : Z) (s : State) : State :=
  let r := mkTransition act
             (step_id <$> fromStep)
             (currentStep s)
             (step_id ∘ fst <$> toStep)
             (snd <$> toStep)
             flowLength
             (stepEnteredAt s)
             now
             (match stepEnteredAt s with
              | Some t => if t =? 0 then None else Some (now - t)
              | None => None
              end) in
  set_session (push_transition r (session s)) s.

(** ** Rendering a step, and the handlers *)

Section Handlers.

Variable CONDITION : Condition.

(** The step on screen: [flow[currentStep]]. *)
Definition shown_step (s : State) : option Step :=
  computeFlow (answers (store s)) !! currentStep s.

Definition renderStep (now : Z) (s : State) : State :=
  let flow := computeFlow (answers (store s)) in
  match flow !! currentStep s with
  | None => set_session (complete_checkout now (session s)) s
  | Some stepObj =>
      let s := set_store (ensureDesignDefaults (ensureRecipient1Defaults (store s))) s in
      let s :=
        match CONDITION with
        | C =>
            let m := resolveInputMethodForStep CONDITION (currentInputMethod s)
                       (answers (store s)) (step_id stepObj) in
            set_session (set_input_method (step_id stepObj) m (session s))
                        (set_currentInputMethod m s)
        | A => set_currentInputMethod standard s
        | B =>
            set_session
              (set_input_method (step_id stepObj) (currentInputMethod s) (session s)) s
        end in
      let s := set_stepEnteredAt (Some now) s in
      set_store (refreshPreview (store s)) s
  end.

(** The [startBtn] handler. *)
Definition onStart (t0 t1 : Z) (s : State) : State :=
  let s := set_session (set_startedAt t0 (session s)) s in
  let st := store s in
  let st := setAnswer "design_category" "All" st in
  let st := setAnswer "design" "confetti" st in
  let st := setAnswer "r1_qty" "1" st in
  let st := setAnswer "r1_amt" "50" st in
  let st := setAnswer "r1_msg" "" st in
  let s := set_store st s in
  let s := set_currentInputMethod standard s in
  let s := set_currentStep 0 s in
  renderStep t1 s.

(** The [nextBtn] handler. With no step on screen [isStepComplete]
    throws on [undefined] and the handler ends there. *)
Definition onNext (t0 t1 : Z) (s : State) : State :=
  let flow := computeFlow (answers (store s)) in
  match flow !! currentStep s with
  | None => s
  | Some stepObj =>
      if negb (isStepComplete (answers (store s)) stepObj) then
        emit (Alert "Please complete the required fields to continue.") s
      else
        let nextIndex := S (currentStep s) in
        let toStep := (fun x => (x, nextIndex)) <$> flow !! nextIndex in
        let s := recordTransition next (Some stepObj) toStep (length flow) t0 s in
        let s := set_currentStep (S (currentStep s)) s in
        renderStep t1 s
  end.

(** The [backBtn] handler. *)
Definition onBack (t0 t1 : Z) (s : State) : State :=
  match currentStep s with
  | O => s
  | S prevIndex =>
      let flow := computeFlow (answers (store s)) in
      let toStep := (fun x => (x, prevIndex)) <$> flow !! prevIndex in
      let s := recordTransition back (flow !! currentStep s) toStep (length flow) t0 s in
      let s := set_currentStep prevIndex s in
      renderStep t1 s
  end.

(** The step whose controls are on the page: there are none before the
    first [renderStep], which is also what first sets [stepEnteredAt]. *)
Definition rendered_step (s : State) : option Step :=
  match stepEnteredAt s with
  | Some _ => shown_step s
  | None => None
  end.

(** The pointer and keyboard controls a step renders: option cards of a
    choice step, category chips and thumbnails of the design step, the
    quantity, amount (field and presets) and message fields. *)
Definition has_control (answers : Answers) (stepObj : Step) (key value : string) : bool :=
  match kind stepObj with
  | choice =>
      String.eqb key (step_id stepObj) && existsb (String.eqb value) (options stepObj)
  | design =>
      (String.eqb key "design_category"
       && existsb (String.eqb value) ("All" :: map category CARD_DESIGNS))
      || (String.eqb key "design"
          && existsb (fun d => String.eqb value (design_id d)
                               && (String.eqb (default "All" (answers !! "design_category")) "All"
                                   || String.eqb (category d)
                                        (default "All" (answers !! "design_category"))))
                     CARD_DESIGNS)
  | number => String.eqb key "r1_qty"
  | amount => String.eqb key "r1_amt"
  | text => String.eqb key "r1_msg"
  | info => false
  end.

(** A click or an input event on one of these controls. Every such
    handler is [setAnswer] followed by [refreshPreview], but for the
    message field, which only calls [setAnswer]. *)
Definition onManual (key value : string) (s : State) : State :=
  match rendered_step s with
  | None => s
  | Some stepObj =>
      if negb (has_control (answers (store s)) stepObj key value) then s
      else if negb (isManualInputAllowedForCurrentStep CONDITION (currentInputMethod s))
      then s
      else
        let st := setAnswer key value (store s) in
        set_store (if String.eqb key "r1_msg" then st else refreshPreview st) s
  end.

(** Condition B: a click on the input-method chooser. *)
Definition onSwitchMethod (m : Modality) (s : State) : State :=
  match CONDITION, rendered_step s with
  | B, Some stepObj =>
      let s := set_currentInputMethod m s in
      let s := set_session (set_input_method (step_id stepObj) m (session s)) s in
      set_store (refreshPreview (store s)) s
  | _, _ => s
  end.

(** A chat message, or a voice transcript that arrives in order: while
    the step it was spoken for is the step on screen and the input
    method is still voice. Both are wired under B and C while the input
    method is voice or chat; an empty text after [trim] is dropped. What
    a transcript does that arrives later is [voice_result], below. *)
Definition onFreeform (raw : string) (s : State) : State :=
  match rendered_step s with
  | None => s
  | Some stepObj =>
      let wired :=
        match CONDITION with
        | A => false
        | _ => negb (bool_decide (currentInputMethod s = standard))
        end in
      let t := Js.trim raw in
      if wired && Js.truthy t
      then set_store (applyFreeformToStep stepObj t (store s)) s
      else s
  end.

(** *** Survey *)

(** The survey form as [collectSurvey] reads it: the value of every
    [data-tlx] slider, and per Likert name the value of the checked
    radio button, if one is checked. *)
Record SurveyForm : Type := mkForm {
  sliders : list (string * string);
  checked : gmap string string
}.

Definition likertIds : list string :=
  ["umux_req"; "umux_easy"; "peffort"; "trust"; "control"; "satisfaction"].

Definition tlxIds : list string :=
  ["tlx_mental"; "tlx_physical"; "tlx_temporal"; "tlx_performance";
   "tlx_effort"; "tlx_frustration"].

Definition collectSurvey (form : SurveyForm) : Survey :=
  let out : Survey :=
    fold_left (fun (out : Survey) kv => <[fst kv := SNum (Js.Number (snd kv))]> out)
              (sliders form) ∅ in
  fold_left
    (fun (out : Survey) id =>
       <[id := match checked form !! id with
               | Some v => SNum (Js.Number v)
               | None => SNull
               end]> out)
    likertIds out.

(** [typeof v === "number"]. *)
Definition is_number (v : option SurveyValue) : bool :=
  match v with Some (SNum _) => true | _ => false end.

(** [!v]: [undefined], [null], 0 and NaN are falsy. *)
Definition falsy (v : option SurveyValue) : bool :=
  match v with
  | Some (SNum (Js.Fin q)) => Qeq_bool q 0
  | Some (SNum Js.NaN) => true
  | Some (SNum (Js.Inf _)) => false
  | Some SNull => true
  | None => true
  end.

Definition validateSurvey (s : Survey) : bool :=
  if existsb (fun id => negb (is_number (s !! id))) tlxIds then false
  else if existsb (fun id => falsy (s !! id)) likertIds then false
  else true.

(** [writeFinal]: one [addDoc]; [ok] tells whether it went through. *)
Definition writeFinal (payload : Payload) (ok : bool) (s : State) : State :=
  let s := emit (WriteFinal payload) s in
  if ok then s else emit (SurveyStatus "Upload failed. Please try again.") s.

(** [onSubmitSurvey], run through with nothing in between: the write it
    awaits is answered, with [ok], before anything else happens. Its two
    halves, before and after the [await], are [submit_click] and
    [write_settled], below. *)
Definition onSubmitSurvey (form : SurveyForm) (now : Z) (ok : bool) (s : State) : State :=
  let s := emit (SurveyStatus "") s in
  let sv := collectSurvey form in
  if negb (validateSurvey sv) then
    emit (SurveyStatus "Please answer all questions before submitting.") s
  else
    let s := set_session (submit_survey sv now (session s)) s in
    let se := session s in
    let s :=
      writeFinal
        (mkPayload CONDITION (startedAt se) (checkoutCompletedAt se)
           (surveySubmittedAt se) (taskDurationMs se) (transitions se)
           (session_answers (store s)) (input_method_by_step se) (survey se))
        ok s in
    let s := emit (SurveyStatus "Submitted. Thank you!") s in
    set_submitDisabled true s.

(** *** Events *)

(** An event is taken with its callbacks run to their end, where and
    when they were set up: this is the page as long as no transcript
    comes late and no write is still under way at the next click. The
    page with its pending callbacks is [react], below. *)

Inductive Event : Type :=
| Start (t0 t1 : Z)
| Next (t0 t1 : Z)
| Back (t0 t1 : Z)
| Manual (key value : string)
| SwitchMethod (m : Modality)
| Freeform (raw : string)
| Submit (form : SurveyForm) (now : Z) (ok : bool).

Definition handle (e : Event) (s : State) : State :=
  match e with
  | Start t0 t1 => onStart t0 t1 s
  | Next t0 t1 => onNext t0 t1 s
  | Back t0 t1 => onBack t0 t1 s
  | Manual key value => onManual key value s
  | SwitchMethod m => onSwitchMethod m s
  | Freeform raw => onFreeform raw s
  | Submit form now ok => if submitDisabled s then s else onSubmitSurvey form now ok s
  end.

Definition run (es : list Event) (s : State) : State :=
  fold_left (fun s e => handle e s) es s.

(** The readings of [Date.now()] an event makes, in order. *)
Definition readings (e : Event) : list Z :=
  match e with
  | Start t0 t1 | Next t0 t1 | Back t0 t1 => [t0; t1]
  | Submit _ now _ => [now]
  | _ => []
  end.

(** A navigation that goes through: forward from a complete step, or
    backward from any step but the first. *)
Definition navigates (e : Event) (s : State) : bool :=
  match e with
  | Next _ _ =>
      match shown_step s with
      | Some stepObj => isStepComplete (answers (store s)) stepObj
      | None => false
      end
  | Back _ _ => negb (Nat.eqb (currentStep s) 0)
  | _ => false
  end.

End Handlers.

(** ** The page and its pending callbacks *)

(** [handle] runs every callback where and when it was set up: a
    transcript reaches the step on screen, the write is answered before
    anything else happens. The page itself is freer. The handlers that
    [wireStepInteractions] attaches close over the [stepObj] they were
    wired for; a [SpeechRecognition] started by [wireVoice] stays alive
    when the step is rendered anew and hands its transcript to that
    [stepObj]; and [onSubmitSurvey] disables its button only once the
    write it awaits is answered. A [Page] keeps, besides the globals of
    the program, what these callbacks hold on to. *)
Record Page : Type := mkPage {
  (** the globals *)
  globals : State;
  (** the [stepObj] of the controls in [#stepContainer] *)
  wired : option Step;
  (** the recognizers that have been started and have not answered yet,
      each with the [stepObj] of [wireVoice] *)
  recognizers : list Step;
  (** the writes that [writeFinal] awaits *)
  writes : nat;
  (** [renderSurvey] has set the handler of the submit button *)
  surveyWired : bool
}.

Definition initial_page : Page := mkPage initial_state None [] 0 false.

Definition set_globals (s : State) (w : Page) : Page :=
  mkPage s (wired w) (recognizers w) (writes w) (surveyWired w).

Definition set_recognizers (l : list Step) (w : Page) : Page :=
  mkPage (globals w) (wired w) l (writes w) (surveyWired w).

Definition set_writes (n : nat) (w : Page) : Page :=
  mkPage (globals w) (wired w) (recognizers w) n (surveyWired w).

(** What the user and the browser do to the page. *)
Inductive Input : Type :=
| StartClick (t0 t1 : Z)
| NextClick (t0 t1 : Z)
| BackClick (t0 t1 : Z)
| Control (key value : string)
| MethodClick (m : Modality)
| ChatSend (raw : string)
| VoiceStart
| VoiceResult (i : nat) (raw : string)
| SubmitClick (form : SurveyForm) (now : Z)
| WriteSettled (ok : bool).

Section Callbacks.

Variable CONDITION : Condition.

(** The page after [renderStep] has left the globals [s]: the controls
    of [flow[currentStep]] are in the container, or, past the last step,
    the survey is rendered and its button wired. *)
Definition rendered (s : State) (w : Page) : Page :=
  match shown_step s with
  | Some stepObj => mkPage s (Some stepObj) (recognizers w) (writes w) (surveyWired w)
  | None => mkPage s (wired w) (recognizers w) (writes w) true
  end.

(** A click or an input event on a control of the wired step. *)
Definition control_input (key value : string) (w : Page) : Page :=
  match wired w with
  | None => w
  | Some stepObj =>
      let s := globals w in
      if negb (has_control (answers (store s)) stepObj key value) then w
      else if negb (isManualInputAllowedForCurrentStep CONDITION (currentInputMethod s))
      then w
      else
        let st := setAnswer key value (store s) in
        set_globals (set_store (if String.eqb key "r1_msg" then st else refreshPreview st) s) w
  end.

(** Condition B: a click on the input-method chooser of the wired step;
    the step is rendered and wired again. *)
Definition method_click (m : Modality) (w : Page) : Page :=
  match CONDITION, wired w with
  | B, Some stepObj =>
      let s := set_currentInputMethod m (globals w) in
      let s := set_session (set_input_method (step_id stepObj) m (session s)) s in
      set_globals (set_store (refreshPreview (store s)) s) w
  | _, _ => w
  end.

(** The step whose voice or chat pane is on the page: the pane is
    rendered, and [wireVoice] or [wireChat] called, under B and C when
    the step is wired while that is the input method. *)
Definition pane (m : Modality) (w : Page) : option Step :=
  match CONDITION with
  | A => None
  | _ => if bool_decide (currentInputMethod (globals w) = m) then wired w else None
  end.

(** [send] of [wireChat]. *)
Definition chat_send (raw : string) (w : Page) : Page :=
  match pane chat w with
  | None => w
  | Some stepObj =>
      let t := Js.trim raw in
      if Js.truthy t
      then set_globals (set_store (applyFreeformToStep stepObj t (store (globals w))) (globals w)) w
      else w
  end.

(** [startBtn.onclick] of [wireVoice]: the recognizer of the wired step
    starts to listen. *)
Definition voice_start (w : Page) : Page :=
  match pane voice w with
  | None => w
  | Some stepObj => set_recognizers (recognizers w ++ [stepObj])%list w
  end.

(** [rec.onresult]: the recognizer answers, once ([continuous] is
    false), with the transcript [raw] (empty when nothing was heard),
    for the [stepObj] it was created for, whatever is on screen by
    then. *)
Definition voice_result (i : nat) (raw : string) (w : Page) : Page :=
  match recognizers w !! i with
  | None => w
  | Some stepObj =>
      let w := set_recognizers (delete i (recognizers w)) w in
      let t := Js.trim raw in
      if Js.truthy t
      then set_globals (set_store (applyFreeformToStep stepObj t (store (globals w))) (globals w)) w
      else w
  end.

(** [onSubmitSurvey] up to its [await]: the write is under way when the
    click returns, and the button is still enabled. *)
Definition submit_click (form : SurveyForm) (now : Z) (w : Page) : Page :=
  if negb (surveyWired w) || submitDisabled (globals w) then w
  else
    let s := emit (SurveyStatus "") (globals w) in
    let sv := collectSurvey form in
    if negb (validateSurvey sv) then
      set_globals (emit (SurveyStatus "Please answer all questions before submitting.") s) w
    else
      let s := set_session (submit_survey sv now (session s)) s in
      let se := session s in
      let s :=
        emit (WriteFinal
                (mkPayload CONDITION (startedAt se) (checkoutCompletedAt se)
                   (surveySubmittedAt se) (taskDurationMs se) (transitions se)
                   (session_answers (store s)) (input_method_by_step se) (survey se))) s in
      set_writes (S (writes w)) (set_globals s w).

(** [onSubmitSurvey] after its [await]: the write is answered, with
    success or not. *)
Definition write_settled (ok : bool) (w : Page) : Page :=
  match writes w with
  | O => w
  | S n =>
      let s := globals w in
      let s := if ok then s else emit (SurveyStatus "Upload failed. Please try again.") s in
      let s := emit (SurveyStatus "Submitted. Thank you!") s in
      set_writes n (set_globals (set_submitDisabled true s) w)
  end.

Definition react (i : Input) (w : Page) : Page :=
  match i with
  | StartClick t0 t1 => rendered (onStart CONDITION t0 t1 (globals w)) w
  | NextClick t0 t1 =>
      if navigates (Next t0 t1) (globals w)
      then rendered (onNext CONDITION t0 t1 (globals w)) w
      else set_globals (onNext CONDITION t0 t1 (globals w)) w
  | BackClick t0 t1 =>
      if navigates (Back t0 t1) (globals w)
      then rendered (onBack CONDITION t0 t1 (globals w)) w
      else set_globals (onBack CONDITION t0 t1 (globals w)) w
  | Control key value => control_input key value w
  | MethodClick m => method_click m w
  | ChatSend raw => chat_send raw w
  | VoiceStart => voice_start w
  | VoiceResult i raw => voice_result i raw w
  | SubmitClick form now => submit_click form now w
  | WriteSettled ok => write_settled ok w
  end.

Definition play (inputs : list Input) (w : Page) : Page :=
  fold_left (fun w i => react i w) inputs w.

End Callbacks.

(** ** HTML escaping *)

(** [s.replaceAll(pattern, replacement)] for a pattern of one character. *)
Definition replaceAll (pattern : ascii) (replacement : string) (s : string) : string :=
  Js.str (flat_map (λ c, if ascii_dec c pattern then Js.chars replacement else [c])
            (Js.chars s)).

(** The double quote and the backslash. *)
Definition dquote : ascii := ascii_of_nat 34.
Definition backslash : ascii := ascii_of_nat 92.

Definition escapeHtml (s : string) : string :=
  replaceAll "'" "&#039;"
    (replaceAll dquote "&quot;"
       (replaceAll ">" "&gt;"
          (replaceAll "<" "&lt;"
             (replaceAll "&" "&amp;" s)))).

Definition escapeAttr (s : string) : string := escapeHtml s.

Definition cssEscape (s : string) : string :=
  replaceAll dquote (String backslash (String dquote EmptyString)) s.

(** ** Condition selection *)

(** [toUpperCase] takes three characters below 256 out of that range:
    the micro sign becomes U+039C, the sharp s becomes SS and the y with
    diaeresis becomes U+0178. Its result is therefore a list of code
    units. *)
Definition upper_units (c : ascii) : list nat :=
  let n := Js.code c in
  if ((97 <=? n) && (n <=? 122))%nat then [(n - 32)%nat]
  else if ((224 <=? n) && (n <=? 254) && negb (n =? 247))%nat then [(n - 32)%nat]
  else if (n =? 181)%nat then [924%nat]
  else if (n =? 223)%nat then [83%nat; 83%nat]
  else if (n =? 255)%nat then [376%nat]
  else [n].

Definition toUpperCase (s : string) : list nat := flat_map upper_units (Js.chars s).

(** White space among the code units [toUpperCase] can produce. *)
Definition is_space_unit (n : nat) : bool :=
  ((9 <=? n) && (n <=? 13))%nat || (n =? 32)%nat || (n =? 160)%nat.

Fixpoint drop_space_units (l : list nat) : list nat :=
  match l with
  | n :: r => if is_space_unit n then drop_space_units r else l
  | [] => []
  end.

Definition trim_units (l : list nat) : list nat :=
  rev (drop_space_units (rev (drop_space_units l))).

(** The test [x === "A" || x === "B" || x === "C"], with the letter. *)
Definition condition_letter (l : list nat) : option Condition :=
  match l with
  | [65%nat] => Some A
  | [66%nat] => Some B
  | [67%nat] => Some C
  | _ => None
  end.

Definition condition_name (c : Condition) : string :=
  match c with A => "A" | B => "B" | C => "C" end.

(** [s.replace("#", "")]: the first [#] goes. *)
Fixpoint remove_first_hash (l : list ascii) : list ascii :=
  match l with
  | [] => []
  | c :: r => if (Js.code c =? 35)%nat then r else c :: remove_first_hash r
  end.

(** What [getCondition] reads of the address: the first value of each of
    the three query parameters, and the fragment. *)
Record Location : Type := mkLocation {
  param_cond : option string;
  param_condition : option string;
  param_c : option string;
  hash : string
}.

(** [a || b] on optional strings. *)
Definition or_else (a : option string) (b : string) : string := Js.or_default a b.

(** [getCondition], with the address and the stored assignment as
    arguments; it returns the condition, the address after
    [history.replaceState] and the stored assignment. *)
Definition getCondition (loc : Location) (stored : option string)
    : Condition * Location * option string :=
  let qp :=
    trim_units (toUpperCase
      (or_else (param_cond loc) (or_else (param_condition loc) (or_else (param_c loc) "")))) in
  let h := trim_units (toUpperCase (Js.str (remove_first_hash (Js.chars (hash loc))))) in
  let fromUrl :=
    match condition_letter qp with
    | Some c => Some c
    | None => condition_letter h
    end in
  match fromUrl with
  | Some c => (c, mkLocation None None None "", Some (condition_name c))
  | None =>
      match condition_letter (toUpperCase (or_else stored "")) with
      | Some c => (c, loc, stored)
      | None => (A, loc, Some "A")
      end
  end.

(** ** Hints *)

Definition quoted (s : string) : string :=
  String dquote (s ++ String dquote EmptyString).

(** [inputHintForStep], with [CONDITION] and [currentInputMethod] as
    arguments. *)
Definition inputHintForStep
    (CONDITION : Condition) (currentInputMethod : Modality) (stepObj : Step) : string :=
  let m := currentInputMethod in
  match CONDITION with
  | B =>
      let verb := match m with voice => "Say" | chat => "Type" | standard => "Use" end in
      match kind stepObj with
      | choice => verb ++ " one of the visible options."
      | design => verb ++ " a design name (e.g., " ++ quoted "Confetti Pop" ++ ")."
      | number => verb ++ " a number (e.g., " ++ quoted "five" ++ ", " ++ quoted "5" ++ ")."
      | amount => verb ++ " an amount (e.g., " ++ quoted "50" ++ ", " ++ quoted "$75" ++ ")."
      | text => verb ++ " a short message (avoid personal info)."
      | info => verb ++ " your answer."
      end
  | C =>
      let verb := match m with voice => "Say" | chat => "Type" | standard => "Use" end in
      match kind stepObj with
      | choice => verb ++ " one of the visible options."
      | design => verb ++ " a design name (e.g., " ++ quoted "Confetti Pop" ++ ")."
      | number => verb ++ " a number (e.g., " ++ quoted "five" ++ ", " ++ quoted "5" ++ ")."
      | amount => verb ++ " an amount (e.g., " ++ quoted "50" ++ ", " ++ quoted "$75" ++ ")."
      | text => verb ++ " a short message (avoid personal info)."
      | info => verb ++ " your answer."
      end
  | A =>
      match kind stepObj with
      | choice => "Select one of the visible options."
      | design => "Select a design."
      | number => "Enter a number."
      | amount => "Enter an amount."
      | text => "Enter a short message (avoid personal info)."
      | info => "Continue."
      end
  end.

(** ** Vocabulary of the properties *)

(** *** Flow *)

(** The identifiers of the fixed prefix and of the two branch segments. *)
Definition prefix_ids : list string :=
  ["card_type"; "variant"; "expiry"; "design"; "activation"; "r1_qty"; "r1_amt"; "r1_msg"].

Definition digital_ids : list string := ["digital_delivery"; "digital_identifier"].

Definition physical_ids : list string := ["packaging"; "shipping_method"; "shipping_address"].

(** A store that only holds [card_type = "Digital"]. *)
Definition digital_only : Answers := {["card_type" := "Digital"]}.

(** The quantity step of every flow. *)
Definition qty_step : Step := step "r1_qty" "Recipient: Quantity" true number [].

(** The names an object literal inherits from [Object.prototype]: the
    tables answer those with inherited members, not with [undefined], and
    none of them is the identifier of a step. *)
Definition inherited_keys : list string :=
  ["constructor"; "__proto__"; "hasOwnProperty"; "isPrototypeOf";
   "propertyIsEnumerable"; "toLocaleString"; "toString"; "valueOf";
   "__defineGetter__"; "__defineSetter__"; "__lookupGetter__"; "__lookupSetter__"].

(** *** Step gate *)

(** "The stored value parses to an integer greater than or equal to 1." *)
Definition parses_to_integer_ge_1 (v : option string) : Prop :=
  ∃ n : Z, 1 ≤ n ∧
    match Number_of v with
    | Js.Fin q => (q == inject_Z n)%Q
    | _ => False
    end.

(** "The stored value parses to a number greater than or equal to 1",
    integer or not, [Infinity] included. *)
Definition parses_to_number_ge_1 (v : option string) : Prop :=
  match Number_of v with
  | Js.Fin q => (1 <= q)%Q
  | Js.Inf negative => negative = false
  | Js.NaN => False
  end.

(** *** Pricing *)

(** The store of the specification's second example. *)
Definition physical_example : Store :=
  let m : Answers :=
    list_to_map [("card_type", "Physical"); ("r1_qty", "1"); ("r1_amt", "50");
                 ("expiry", "No expiry (higher price)");
                 ("packaging", "Box packaging");
                 ("shipping_method", "Expedited shipping")] in
  mkStore m m.

(** The surcharges, as functions of the four answers they read. *)
Definition expiry_premium (expiry : option string) : Q :=
  let e := Js.or_default expiry "" in
  ((if Js.startsWith e "No expiry" then 6 else 0)
   + (if Js.startsWith e "12-month" then 2 else 0))%Q.

Definition physical_addons (cardType packaging shipping : option string) : Q :=
  if decide (cardType = Some "Physical") then
    ((if Js.includes (Js.or_default packaging "Greeting card") "Trifold" then 5 # 2 else 0)
     + (if Js.includes (Js.or_default packaging "Greeting card") "Box" then 4 else 0)
     + (if Js.includes (Js.or_default shipping "Standard shipping") "Expedited"
        then 12 else 4))%Q
  else 0%Q.

(** Quantity and amount as [computeTotals] reads them once the defaults
    are in place. *)
Definition quantity_of (a : Answers) : Z :=
  clampInt (Js.Number (Js.or_default (a !! "r1_qty") "1")) 1 10.

Definition amount_of (a : Answers) : Z :=
  clampInt (Js.Number (Js.or_default (a !! "r1_amt") "50")) 5 2000.

(** The total before the floor is applied. *)
Definition total_of (a : Answers) : Q :=
  (inject_Z (quantity_of a * amount_of a)
   + expiry_premium (a !! "expiry")
   + physical_addons (a !! "card_type") (a !! "packaging") (a !! "shipping_method"))%Q.

(** *** Freeform input *)

(** An integer clamped to integer bounds. *)
Definition clamp (n min max : Z) : Z := Z.min max (Z.max min n).

(** "The first digit sequence in the input": the leftmost maximal run of
    digits, without a sign. *)
Fixpoint first_digit_run (l : list ascii) : option (list ascii) :=
  match l with
  | [] => None
  | c :: r =>
      if Js.is_digit c then Some (c :: fst (Js.span_digits r))
      else first_digit_run r
  end.

(** The character [-]. *)
Definition minus : ascii := ascii_of_nat 45.

Definition all_digits (l : list ascii) : bool := forallb Js.is_digit l.

(** A digit run with a minus sign in front, or as it is. *)
Definition with_sign (neg : bool) (run : list ascii) : list ascii :=
  if neg then minus :: run else run.

Definition is_none {A : Type} (o : option A) : bool :=
  match o with None => true | Some _ => false end.

(** The input matches no option of a choice or design step, or holds no
    digit sequence and no number word on a numeric step. A text step
    takes every input as the message, so nothing misses there; an
    informational step takes no input at all. *)
Definition parse_miss (stepObj : Step) (raw : string) : bool :=
  match kind stepObj with
  | choice => is_none (bestOptionMatch (normalizeText raw) (options stepObj))
  | design => is_none (bestOptionMatch (normalizeText raw) (map label CARD_DESIGNS))
  | number | amount =>
      is_none (match_signed_digits (Js.chars (Js.toLowerCase raw)))
      && is_none (find_number_word (Js.toLowerCase raw))
  | text => false
  | info => true
  end.

(** The store once the checkout has started and 15 has been typed into
    the quantity field. *)
Definition typed_15 : Store :=
  setAnswer "r1_qty" "15" (store (onStart B 1000 1000 initial_state)).

(** *** Survey *)

(** A form with every slider at 10 and the last Likert item left open. *)
Definition one_unanswered : SurveyForm :=
  mkForm
    [("tlx_mental", "10"); ("tlx_physical", "10"); ("tlx_temporal", "10");
     ("tlx_performance", "10"); ("tlx_effort", "10"); ("tlx_frustration", "10")]
    (list_to_map [("umux_req", "5"); ("umux_easy", "6"); ("peffort", "3");
                  ("trust", "4"); ("control", "7")]).

(** *** Transition log *)

Definition log (s : State) : list Transition := transitions (session s).

(** A dwell time is non-negative, and [null] only on an entry whose
    [enteredAt] is [null] too. *)
Definition dwell_ok (r : Transition) : Prop :=
  match dwellMs r with
  | Some d => 0 ≤ d
  | None => enteredAt r = None
  end.

(** Successive clock readings: none below [lo], none below the one
    before it. *)
Fixpoint rising (lo : Z) (ts : list Z) : Prop :=
  match ts with
  | [] => True
  | t :: r => lo ≤ t ∧ rising t r
  end.

(** The clock of a run: [Date.now()] is positive and never goes back. *)
Definition clock_ok (es : list Event) : Prop := rising 1 (flat_map readings es).

(** An entry made after a step was entered: it carries the entry time,
    and its dwell is the exit time minus the entry time, not negative. *)
Definition recorded (r : Transition) : Prop :=
  ∃ t, enteredAt r = Some t ∧ dwellMs r = Some (exitedAt r - t) ∧ 0 ≤ exitedAt r - t.

(** No step has been rendered yet: nothing is answered and the wizard is
    at its first step. *)
Definition unrendered (s : State) : Prop :=
  stepEnteredAt s = None
  ∧ answers (store s) !! "card_type" = None
  ∧ currentStep s = 0%nat.

(** The invariant of a run: the entry time on record is a positive
    reading not above the latest one; as long as there is none, no step
    has been rendered; every logged entry was made after a step was
    entered. *)
Definition run_inv (lo : Z) (s : State) : Prop :=
  1 ≤ lo
  ∧ (∀ t, stepEnteredAt s = Some t → 1 ≤ t ≤ lo)
  ∧ (stepEnteredAt s = None → unrendered s)
  ∧ Forall recorded (log s).

(** A short session under Condition A: start, pick Digital, go forward,
    try to go forward from the unanswered variant step, go back. *)
Definition sample_run : list Event :=
  [Start 1000 1001; Manual "card_type" "Digital"; Next 2500 2501;
   Next 2600 2601; Back 4000 4001].

(** *** Writes that fill in defaults *)

(** The keys the program fills with defaults, and the numeric and text
    steps write: none of them selects or belongs to a branch. *)
Definition default_keys : list string :=
  ["design_category"; "design"; "r1_qty"; "r1_amt"; "r1_msg"].

(** [st'] comes from [st] by writes to default keys only. *)
Inductive fills : Store → Store → Prop :=
| fills_refl (st : Store) : fills st st
| fills_step (st st' : Store) (k v : string) :
    k ∈ default_keys → fills (setAnswer k v st) st' → fills st st'.

(** *** Invariants of the store *)

(** [session.answers] mirrors [answers]. *)
Definition in_sync (st : Store) : Prop := session_answers st = answers st.

(** No answer of one branch next to the other branch's card type: the
    card type is unset, "Physical" or "Digital"; under "Digital" there
    is no packaging and no shipping method, otherwise no digital
    delivery; the two informational steps never get an answer. *)
Definition branch_clean (a : Answers) : Prop :=
  (a !! "card_type" = None ∨ a !! "card_type" = Some "Physical"
   ∨ a !! "card_type" = Some "Digital")
  ∧ (a !! "card_type" = Some "Digital" →
     a !! "packaging" = None ∧ a !! "shipping_method" = None)
  ∧ (a !! "card_type" ≠ Some "Digital" → a !! "digital_delivery" = None)
  ∧ a !! "shipping_address" = None
  ∧ a !! "digital_identifier" = None.

(** *** Step index and log entries *)

(** A well-formed log entry: the flow had 11 or 12 steps; a forward
    entry leaves a step of the flow for the next index, or for nothing
    when it was the last step; a backward entry goes to the index
    before, which is a step of the flow. *)
Definition entry_ok (r : Transition) : Prop :=
  (step_count r = 11%nat ∨ step_count r = 12%nat)
  ∧ match action r with
    | next =>
        (from_step_index r < step_count r)%nat
        ∧ is_Some (from_step_id r)
        ∧ ((to_step_index r = Some (S (from_step_index r)) ∧ is_Some (to_step_id r)
            ∧ (S (from_step_index r) < step_count r)%nat)
           ∨ (to_step_index r = None ∧ to_step_id r = None
              ∧ S (from_step_index r) = step_count r))
    | back =>
        (from_step_index r ≤ step_count r)%nat
        ∧ ∃ p, from_step_index r = S p ∧ to_step_index r = Some p
               ∧ is_Some (to_step_id r)
    end.

(** The wizard is at a step of the flow, or just past its end. *)
Definition in_flow (s : State) : Prop :=
  (currentStep s ≤ length (computeFlow (answers (store s))))%nat.

(** *** Input methods *)

(** What the session knows about input methods, per condition. Under A
    the method is standard and nothing is recorded. Under B and C the
    method recorded for the step on screen is the active one; under C it
    is, besides, the entry of the table in force. *)
Definition method_inv (CONDITION : Condition) (s : State) : Prop :=
  match CONDITION with
  | A =>
      currentInputMethod s = standard ∧ input_method_by_step (session s) = ∅
  | B =>
      ∀ stepObj, rendered_step s = Some stepObj →
        input_method_by_step (session s) !! step_id stepObj = Some (currentInputMethod s)
  | C =>
      ∀ stepObj, rendered_step s = Some stepObj →
        input_method_by_step (session s) !! step_id stepObj = Some (currentInputMethod s)
        ∧ currentInputMethod s
          = default standard (getConditionCMap (answers (store s)) !! step_id stepObj)
  end.

(** *** Defaults *)

(** The defaults are in the store: quantity, amount, design category and
    design hold a non-empty string, and the message is there. *)
Definition defaults_present (a : Answers) : Prop :=
  Js.present (a !! "r1_qty") = true
  ∧ Js.present (a !! "r1_amt") = true
  ∧ is_Some (a !! "r1_msg")
  ∧ Js.present (a !! "design_category") = true
  ∧ Js.present (a !! "design") = true.

(** Once a step has been rendered, the defaults are in the store. *)
Definition defaults_inv (s : State) : Prop :=
  is_Some (stepEnteredAt s) → defaults_present (answers (store s)).

(** *** The final write *)

(** What a record sent to the datastore has to carry. *)
Definition payload_ok (CONDITION : Condition) (p : Payload) : Prop :=
  p_condition p = CONDITION
  ∧ validateSurvey (p_survey p) = true
  ∧ is_Some (p_surveySubmittedAt p)
  ∧ branch_clean (p_answers p)
  ∧ Forall entry_ok (p_transitions p).

Definition effect_ok (CONDITION : Condition) (e : Effect) : Prop :=
  match e with
  | WriteFinal p => payload_ok CONDITION p
  | _ => True
  end.

Definition write_inv (CONDITION : Condition) (s : State) : Prop :=
  in_sync (store s)
  ∧ branch_clean (answers (store s))
  ∧ in_flow s
  ∧ Forall entry_ok (log s)
  ∧ Forall (effect_ok CONDITION) (effects s).

(** *** Normal forms of texts *)

(** The character-wise part of [normalizeText]: lower case, then a
    space for whatever is not a word character, white space or [$]. *)
Definition normal_char (c : ascii) : ascii :=
  let c := Js.lower_char c in
  if Js.is_word c || Js.is_space c || (Js.code c =? 36)%nat then c else space.

(** The list does not start with white space. *)
Definition hd_ok (l : list ascii) : Prop :=
  match l with
  | c :: _ => Js.is_space c = false
  | [] => True
  end.

(** No two white-space characters in a row. *)
Definition no_space_pair (l : list ascii) : Prop :=
  ∀ l1 a b l2, l = (l1 ++ a :: b :: l2)%list →
    Js.is_space a = true → Js.is_space b = true → False.

(** A character [normalizeText] leaves alone, as long as it stands
    alone. *)
Definition plain_char (c : ascii) : Prop :=
  normal_char c = c ∧ (Js.is_space c = true → c = space).

(** *** Steps *)

(** The step of the flow that shows the designs. *)
Definition design_step : Step :=
  step "design" "Choose a Design" true design (map label CARD_DESIGNS).

Definition amt_step : Step := step "r1_amt" "Recipient: Gift amount" true amount [].

(** *** Steps gone past *)

(** Every non-empty answer of the first store is in the second one. *)
Definition keeps_truthy (st st' : Store) : Prop :=
  ∀ k v, answers st !! k = Some v → Js.truthy v = true → answers st' !! k = Some v.

(** Every step the wizard has gone past is complete. *)
Definition passed_complete (s : State) : Prop :=
  ∀ i stepObj, (i < currentStep s)%nat →
    computeFlow (answers (store s)) !! i = Some stepObj →
    isStepComplete (answers (store s)) stepObj = true.

(** *** Pricing keys *)

(** The answers [computePrice] reads. *)
Definition pricing_keys : list string :=
  ["card_type"; "expiry"; "r1_qty"; "r1_amt"; "packaging"; "shipping_method"].

(** The store with the given quantity and amount, written the way the
    program writes them. *)
Definition with_totals (n m : Z) (st : Store) : Store :=
  setAnswer "r1_amt" (Js.String_of_Z m) (setAnswer "r1_qty" (Js.String_of_Z n) st).

(** *** HTML escaping *)

(** What [escapeHtml] makes of one character, all five replacements
    taken at once. *)
Definition escape_char (c : ascii) : list ascii :=
  if ascii_dec c "&" then Js.chars "&amp;"
  else if ascii_dec c "<" then Js.chars "&lt;"
  else if ascii_dec c ">" then Js.chars "&gt;"
  else if ascii_dec c dquote then Js.chars "&quot;"
  else if ascii_dec c "'" then Js.chars "&#039;"
  else [c].

(** The characters with a meaning in HTML text and attribute values,
    the ampersand apart. *)
Definition html_special (c : ascii) : bool :=
  bool_decide (c ∈ ["<"%char; ">"%char; dquote; "'"%char]).

(** *** Condition selection *)

(** An address with nothing about the condition in it. *)
Definition plain_location : Location := mkLocation None None None "".

(** *** The sign of the first digit sequence, a clock that steps back *)

(** "A minus sign immediately before the first digit sequence": whether
    the character right before the first digit of the text is [-];
    [prev_minus] tells it of the character before the text. *)
Fixpoint minus_before_first_digit (prev_minus : bool) (l : list ascii) : bool :=
  match l with
  | [] => false
  | c :: r =>
      if Js.is_digit c then prev_minus
      else minus_before_first_digit (Js.code c =? 45)%nat r
  end.

(** A session whose clock steps back: the step is entered at 1001 and
    left at 500. *)
Definition clock_back_run : list Event :=
  [Start 1000 1001; Manual "card_type" "Digital"; Next 500 501].

(** *** Orderly runs of the page *)

(** An input that comes in order: a click, a keystroke or a chat
    message finds on the page the controls of the step that the flow has
    at the current index; a transcript arrives while the step it was
    spoken for is that step and voice is still the input method. *)
Definition orderly_at (i : Input) (w : Page) : Prop :=
  match i with
  | Control _ _ | MethodClick _ | ChatSend _ | VoiceStart =>
      wired w = rendered_step (globals w)
  | VoiceResult i _ =>
      ∀ stepObj, recognizers w !! i = Some stepObj →
        rendered_step (globals w) = Some stepObj ∧ currentInputMethod (globals w) = voice
  | _ => True
  end.

Fixpoint orderly (CONDITION : Condition) (inputs : list Input) (w : Page) : Prop :=
  match inputs with
  | [] => True
  | i :: r => orderly_at i w ∧ orderly CONDITION r (react CONDITION i w)
  end.

(** The globals that the flow, the gates and the input methods depend
    on; a submission changes none of them. *)
Definition core (s : State)
    : Store * nat * option Z * Modality * gmap string Modality * list Transition :=
  (store s, currentStep s, stepEnteredAt s, currentInputMethod s,
   input_method_by_step (session s), transitions (session s)).

(** No recognizer under Condition A. *)
Definition no_voice_under_A (CONDITION : Condition) (w : Page) : Prop :=
  CONDITION = A → recognizers w = [].

(** *** Sample runs of the page *)

(** A survey form as the page has it: the six sliders left at 10 and a
    4 on every Likert item. *)
Definition filled_form : SurveyForm :=
  mkForm (map (λ id, (id, "10")) tlxIds)
         (list_to_map (map (λ id, (id, "4")) likertIds)).

(** A complete digital checkout by clicks. *)
Definition digital_checkout : list Input :=
  [StartClick 1000 1001;
   Control "card_type" "Digital"; NextClick 2000 2001;
   Control "variant" "Reloadable"; NextClick 3000 3001;
   Control "expiry" "6-month expiry"; NextClick 4000 4001;
   NextClick 5000 5001;
   Control "activation" "Same activation for all cards"; NextClick 6000 6001;
   NextClick 7000 7001;
   NextClick 8000 8001;
   NextClick 9000 9001;
   Control "digital_delivery" "Email"; NextClick 10000 10001;
   NextClick 11000 11001;
   Control "payment" "Test Credit Card (4242)"; NextClick 12000 12001].

(** The checkout, then the survey submitted and the write answered. *)
Definition digital_session : list Input :=
  (digital_checkout ++ [SubmitClick filled_form 13000; WriteSettled true])%list.

(** The checkout, then two clicks on the submit button before the first
    write is answered. *)
Definition double_submit : list Input :=
  (digital_checkout
   ++ [SubmitClick filled_form 13000; SubmitClick filled_form 13500])%list.

Definition is_write (e : Effect) : bool :=
  match e with WriteFinal _ => true | _ => false end.

(** Condition B. At the first step the user starts the voice input and
    says nothing yet, then buys a physical card by clicks; when the
    survey is on screen the recognizer of the first step answers
    "digital". *)
Definition late_card_type : list Input :=
  [StartClick 1000 1001;
   MethodClick voice; VoiceStart; MethodClick standard;
   Control "card_type" "Physical"; NextClick 2000 2001;
   Control "variant" "Reloadable"; NextClick 3000 3001;
   Control "expiry" "6-month expiry"; NextClick 4000 4001;
   NextClick 5000 5001;
   Control "activation" "Same activation for all cards"; NextClick 6000 6001;
   NextClick 7000 7001;
   NextClick 8000 8001;
   NextClick 9000 9001;
   Control "packaging" "Box packaging"; NextClick 10000 10001;
   Control "shipping_method" "Standard shipping"; NextClick 11000 11001;
   NextClick 12000 12001;
   Control "payment" "Test Credit Card (4242)"; NextClick 13000 13001;
   VoiceResult 0 "digital"].

(** Condition B. The user picks Digital and clicks through to the
    delivery step, starts the voice input there and says nothing yet,
    goes back to the first step and picks Physical; then the recognizer
    of the delivery step answers "email". *)
Definition late_delivery : list Input :=
  [StartClick 1000 1001;
   Control "card_type" "Digital"; NextClick 2000 2001;
   Control "variant" "Reloadable"; NextClick 3000 3001;
   Control "expiry" "6-month expiry"; NextClick 4000 4001;
   NextClick 5000 5001;
   Control "activation" "Same activation for all cards"; NextClick 6000 6001;
   NextClick 7000 7001;
   NextClick 8000 8001;
   NextClick 9000 9001;
   MethodClick voice; VoiceStart; MethodClick standard;
   BackClick 10000 10001; BackClick 10002 10003; BackClick 10004 10005;
   BackClick 10006 10007; BackClick 10008 10009; BackClick 10010 10011;
   BackClick 10012 10013; BackClick 10014 10015;
   Control "card_type" "Physical";
   VoiceResult 0 "email"].

(** *** The page, in any run *)

(** The entries that an input adds to the transition log: one for a
    navigation that goes through, none otherwise. *)
Definition logs (i : Input) (w : Page) : nat :=
  match i with
  | NextClick t0 t1 => if navigates (Next t0 t1) (globals w) then 1%nat else 0%nat
  | BackClick t0 t1 => if navigates (Back t0 t1) (globals w) then 1%nat else 0%nat
  | _ => 0%nat
  end.

(** Whatever is wired or listening, a step has been rendered; and once a
    step has been rendered the defaults are in the store. *)
Definition page_defaults (w : Page) : Prop :=
  (is_Some (wired w) ∨ recognizers w ≠ [] → is_Some (stepEnteredAt (globals w)))
  ∧ defaults_inv (globals w).

(** * Properties *)

(** ** Flow builder *)

Lemma computeFlow_ids (answers : Answers) :
  map step_id (computeFlow answers) =
    (prefix_ids
     ++ (if decide (answers !! "card_type" = Some "Digital")
         then digital_ids else physical_ids)
     ++ ["payment"])%list
  ∧ length (computeFlow answers) =
    if decide (answers !! "card_type" = Some "Digital") then 11%nat else 12%nat.
Proof.
  unfold computeFlow, getConditionalSteps. by case_decide.
Qed.

(** C1. The flow is the fixed prefix, then the digital segment exactly
    when the [card_type] answer is the string "Digital" and the physical
    segment otherwise (so also when [card_type] is absent), then
    [payment]; a flow from a store with [card_type = "Digital"] holds no
    [packaging] step. *)
Theorem computeFlow_shape (answers : Answers) :
  map step_id (computeFlow answers) =
    (prefix_ids
       ++ (if decide (answers !! "card_type" = Some "Digital")
           then digital_ids else physical_ids)
       ++ ["payment"])%list
  ∧ (answers !! "card_type" = None →
     map step_id (computeFlow answers) = (prefix_ids ++ physical_ids ++ ["payment"])%list)
  ∧ (answers !! "card_type" = Some "Digital" →
     "packaging" ∉ map step_id (computeFlow answers)).
Proof.
  assert (Hids : map step_id (computeFlow answers) =
                 (prefix_ids
                    ++ (if decide (answers !! "card_type" = Some "Digital")
                        then digital_ids else physical_ids)
                    ++ ["payment"])%list).
  { apply computeFlow_ids. }
  split; [exact Hids|]. split.
  - intros Hnone. rewrite Hids, Hnone. by rewrite decide_False.
  - intros Hdig. rewrite Hids. rewrite decide_True by done.
    unfold prefix_ids, digital_ids. simpl.
    rewrite !not_elem_of_cons. repeat split; try discriminate.
    apply not_elem_of_nil.
Qed.

Lemma computeFlow_shape_witness :
  digital_only !! "card_type" = Some "Digital"
  ∧ ("packaging" ∉ map step_id (computeFlow digital_only))
  ∧ (∅ : Answers) !! "card_type" = None
  ∧ map step_id (computeFlow ∅) = (prefix_ids ++ physical_ids ++ ["payment"])%list.
Proof.
  split; [reflexivity|]. split.
  - apply (computeFlow_shape digital_only). reflexivity.
  - split; [reflexivity|]. apply (computeFlow_shape ∅). reflexivity.
Defined.

(** ** Answer store *)

Lemma answers_put key value st :
  answers (put key value st) = <[key := value]> (answers st).
Proof. reflexivity. Qed.

Lemma answers_del key st : answers (del key st) = delete key (answers st).
Proof. reflexivity. Qed.

Lemma session_answers_put key value st :
  session_answers (put key value st) = <[key := value]> (session_answers st).
Proof. reflexivity. Qed.

Lemma session_answers_del key st :
  session_answers (del key st) = delete key (session_answers st).
Proof. reflexivity. Qed.

Lemma setAnswer_other key value st :
  key ≠ "card_type" → setAnswer key value st = put key value st.
Proof. intros Hne. unfold setAnswer. by rewrite decide_False. Qed.

Lemma setAnswer_Digital st :
  setAnswer "card_type" "Digital" st =
    del "shipping_address" (del "shipping_method" (del "packaging"
      (put "card_type" "Digital" st))).
Proof. reflexivity. Qed.

Lemma setAnswer_Physical st :
  setAnswer "card_type" "Physical" st =
    del "digital_identifier" (del "digital_delivery" (put "card_type" "Physical" st)).
Proof. reflexivity. Qed.

(** C6. [setAnswer("card_type", "Digital")] removes [packaging],
    [shipping_method] and [shipping_address]; [setAnswer("card_type",
    "Physical")] removes [digital_delivery] and [digital_identifier]; both
    set [card_type] to the value given and leave every other key as it
    was, in [answers] and in [session.answers] alike. *)
Theorem setAnswer_card_type_frame (st : Store) :
  let d := setAnswer "card_type" "Digital" st in
  let p := setAnswer "card_type" "Physical" st in
  (answers d !! "card_type" = Some "Digital"
   ∧ session_answers d !! "card_type" = Some "Digital"
   ∧ (∀ k, k ∈ physical_ids → answers d !! k = None ∧ session_answers d !! k = None)
   ∧ (∀ k, k ≠ "card_type" → k ∉ physical_ids →
        answers d !! k = answers st !! k
        ∧ session_answers d !! k = session_answers st !! k))
  ∧ (answers p !! "card_type" = Some "Physical"
     ∧ session_answers p !! "card_type" = Some "Physical"
     ∧ (∀ k, k ∈ digital_ids → answers p !! k = None ∧ session_answers p !! k = None)
     ∧ (∀ k, k ≠ "card_type" → k ∉ digital_ids →
          answers p !! k = answers st !! k
          ∧ session_answers p !! k = session_answers st !! k)).
Proof.
  intros d p. subst d p. rewrite setAnswer_Digital, setAnswer_Physical.
  rewrite !answers_del, !session_answers_del, !answers_put, !session_answers_put.
  split; (split; [by simplify_map_eq|]); (split; [by simplify_map_eq|]); split.
  - intros k Hk. unfold physical_ids in Hk.
    rewrite !elem_of_cons in Hk.
    destruct Hk as [->|[->|[->|Hk]]]; [by simplify_map_eq ..|].
    by apply elem_of_nil in Hk.
  - intros k Hk Hnot. unfold physical_ids in Hnot.
    rewrite !not_elem_of_cons in Hnot. destruct Hnot as (? & ? & ? & _).
    by simplify_map_eq.
  - intros k Hk. unfold digital_ids in Hk.
    rewrite !elem_of_cons in Hk.
    destruct Hk as [->|[->|Hk]]; [by simplify_map_eq ..|].
    by apply elem_of_nil in Hk.
  - intros k Hk Hnot. unfold digital_ids in Hnot.
    rewrite !not_elem_of_cons in Hnot. destruct Hnot as (? & ? & _).
    by simplify_map_eq.
Qed.

Lemma setAnswer_card_type_frame_witness :
  answers (setAnswer "card_type" "Digital" physical_example) !! "packaging" = None
  ∧ answers (setAnswer "card_type" "Digital" physical_example) !! "expiry"
    = Some "No expiry (higher price)".
Proof.
  pose proof (setAnswer_card_type_frame physical_example) as [(_ & _ & Hrm & Hfr) _].
  split.
  - apply (Hrm "packaging"). unfold physical_ids. rewrite elem_of_cons. by left.
  - destruct (Hfr "expiry") as [-> _]; [discriminate| |reflexivity].
    unfold physical_ids. rewrite !not_elem_of_cons.
    repeat split; try discriminate. apply not_elem_of_nil.
Defined.

(** ** Modality resolver *)

Lemma step_ids_not_inherited (answers : Answers) (stepObj : Step) :
  stepObj ∈ computeFlow answers → step_id stepObj ∉ inherited_keys.
Proof.
  intros Hin.
  assert (Hid : step_id stepObj ∈ map step_id (computeFlow answers)).
  { apply list_elem_of_fmap. by exists stepObj. }
  rewrite (proj1 (computeFlow_ids answers)) in Hid.
  unfold prefix_ids, digital_ids, physical_ids in Hid.
  case_decide; cbn [app] in Hid;
    repeat (apply elem_of_cons in Hid as [-> | Hid];
            [unfold inherited_keys; rewrite !not_elem_of_cons;
             repeat split; try discriminate; apply not_elem_of_nil|]);
    by apply elem_of_nil in Hid.
Qed.

(** C7. Under Condition C the resolved input method of a step identifier
    is the entry of the physical table when [card_type] is "Physical" and
    of the digital table otherwise (so also when [card_type] is unset); an
    identifier the consulted table does not hold resolves to [standard]. *)
Theorem resolve_condition_C (answers : Answers) (cur : Modality) (stepId : string) :
  stepId ∉ inherited_keys →
  let table :=
    if decide (answers !! "card_type" = Some "Physical")
    then CONDITION_C_MAP_PHYSICAL else CONDITION_C_MAP_DIGITAL in
  (∀ m, table !! stepId = Some m →
        resolveInputMethodForStep C cur answers stepId = m)
  ∧ (table !! stepId = None →
     resolveInputMethodForStep C cur answers stepId = standard)
  ∧ (answers !! "card_type" = None → table = CONDITION_C_MAP_DIGITAL).
Proof.
  intros _ table. subst table. unfold resolveInputMethodForStep, getConditionCMap.
  repeat split.
  - intros m Hm. by rewrite Hm.
  - intros Hnone. by rewrite Hnone.
  - intros Hnone. rewrite decide_False; [done|]. by rewrite Hnone.
Qed.

Lemma resolve_condition_C_witness :
  resolveInputMethodForStep C standard {["card_type" := "Physical"]} "variant" = voice
  ∧ resolveInputMethodForStep C standard ∅ "variant" = chat
  ∧ resolveInputMethodForStep C voice ∅ "packaging" = standard.
Proof.
  assert (Hv : "variant" ∉ inherited_keys).
  { unfold inherited_keys. rewrite !not_elem_of_cons.
    repeat split; try discriminate. apply not_elem_of_nil. }
  assert (Hp : "packaging" ∉ inherited_keys).
  { unfold inherited_keys. rewrite !not_elem_of_cons.
    repeat split; try discriminate. apply not_elem_of_nil. }
  split; [|split].
  - apply (resolve_condition_C {["card_type" := "Physical"]} standard "variant" Hv).
    reflexivity.
  - apply (resolve_condition_C ∅ standard "variant" Hv). reflexivity.
  - apply (resolve_condition_C ∅ voice "packaging" Hp). reflexivity.
Defined.

(** ** Step gate *)

Lemma qty_step_in_flow (answers : Answers) : computeFlow answers !! 5%nat = Some qty_step.
Proof. reflexivity. Qed.

Lemma ge_one_spec (x : Js.number) :
  Js.ge x (Js.of_Z 1) = true ↔
    match x with
    | Js.Fin q => (1 <= q)%Q
    | Js.Inf negative => negative = false
    | Js.NaN => False
    end.
Proof.
  destruct x as [|[]|q]; simpl; try (split; [discriminate|done]); try done.
  apply Qle_bool_iff.
Qed.

(** C2, as the code has it. On a required numeric step the gate is
    [Number(answers.r1_qty) >= 1]: it passes exactly when the stored
    quantity converts to a number of at least 1, whether or not that
    number is an integer; every value that parses to an integer of at
    least 1 passes, and an absent value does not. *)
Theorem isStepComplete_qty (answers : Answers) (stepObj : Step) :
  kind stepObj = number → required stepObj = true →
  (isStepComplete answers stepObj = true ↔ parses_to_number_ge_1 (answers !! "r1_qty"))
  ∧ (parses_to_integer_ge_1 (answers !! "r1_qty") → isStepComplete answers stepObj = true)
  ∧ (answers !! "r1_qty" = None → isStepComplete answers stepObj = false).
Proof.
  intros Hk Hr.
  assert (Hgate : isStepComplete answers stepObj
                  = Js.ge (Number_of (answers !! "r1_qty")) (Js.of_Z 1)).
  { unfold isStepComplete. by rewrite Hr, Hk. }
  rewrite Hgate. unfold parses_to_number_ge_1, parses_to_integer_ge_1.
  split; [apply ge_one_spec|]. split.
  - intros (n & Hn & Hq). apply ge_one_spec.
    destruct (Number_of (answers !! "r1_qty")) as [| |q]; try done.
    rewrite Hq. change (inject_Z 1 <= inject_Z n)%Q. rewrite <- Zle_Qle. exact Hn.
  - intros ->. reflexivity.
Qed.

Lemma isStepComplete_qty_witness :
  isStepComplete {["r1_qty" := "3"]} qty_step = true
  ∧ isStepComplete ∅ qty_step = false.
Proof.
  split.
  - apply (isStepComplete_qty {["r1_qty" := "3"]} qty_step); [reflexivity..|].
    exists 3. split; [lia|]. vm_compute. reflexivity.
  - apply (isStepComplete_qty ∅ qty_step); reflexivity.
Defined.

(** C2, as stated, fails: the stored quantity "1.5" passes the gate and
    does not parse to an integer. *)
Lemma isStepComplete_qty_not_integer :
  isStepComplete {["r1_qty" := "1.5"]} qty_step = true
  ∧ ¬ parses_to_integer_ge_1 (({["r1_qty" := "1.5"]} : Answers) !! "r1_qty").
Proof.
  split; [vm_compute; reflexivity|].
  intros (n & _ & Hq).
  assert (Hnum : Number_of (({["r1_qty" := "1.5"]} : Answers) !! "r1_qty")
                 = Js.Fin (3 # 2)) by (vm_compute; reflexivity).
  rewrite Hnum in Hq. unfold Qeq in Hq. simpl in Hq. lia.
Qed.

(** ** Pricing engine: the worked example *)

(** C5. With [card_type = "Physical"], quantity "1", amount "50", no
    expiry, box packaging and expedited shipping the price is
    50 + 6 + 4 + 12 = 72. *)
Theorem computePrice_physical_example :
  (fst (computePrice physical_example) == 72)%Q
  ∧ canShowPrice (answers physical_example) = true.
Proof. split; vm_compute; reflexivity. Qed.

(** ** Survey *)

Lemma collectSurvey_unchecked (form : SurveyForm) (id : string) :
  id ∈ likertIds → checked form !! id = None →
  collectSurvey form !! id = Some SNull.
Proof.
  intros Hid Hnone. unfold collectSurvey, likertIds in *. simpl.
  rewrite !elem_of_cons in Hid.
  destruct Hid as [->|[->|[->|[->|[->|[->|Hid]]]]]];
    [rewrite ?Hnone; by simplify_map_eq ..|].
  by apply elem_of_nil in Hid.
Qed.

Lemma validateSurvey_unanswered (sv : Survey) (id : string) :
  id ∈ likertIds → falsy (sv !! id) = true → validateSurvey sv = false.
Proof.
  intros Hid Hf. unfold validateSurvey.
  destruct (existsb _ tlxIds); [done|].
  assert (existsb (λ id0, falsy (sv !! id0)) likertIds = true) as ->; [|done].
  apply existsb_exists. exists id. split; [|done].
  by apply list_elem_of_In.
Qed.

(** C9. When one of the six Likert items has no radio button checked,
    [validateSurvey] is false on the collected answers and
    [onSubmitSurvey] only clears the status line and writes the "Please
    answer all questions" message: nothing is written to the datastore,
    and the session ([survey] and [surveySubmittedAt] included) stays as
    it was. *)
Theorem survey_incomplete_rejected
    (CONDITION : Condition) (form : SurveyForm) (now : Z) (ok : bool)
    (s : State) (id : string) :
  id ∈ likertIds → checked form !! id = None →
  validateSurvey (collectSurvey form) = false
  ∧ (let s' := onSubmitSurvey CONDITION form now ok s in
     effects s' = (effects s ++
                   [SurveyStatus "";
                    SurveyStatus "Please answer all questions before submitting."])%list
     ∧ (∀ payload, WriteFinal payload ∈ effects s' → WriteFinal payload ∈ effects s)
     ∧ session s' = session s
     ∧ store s' = store s
     ∧ submitDisabled s' = submitDisabled s).
Proof.
  intros Hid Hnone.
  assert (Hval : validateSurvey (collectSurvey form) = false).
  { apply (validateSurvey_unanswered _ id Hid).
    by rewrite (collectSurvey_unchecked form id Hid Hnone). }
  split; [exact Hval|].
  unfold onSubmitSurvey. rewrite Hval. simpl.
  split; [by rewrite <- app_assoc|]. split; [|done].
  intros payload Hin.
  rewrite !elem_of_app, !elem_of_cons in Hin.
  destruct Hin as [[Hin|[Hin|Hin]]|[Hin|Hin]]; try done.
  - by apply elem_of_nil in Hin.
  - by apply elem_of_nil in Hin.
Qed.

Lemma survey_incomplete_rejected_witness :
  validateSurvey (collectSurvey one_unanswered) = false
  ∧ session (onSubmitSurvey A one_unanswered 1000 true initial_state)
    = session initial_state.
Proof.
  assert (Hid : "satisfaction" ∈ likertIds).
  { unfold likertIds. rewrite !elem_of_cons. tauto. }
  pose proof (survey_incomplete_rejected A one_unanswered 1000 true initial_state
                "satisfaction" Hid eq_refl) as [Hv (_ & _ & Hs & _)].
  split; [exact Hv | exact Hs].
Defined.

(** ** Pricing engine: floor and monotonicity *)

Lemma clampInt_range (n : Js.number) (min max : Z) :
  min ≤ max → min ≤ clampInt n min max ≤ max.
Proof. intros Hle. unfold clampInt. destruct (Js.Math_round n); lia. Qed.

Lemma ensureRecipient1Defaults_answers (st : Store) (k : string) :
  answers (ensureRecipient1Defaults st) !! k =
    if decide (k = "r1_qty") then Some (Js.or_default (answers st !! "r1_qty") "1")
    else if decide (k = "r1_amt") then Some (Js.or_default (answers st !! "r1_amt") "50")
    else if decide (k = "r1_msg") then Some (default "" (answers st !! "r1_msg"))
    else answers st !! k.
Proof.
  unfold ensureRecipient1Defaults, Js.present, Js.or_default.
  destruct (answers st !! "r1_qty") as [[|c1 s1]|] eqn:Hq;
    destruct (answers st !! "r1_amt") as [[|c2 s2]|] eqn:Ha;
    destruct (answers st !! "r1_msg") as [m|] eqn:Hm;
    simpl; rewrite ?setAnswer_other by discriminate;
    rewrite ?answers_put; simplify_map_eq; simpl;
    rewrite ?setAnswer_other by discriminate;
    rewrite ?answers_put; simplify_map_eq; simpl;
    rewrite ?setAnswer_other by discriminate;
    rewrite ?answers_put; repeat case_decide; by simplify_map_eq.
Qed.

Lemma Math_max_compat (a b c : Q) : (a == b)%Q → (Math_max a c == Math_max b c)%Q.
Proof.
  intros Hab. unfold Math_max.
  destruct (Qle_bool a c) eqn:Ha; destruct (Qle_bool b c) eqn:Hb; try reflexivity.
  - apply Qle_bool_iff in Ha. apply not_true_iff_false in Hb.
    rewrite Qle_bool_iff in Hb. lra.
  - apply Qle_bool_iff in Hb. apply not_true_iff_false in Ha.
    rewrite Qle_bool_iff in Ha. lra.
  - exact Hab.
Qed.

Lemma Math_max_ge_r (a c : Q) : (c <= Math_max a c)%Q.
Proof.
  unfold Math_max. destruct (Qle_bool a c) eqn:Ha; [lra|].
  apply not_true_iff_false in Ha. rewrite Qle_bool_iff in Ha. lra.
Qed.

Lemma Math_max_mono (a b c : Q) : (a <= b)%Q → (Math_max a c <= Math_max b c)%Q.
Proof.
  intros Hab. unfold Math_max.
  destruct (Qle_bool a c) eqn:Ha; destruct (Qle_bool b c) eqn:Hb;
    try apply Qle_bool_iff in Ha; try apply Qle_bool_iff in Hb;
    try (apply not_true_iff_false in Ha; rewrite Qle_bool_iff in Ha);
    try (apply not_true_iff_false in Hb; rewrite Qle_bool_iff in Hb); lra.
Qed.

(** [computePrice] reads the store through the defaults it has just
    written, and only the keys below. *)
Lemma computePrice_total (st : Store) :
  (fst (computePrice st) == Math_max (total_of (answers st)) 10)%Q
  ∧ snd (computePrice st) = ensureRecipient1Defaults st.
Proof.
  unfold computePrice, computeTotals. simpl. split; [|reflexivity].
  apply Math_max_compat.
  unfold total_of, quantity_of, amount_of, expiry_premium, physical_addons, Number_or.
  rewrite !ensureRecipient1Defaults_answers. simpl.
  repeat case_decide; try discriminate;
    repeat match goal with |- context [if ?b then _ else _] => destruct b end;
    ring.
Qed.

Lemma setAnswer_answers (key value : string) (st : Store) :
  answers (setAnswer key value st) =
    if decide (key = "card_type") then
      if decide (value = "Digital") then
        delete "shipping_address" (delete "shipping_method" (delete "packaging"
          (<[key := value]> (answers st))))
      else if decide (value = "Physical") then
        delete "digital_identifier" (delete "digital_delivery"
          (<[key := value]> (answers st)))
      else <[key := value]> (answers st)
    else <[key := value]> (answers st).
Proof. unfold setAnswer. repeat case_decide; reflexivity. Qed.

Lemma quantity_of_range (a : Answers) : 1 ≤ quantity_of a ≤ 10.
Proof. apply clampInt_range. lia. Qed.

Lemma amount_of_range (a : Answers) : 5 ≤ amount_of a ≤ 2000.
Proof. apply clampInt_range. lia. Qed.

Lemma expiry_premium_nonneg (e : option string) : (0 <= expiry_premium e)%Q.
Proof.
  unfold expiry_premium. simpl.
  repeat match goal with |- context [if ?b then _ else _] => destruct b end; lra.
Qed.

Lemma physical_addons_nonneg (c p s : option string) : (0 <= physical_addons c p s)%Q.
Proof.
  unfold physical_addons. case_decide; [|lra].
  repeat match goal with |- context [if ?b then _ else _] => destruct b end; lra.
Qed.

Lemma physical_addons_packaging (c p s : option string) :
  (physical_addons c None s <= physical_addons c p s)%Q.
Proof.
  unfold physical_addons. case_decide; [|lra].
  change (Js.includes (Js.or_default None "Greeting card") "Trifold") with false.
  change (Js.includes (Js.or_default None "Greeting card") "Box") with false.
  cbv beta iota.
  repeat match goal with |- context [if ?b then _ else _] => destruct b end; lra.
Qed.

Lemma physical_addons_shipping (c p s : option string) :
  (physical_addons c p None <= physical_addons c p s)%Q.
Proof.
  unfold physical_addons. case_decide; [|lra].
  change (Js.includes (Js.or_default None "Standard shipping") "Expedited") with false.
  cbv beta iota.
  repeat match goal with |- context [if ?b then _ else _] => destruct b end; lra.
Qed.

Lemma quantity_default : clampInt (Js.Number "1") 1 10 = 1.
Proof. vm_compute. reflexivity. Qed.

(** Setting a key that was unset, other than the amount, does not lower
    the total before the floor. *)
Lemma total_of_setAnswer (st : Store) (k v : string) :
  answers st !! k = None → k ≠ "r1_amt" →
  (total_of (answers st) <= total_of (answers (setAnswer k v st)))%Q.
Proof.
  intros Hk Hne. set (a := answers st) in *. set (a2 := answers (setAnswer k v st)).
  assert (Ha2 : a2 = answers (setAnswer k v st)) by reflexivity.
  rewrite setAnswer_answers in Ha2. fold a in Ha2.
  assert (Hamt : amount_of a2 = amount_of a).
  { unfold amount_of. f_equal. f_equal. f_equal. rewrite Ha2.
    repeat case_decide; subst; by simplify_map_eq. }
  assert (Hqty : quantity_of a ≤ quantity_of a2).
  { destruct (decide (k = "r1_qty")) as [->|Hq].
    - transitivity 1; [|apply quantity_of_range].
      unfold quantity_of. rewrite Hk. simpl. by rewrite quantity_default.
    - assert (a2 !! "r1_qty" = a !! "r1_qty") as Heq.
      { rewrite Ha2. repeat case_decide; subst; by simplify_map_eq. }
      unfold quantity_of. by rewrite Heq. }
  assert (Hexp : (expiry_premium (a !! "expiry") <= expiry_premium (a2 !! "expiry"))%Q).
  { destruct (decide (k = "expiry")) as [->|Hq].
    - rewrite Hk. apply expiry_premium_nonneg.
    - assert (a2 !! "expiry" = a !! "expiry") as ->; [|lra].
      rewrite Ha2. repeat case_decide; subst; by simplify_map_eq. }
  assert (Hadd : (physical_addons (a !! "card_type") (a !! "packaging")
                    (a !! "shipping_method")
                  <= physical_addons (a2 !! "card_type") (a2 !! "packaging")
                       (a2 !! "shipping_method"))%Q).
  { destruct (decide (k = "card_type")) as [->|Hct].
    - rewrite Hk. unfold physical_addons at 1. rewrite decide_False by done.
      apply physical_addons_nonneg.
    - destruct (decide (k = "packaging")) as [->|Hpk].
      + rewrite Hk, Ha2. simplify_map_eq. apply physical_addons_packaging.
      + destruct (decide (k = "shipping_method")) as [->|Hsh].
        * rewrite Hk, Ha2. simplify_map_eq. apply physical_addons_shipping.
        * rewrite Ha2. simplify_map_eq. lra. }
  unfold total_of. rewrite Hamt.
  assert (Hmul : (inject_Z (quantity_of a * amount_of a)
                  <= inject_Z (quantity_of a2 * amount_of a))%Q).
  { rewrite <- Zle_Qle. pose proof (amount_of_range a). nia. }
  lra.
Qed.

Lemma computePrice_floor (st : Store) : (10 <= fst (computePrice st))%Q.
Proof. rewrite (proj1 (computePrice_total st)). apply Math_max_ge_r. Qed.

Lemma computePrice_setAnswer (st : Store) (k v : string) :
  answers st !! k = None → k ≠ "r1_amt" →
  (fst (computePrice st) <= fst (computePrice (setAnswer k v st)))%Q.
Proof.
  intros Hk Hne.
  rewrite (proj1 (computePrice_total st)).
  rewrite (proj1 (computePrice_total (setAnswer k v st))).
  apply Math_max_mono. by apply total_of_setAnswer.
Qed.

(** C4, as the code has it. The price never falls below the floor of 10,
    and [setAnswer] on a key that was unset does not lower it, unless
    that key is [r1_amt]: an unset amount is priced at its default of 50,
    which a first amount below 50 undercuts. *)
Theorem computePrice_floor_and_monotone :
  (∀ st : Store, (10 <= fst (computePrice st))%Q)
  ∧ (∀ (st : Store) (k v : string),
       answers st !! k = None → k ≠ "r1_amt" →
       (fst (computePrice st) <= fst (computePrice (setAnswer k v st)))%Q).
Proof. split; [exact computePrice_floor | exact computePrice_setAnswer]. Qed.

Lemma computePrice_floor_and_monotone_witness :
  (fst (computePrice empty_store)
   <= fst (computePrice (setAnswer "expiry" "12-month expiry" empty_store)))%Q.
Proof.
  apply (proj2 computePrice_floor_and_monotone empty_store "expiry" "12-month expiry").
  - reflexivity.
  - discriminate.
Defined.

(** C4, as stated, fails: on the empty store the amount is unset and the
    price is 50; setting the amount to "5" brings it down to the floor. *)
Lemma computePrice_not_monotone_r1_amt :
  answers empty_store !! "r1_amt" = None
  ∧ (fst (computePrice empty_store) == 50)%Q
  ∧ (fst (computePrice (setAnswer "r1_amt" "5" empty_store)) == 10)%Q
  ∧ ¬ (fst (computePrice empty_store)
       <= fst (computePrice (setAnswer "r1_amt" "5" empty_store)))%Q.
Proof.
  split; [reflexivity|]. split; [vm_compute; reflexivity|].
  split; [vm_compute; reflexivity|].
  vm_compute. intros H. apply H. reflexivity.
Qed.

(** Once a price has been computed the defaults are in the store, so the
    next key to be set for the first time cannot be the amount: in a run
    of the program the displayed price never goes down that way. *)
Lemma computePrice_monotone_after_defaults (st : Store) (k v : string) :
  let st1 := snd (computePrice st) in
  answers st1 !! k = None →
  (fst (computePrice st) <= fst (computePrice (setAnswer k v st1)))%Q.
Proof.
  intros st1 Hk.
  assert (Hne : k ≠ "r1_amt").
  { intros ->. subst st1. rewrite (proj2 (computePrice_total st)) in Hk.
    rewrite ensureRecipient1Defaults_answers in Hk. simpl in Hk. discriminate. }
  apply Qle_trans with (y := fst (computePrice st1)).
  - rewrite (proj1 (computePrice_total st)), (proj1 (computePrice_total st1)).
    apply Math_max_mono. subst st1. rewrite (proj2 (computePrice_total st)).
    unfold total_of, quantity_of, amount_of.
    rewrite !ensureRecipient1Defaults_answers. simpl.
    assert (Hid : ∀ o d, (if Js.truthy (Js.or_default o d) then Js.or_default o d else d)
                         = Js.or_default o d).
    { intros [[|c s]|] d; simpl; try reflexivity; by destruct d. }
    rewrite !Hid. lra.
  - by apply computePrice_setAnswer.
Qed.

(** Every price is a number of halves between 10 and 20026.5: the sums
    in [computePrice] are exact in binary64. *)
Lemma computePrice_halves (st : Store) :
  ∃ k : Z, 20 ≤ k ≤ 40053 ∧ (fst (computePrice st) == k # 2)%Q.
Proof.
  assert (Hs : ∃ c : Z, 0 ≤ c ≤ 53 ∧
            (expiry_premium (answers st !! "expiry")
             + physical_addons (answers st !! "card_type") (answers st !! "packaging")
                 (answers st !! "shipping_method") == c # 2)%Q).
  { unfold expiry_premium, physical_addons. case_decide;
      repeat match goal with |- context [if ?b then _ else _] => destruct b end;
      match goal with
      | |- ∃ c, _ ∧ (?q == _)%Q =>
          exists (Qnum (Qred (q * 2)%Q)); split; [vm_compute; split; discriminate|];
          vm_compute; reflexivity
      end. }
  destruct Hs as (c & Hc & Hsum).
  pose proof (quantity_of_range (answers st)) as Hq.
  pose proof (amount_of_range (answers st)) as Ha.
  set (t := 2 * (quantity_of (answers st) * amount_of (answers st)) + c).
  assert (Ht : (total_of (answers st) == t # 2)%Q).
  { unfold total_of. rewrite <- Qplus_assoc, Hsum. subst t.
    unfold Qeq, Qplus, inject_Z. simpl. lia. }
  pose proof (proj1 (computePrice_total st)) as Hp. unfold Math_max in Hp.
  destruct (Qle_bool (total_of (answers st)) 10) eqn:Hle.
  - exists 20. split; [lia|]. rewrite Hp. reflexivity.
  - exists t. split; [|rewrite Hp; exact Ht].
    apply not_true_iff_false in Hle. rewrite Qle_bool_iff, Ht in Hle.
    unfold Qle in Hle. simpl in Hle. subst t. nia.
Qed.

(** ** Freeform numbers *)

Lemma Qfloor_half (v : Z) : Qfloor (inject_Z v + (1 # 2)) = v.
Proof.
  unfold Qfloor, Qplus, inject_Z. simpl.
  symmetry. apply (Z.div_unique _ _ v 1); lia.
Qed.

(** On an integer [clampInt] is the plain clamp. *)
Lemma clampInt_of_Z (v min max : Z) : clampInt (Js.of_Z v) min max = clamp v min max.
Proof.
  unfold clampInt, clamp, Js.Math_round, Js.of_Z.
  by rewrite Qfloor_half, Qfloor_Z.
Qed.

(** ** Binary64 rounding and [Number] on digit sequences *)

Lemma two_pow_nonneg (k : Z) : 0 ≤ k → (Js.two_pow k == inject_Z (2 ^ k))%Q.
Proof.
  intros Hk. unfold Js.two_pow. change (inject_Z 2 ^ k == inject_Z (2 ^ k))%Q.
  symmetry. by apply Zpower_Qpower.
Qed.

Lemma two_pow_neg (k : Z) : 0 ≤ k → (Js.two_pow (- k) == / inject_Z (2 ^ k))%Q.
Proof.
  intros Hk. unfold Js.two_pow. rewrite Qpower_opp.
  apply Qinv_comp. by apply two_pow_nonneg.
Qed.

Lemma round_half_even_Z (x : Q) (m : Z) : (x == inject_Z m)%Q → Js.round_half_even x = m.
Proof.
  intros Hx. unfold Js.round_half_even.
  assert (Hf : Qfloor x = m) by (rewrite Hx; apply Qfloor_Z).
  rewrite Hf.
  assert (Hc : ((x - inject_Z m) ?= 1 # 2)%Q = Lt).
  { rewrite Hx. rewrite <- Qlt_alt. lra. }
  by rewrite Hc.
Qed.

Lemma floor_log2_Z (p : Z) : 0 < p → Js.floor_log2 (inject_Z p) = Z.log2 p.
Proof.
  intros Hp. unfold Js.floor_log2. cbn [Qnum Qden inject_Z].
  change (Z.log2 1) with 0. rewrite Z.sub_0_r.
  assert (Hle : Qle_bool (Js.two_pow (Z.log2 p)) (inject_Z p) = true).
  { apply Qle_bool_iff. rewrite two_pow_nonneg by apply Z.log2_nonneg.
    rewrite <- Zle_Qle. by apply Z.log2_spec. }
  by rewrite Hle.
Qed.

Lemma round_magnitude_exact (p : Z) :
  0 < p < 2 ^ 53 → (Js.round_magnitude (inject_Z p) == inject_Z p)%Q.
Proof.
  intros Hp. unfold Js.round_magnitude. rewrite floor_log2_Z by lia.
  assert (Hlog : 0 ≤ Z.log2 p < 53).
  { split; [apply Z.log2_nonneg|]. apply Z.log2_lt_pow2; lia. }
  set (k := 52 - Z.log2 p).
  replace (Z.max (Z.log2 p - 52) (-1074)) with (- k) by lia.
  assert (Hk : 0 ≤ k) by lia.
  assert (Hpos : 0 < 2 ^ k) by (apply Z.pow_pos_nonneg; lia).
  assert (Hnz : ¬ (inject_Z (2 ^ k) == 0)%Q).
  { change 0%Q with (inject_Z 0). rewrite inject_Z_injective. lia. }
  assert (Hx : (inject_Z p / Js.two_pow (- k) == inject_Z (p * 2 ^ k))%Q).
  { rewrite two_pow_neg by done. rewrite inject_Z_mult. field. exact Hnz. }
  rewrite (round_half_even_Z _ _ Hx).
  rewrite two_pow_neg by done. rewrite inject_Z_mult. field. exact Hnz.
Qed.

Lemma round64_exact (n : Z) : Z.abs n < 2 ^ 53 → Js.round64 (inject_Z n) = Js.of_Z n.
Proof.
  intros Hn. unfold Js.round64, Js.of_Z.
  destruct (Qeq_bool (inject_Z n) 0) eqn:Hz.
  - apply Qeq_bool_iff in Hz. change 0%Q with (inject_Z 0) in Hz.
    rewrite inject_Z_injective in Hz. by subst n.
  - assert (Hne : n ≠ 0).
    { intros ->. discriminate. }
    change (Qabs (inject_Z n)) with (inject_Z (Z.abs n)). cbv zeta.
    pose proof (round_magnitude_exact (Z.abs n)) as Hv.
    assert (Hp : 0 < Z.abs n < 2 ^ 53) by lia.
    specialize (Hv Hp).
    assert (Hfin : Qle_bool (Js.two_pow 1024) (Js.round_magnitude (inject_Z (Z.abs n))) = false).
    { apply not_true_iff_false. rewrite Qle_bool_iff, Hv.
      rewrite two_pow_nonneg by lia. rewrite <- Zle_Qle.
      assert (2 ^ 53 < 2 ^ 1024) by (apply Z.pow_lt_mono_r; lia). lia. }
    rewrite Hfin. f_equal.
    etransitivity; [|apply (Qred_identity (inject_Z n)); cbn; apply Z.gcd_1_r].
    apply Qred_complete. cbn [Qnum inject_Z].
    destruct n as [|q|q]; [done| |]; cbn [Z.abs] in *.
    + exact Hv.
    + rewrite Hv. reflexivity.
Qed.

Lemma is_digit_code (c : ascii) : Js.is_digit c = true → (48 ≤ Js.code c ≤ 57)%nat.
Proof.
  unfold Js.is_digit. intros H. apply andb_prop in H as [H1 H2].
  apply Nat.leb_le in H1, H2. lia.
Qed.

Lemma code_minus (c : ascii) : (Js.code c =? 45)%nat = true → c = minus.
Proof.
  intros H. apply Nat.eqb_eq in H. unfold Js.code in H.
  rewrite <- (ascii_nat_embedding c), H. reflexivity.
Qed.

Lemma is_digit_not_space (c : ascii) : Js.is_digit c = true → Js.is_space c = false.
Proof.
  intros H. apply is_digit_code in H. unfold Js.is_space.
  repeat match goal with
         | |- context [(?a <=? ?b)%nat] => destruct (Nat.leb_spec a b)
         | |- context [(?a =? ?b)%nat] => destruct (Nat.eqb_spec a b)
         end; simpl; try reflexivity; lia.
Qed.

Lemma span_digits_fst (r : list ascii) : all_digits (fst (Js.span_digits r)) = true.
Proof.
  induction r as [|c r IH]; [reflexivity|]. simpl.
  destruct (Js.is_digit c) eqn:Hc; [|reflexivity].
  destruct (Js.span_digits r) as [d t]. simpl in *. by rewrite Hc.
Qed.

Lemma span_digits_all (d : list ascii) : all_digits d = true → Js.span_digits d = (d, []).
Proof.
  induction d as [|c d IH]; [reflexivity|]. simpl. intros H.
  apply andb_prop in H as [Hc Hd]. rewrite Hc, (IH Hd). reflexivity.
Qed.

Lemma first_digit_run_digits (l run : list ascii) :
  first_digit_run l = Some run → run ≠ [] ∧ all_digits run = true.
Proof.
  induction l as [|c r IH]; [discriminate|]. simpl.
  destruct (Js.is_digit c) eqn:Hc; [|exact IH].
  intros [= <-]. split; [discriminate|]. simpl. rewrite Hc. apply span_digits_fst.
Qed.

Lemma match_signed_digits_first (l : list ascii) :
  match match_signed_digits l, first_digit_run l with
  | Some ds, Some run => ds = run ∨ ds = minus :: run
  | None, None => True
  | _, _ => False
  end.
Proof.
  induction l as [|c r IH]; [exact I|]. simpl.
  destruct (Js.is_digit c) eqn:Hc; [by left|].
  destruct (Js.code c =? 45)%nat eqn:Hm; [|exact IH].
  destruct r as [|d r']; [exact I|]. simpl in *.
  destruct (Js.is_digit d) eqn:Hd; [|exact IH].
  right. rewrite (code_minus c Hm). by destruct (Js.span_digits r').
Qed.

Lemma chars_str (l : list ascii) : Js.chars (Js.str l) = l.
Proof. apply list_ascii_of_string_of_list_ascii. Qed.

Lemma drop_spaces_head (c : ascii) (r : list ascii) :
  Js.is_space c = false → Js.drop_spaces (c :: r) = c :: r.
Proof. intros H. simpl. by rewrite H. Qed.

Lemma all_digits_rev (run : list ascii) :
  run ≠ [] → all_digits run = true →
  ∃ x y, rev run = x :: y ∧ Js.is_digit x = true.
Proof.
  intros Hne Hall.
  destruct (rev run) as [|x y] eqn:Hrev.
  - apply (f_equal (@rev ascii)) in Hrev. rewrite rev_involutive in Hrev. done.
  - exists x, y. split; [reflexivity|].
    unfold all_digits in Hall. rewrite forallb_forall in Hall.
    apply Hall. apply in_rev. rewrite Hrev. by left.
Qed.

(** Trimming leaves a signed digit sequence as it is. *)
Lemma trim_chars_signed (neg : bool) (run : list ascii) :
  run ≠ [] → all_digits run = true →
  Js.trim_chars (with_sign neg run) = with_sign neg run.
Proof.
  intros Hne Hall. unfold Js.trim_chars.
  destruct (all_digits_rev run Hne Hall) as (x & y & Hrev & Hx).
  assert (Hhead : Js.drop_spaces (with_sign neg run) = with_sign neg run).
  { destruct neg; [reflexivity|].
    destruct run as [|c r]; [done|]. simpl in Hall.
    apply andb_prop in Hall as [Hc _].
    apply drop_spaces_head. by apply is_digit_not_space. }
  assert (Hlast : rev (with_sign neg run) = x :: (y ++ if neg then [minus] else [])%list).
  { destruct neg; simpl; rewrite Hrev; [reflexivity|]. by rewrite app_nil_r. }
  rewrite Hhead, Hlast.
  rewrite drop_spaces_head by (by apply is_digit_not_space).
  rewrite <- Hlast. apply rev_involutive.
Qed.

Lemma parse_radix_signed (neg : bool) (run : list ascii) :
  all_digits run = true → Js.parse_radix (with_sign neg run) = None.
Proof.
  intros Hall. destruct neg.
  - destruct run as [|p [|d t]]; reflexivity.
  - destruct run as [|z [|p [|d t]]]; try reflexivity.
    cbn [with_sign Js.parse_radix].
    destruct (Js.code z =? 48)%nat; [|reflexivity].
    simpl in Hall. apply andb_prop in Hall as [_ Hall].
    apply andb_prop in Hall as [Hp _]. apply is_digit_code in Hp.
    repeat match goal with
           | |- context [(?a =? ?b)%nat] => destruct (Nat.eqb_spec a b)
           end; simpl; try reflexivity; lia.
Qed.

Lemma parse_unsigned_digits (run : list ascii) :
  run ≠ [] → all_digits run = true →
  Js.parse_unsigned run = Some (inject_Z (Js.digits_val 0 run)).
Proof.
  intros Hne Hall. unfold Js.parse_unsigned.
  rewrite (span_digits_all run Hall). cbv beta iota.
  destruct run as [|c r]; [done|]. cbn [Js.is_null andb Js.parse_exponent length].
  rewrite app_nil_r. f_equal.
  unfold Qmult, inject_Z. cbn. by rewrite Z.mul_1_r.
Qed.

Lemma not_Infinity (run : list ascii) :
  run ≠ [] → all_digits run = true → String.eqb (Js.str run) "Infinity" = false.
Proof.
  intros Hne Hall. destruct run as [|c r]; [done|].
  simpl in Hall. apply andb_prop in Hall as [Hc _].
  cbn [Js.str string_of_list_ascii String.eqb].
  destruct (Ascii.eqb_spec c "I"%char) as [->|]; [discriminate|reflexivity].
Qed.

(** [Number] of a digit sequence, with or without a minus sign in
    front, is its value rounded to binary64. *)
Lemma Number_signed_digits (neg : bool) (run : list ascii) :
  run ≠ [] → all_digits run = true →
  Js.Number (Js.str (with_sign neg run))
  = Js.round64 (inject_Z (if neg then - Js.digits_val 0 run else Js.digits_val 0 run)).
Proof.
  intros Hne Hall. unfold Js.Number.
  rewrite chars_str, (trim_chars_signed neg run Hne Hall).
  assert (Hnull : Js.is_null (with_sign neg run) = false).
  { destruct neg; [reflexivity|]. by destruct run. }
  rewrite Hnull, (parse_radix_signed neg run Hall).
  unfold Js.parse_signed.
  assert (Hsign :
    match with_sign neg run with
    | c :: r =>
        if (Js.code c =? 45)%nat then (true, r)
        else if (Js.code c =? 43)%nat then (false, r)
        else (false, with_sign neg run)
    | [] => (false, with_sign neg run)
    end = (neg, run)).
  { destruct neg; [reflexivity|]. cbn [with_sign].
    destruct run as [|c r]; [done|].
    simpl in Hall. apply andb_prop in Hall as [Hc _]. apply is_digit_code in Hc.
    repeat match goal with
           | |- context [(?a =? ?b)%nat] => destruct (Nat.eqb_spec a b)
           end; try reflexivity; lia. }
  rewrite Hsign.
  rewrite (not_Infinity run Hne Hall), (parse_unsigned_digits run Hne Hall).
  by destruct neg.
Qed.

Lemma digits_val_nonneg (run : list ascii) (acc : Z) :
  all_digits run = true → 0 ≤ acc → 0 ≤ Js.digits_val acc run.
Proof.
  revert acc. induction run as [|c r IH]; intros acc Hall Hacc; [exact Hacc|].
  simpl in *. apply andb_prop in Hall as [Hc Hr].
  apply IH; [exact Hr|]. apply is_digit_code in Hc. unfold Js.digit_val. lia.
Qed.

Lemma match_signed_digits_none (l : list ascii) :
  match_signed_digits l = None ↔ first_digit_run l = None.
Proof.
  pose proof (match_signed_digits_first l) as H.
  destruct (match_signed_digits l), (first_digit_run l); try done.
Qed.

Lemma minus_before_first_digit_flag (b b' : bool) (c : ascii) (r : list ascii) :
  Js.is_digit c = false →
  minus_before_first_digit b (c :: r) = minus_before_first_digit b' (c :: r).
Proof. intros Hc. cbn [minus_before_first_digit]. by rewrite Hc. Qed.

(** The first match of [/-?\d+/] is the first digit sequence, with the
    minus sign exactly when one stands right before it. *)
Lemma match_signed_digits_sign (l run : list ascii) :
  first_digit_run l = Some run →
  match_signed_digits l = Some (with_sign (minus_before_first_digit false l) run).
Proof.
  induction l as [|c r IH]; [discriminate|].
  cbn [first_digit_run match_signed_digits minus_before_first_digit].
  destruct (Js.is_digit c) eqn:Hc; [by intros [= <-]|].
  destruct (Js.code c =? 45)%nat eqn:Hm; [|exact IH].
  destruct r as [|d r']; [discriminate|].
  destruct (Js.is_digit d) eqn:Hd.
  - cbn [first_digit_run minus_before_first_digit]. rewrite Hd. intros [= <-].
    cbn [with_sign Js.span_digits]. rewrite Hd, (code_minus c Hm).
    by destruct (Js.span_digits r').
  - intros Hrun. rewrite (minus_before_first_digit_flag true false d r' Hd).
    by apply IH.
Qed.

(** C10, as the code has it. At bounds [min <= max] the result lies in
    [[min, max]]. It is [clampInt] of: the first match of [/-?\d+/] in the
    lower-cased input, that is the first digit sequence, with a minus
    sign exactly when the character right before its first digit is [-]
    (its signed value clamped to the bounds, as long as that value is
    below 2^53 in magnitude); else the value of the first entry of the
    word table (zero, one, won, two, to, ...) that occurs in the input as
    a substring; else the fallback. *)
Theorem parseSpokenNumberClosest_range
    (raw : string) (min max : Z) (fallback : Js.number) :
  min ≤ max →
  let s := Js.toLowerCase raw in
  let r := parseSpokenNumberClosest raw min max fallback in
  min ≤ r ≤ max
  ∧ (∀ run, first_digit_run (Js.chars s) = Some run →
       let neg := minus_before_first_digit false (Js.chars s) in
       match_signed_digits (Js.chars s) = Some (with_sign neg run)
       ∧ r = clampInt (Js.Number (Js.str (with_sign neg run))) min max
       ∧ (Js.digits_val 0 run < 2 ^ 53 →
          r = clamp (if neg then - Js.digits_val 0 run else Js.digits_val 0 run)
                min max))
  ∧ (first_digit_run (Js.chars s) = None →
     ∀ k v, find_number_word s = Some (k, v) → r = clamp v min max)
  ∧ (first_digit_run (Js.chars s) = None → find_number_word s = None →
     r = clampInt fallback min max).
Proof.
  intros Hle s r.
  assert (Hempty : Js.truthy raw = false → match_signed_digits (Js.chars s) = None
                                          ∧ find_number_word s = None).
  { subst s. destruct raw; [|discriminate]. intros _. split; reflexivity. }
  split; [|split; [|split]].
  - subst r. unfold parseSpokenNumberClosest.
    destruct (Js.truthy raw); simpl; [|by apply clampInt_range].
    destruct (match_signed_digits _); [by apply clampInt_range|].
    destruct (find_number_word _) as [[k v]|]; by apply clampInt_range.
  - intros run Hrun neg.
    pose proof (match_signed_digits_sign _ _ Hrun) as Hds. fold neg in Hds.
    destruct (first_digit_run_digits _ _ Hrun) as [Hne Hall].
    split; [exact Hds|].
    assert (Hr : r = clampInt (Js.Number (Js.str (with_sign neg run))) min max).
    { subst r. unfold parseSpokenNumberClosest.
      destruct (Js.truthy raw) eqn:Ht; simpl.
      - fold s. by rewrite Hds.
      - destruct (Hempty eq_refl) as [Hnone _]. congruence. }
    split; [exact Hr|]. intros Hsmall.
    rewrite Hr, (Number_signed_digits neg run Hne Hall).
    assert (Hnn : 0 ≤ Js.digits_val 0 run) by (apply digits_val_nonneg; [exact Hall | lia]).
    rewrite round64_exact by (destruct neg; lia).
    apply clampInt_of_Z.
  - intros Hnone k v Hkv. apply match_signed_digits_none in Hnone.
    subst r. unfold parseSpokenNumberClosest.
    destruct (Js.truthy raw) eqn:Ht; simpl.
    + fold s. rewrite Hnone, Hkv. apply clampInt_of_Z.
    + destruct (Hempty eq_refl) as [_ Hw]. congruence.
  - intros Hnone Hw. apply match_signed_digits_none in Hnone.
    subst r. unfold parseSpokenNumberClosest.
    destruct (Js.truthy raw) eqn:Ht; simpl; [|reflexivity].
    fold s. by rewrite Hnone, Hw.
Qed.

Lemma parseSpokenNumberClosest_range_witness :
  1 ≤ parseSpokenNumberClosest "give me 25 cards" 1 10 (Js.of_Z 3) ≤ 10
  ∧ parseSpokenNumberClosest "nine one" 1 10 (Js.of_Z 3) = 1
  ∧ parseSpokenNumberClosest "a-3b" 5 2000 (Js.of_Z 50) = 5
  ∧ parseSpokenNumberClosest "-5" 1 10 (Js.of_Z 7) = 1
  ∧ parseSpokenNumberClosest "- 5" 1 10 (Js.of_Z 7) = 5.
Proof.
  assert (Hle : 1 ≤ 10) by lia.
  assert (Hle' : 5 ≤ 2000) by lia.
  split; [|split; [|split; [|split]]].
  - apply (parseSpokenNumberClosest_range "give me 25 cards" 1 10 (Js.of_Z 3) Hle).
  - pose proof (parseSpokenNumberClosest_range "nine one" 1 10 (Js.of_Z 3) Hle)
      as (_ & _ & Hword & _).
    exact (Hword eq_refl "one" 1 eq_refl).
  - pose proof (parseSpokenNumberClosest_range "a-3b" 5 2000 (Js.of_Z 50) Hle')
      as (_ & Hdigits & _).
    destruct (Hdigits (Js.chars "3") eq_refl) as (_ & _ & Hval).
    apply Hval. reflexivity.
  - pose proof (parseSpokenNumberClosest_range "-5" 1 10 (Js.of_Z 7) Hle)
      as (_ & Hdigits & _).
    destruct (Hdigits (Js.chars "5") eq_refl) as (_ & _ & Hval).
    apply Hval. reflexivity.
  - pose proof (parseSpokenNumberClosest_range "- 5" 1 10 (Js.of_Z 7) Hle)
      as (_ & Hdigits & _).
    destruct (Hdigits (Js.chars "5") eq_refl) as (_ & _ & Hval).
    apply Hval. reflexivity.
Defined.

(** C10, as stated, fails: in "-5" the first digit sequence is "5", which
    clamped to [[1, 10]] is 5; the code matches "-5" and returns 1. *)
Lemma parseSpokenNumberClosest_minus_sign :
  first_digit_run (Js.chars (Js.toLowerCase "-5")) = Some (Js.chars "5")
  ∧ clamp (Js.digits_val 0 (Js.chars "5")) 1 10 = 5
  ∧ parseSpokenNumberClosest "-5" 1 10 (Js.of_Z 7) = 1
  ∧ parseSpokenNumberClosest "-5" 1 10 (Js.of_Z 7)
    ≠ clamp (Js.digits_val 0 (Js.chars "5")) 1 10.
Proof. repeat split; try (vm_compute; reflexivity). vm_compute. discriminate. Qed.

(** ** Freeform input that matches nothing *)

Lemma String_of_Z_truthy (n : Z) : Js.truthy (Js.String_of_Z n) = true.
Proof.
  unfold Js.String_of_Z. destruct (Z.to_int n) as [d|d]; destruct d; reflexivity.
Qed.

Lemma ensureDesignDefaults_answers (st : Store) (k : string) :
  k ≠ "design" → k ≠ "design_category" →
  answers (ensureDesignDefaults st) !! k = answers st !! k.
Proof.
  intros H1 H2. unfold ensureDesignDefaults.
  repeat match goal with
         | |- context [if ?b then _ else _] => destruct b
         end;
    rewrite ?setAnswer_other by discriminate; rewrite ?answers_put;
    by simplify_map_eq.
Qed.

Lemma refreshPreview_store (st : Store) :
  refreshPreview st
  = ensureRecipient1Defaults (ensureDesignDefaults (ensureRecipient1Defaults st))
  ∨ refreshPreview st
    = ensureRecipient1Defaults
        (ensureRecipient1Defaults (ensureDesignDefaults (ensureRecipient1Defaults st))).
Proof.
  unfold refreshPreview, computeTotals. cbv beta iota zeta.
  destruct (canShowPrice _); [right|left]; [|reflexivity].
  apply computePrice_total.
Qed.

(** [refreshPreview] keeps a quantity or an amount that is there. *)
Lemma refreshPreview_keeps (st : Store) (k v : string) :
  k = "r1_qty" ∨ k = "r1_amt" →
  answers st !! k = Some v → Js.truthy v = true →
  answers (refreshPreview st) !! k = Some v.
Proof.
  intros Hk Hv Ht.
  assert (Hstep : ∀ st', answers st' !! k = Some v →
                         answers (ensureRecipient1Defaults st') !! k = Some v).
  { intros st' Hst'. rewrite ensureRecipient1Defaults_answers.
    destruct Hk as [-> | ->]; simpl; rewrite Hst'; simpl; by rewrite Ht. }
  assert (Hdes : ∀ st', answers st' !! k = Some v →
                        answers (ensureDesignDefaults st') !! k = Some v).
  { intros st' Hst'. rewrite ensureDesignDefaults_answers; [done| |];
      destruct Hk as [-> | ->]; discriminate. }
  destruct (refreshPreview_store st) as [-> | ->]; auto.
Qed.

Lemma parseSpokenNumberClosest_miss (raw : string) (min max : Z) (fallback : Js.number) :
  match_signed_digits (Js.chars (Js.toLowerCase raw)) = None →
  find_number_word (Js.toLowerCase raw) = None →
  parseSpokenNumberClosest raw min max fallback = clampInt fallback min max.
Proof.
  intros Hd Hw. unfold parseSpokenNumberClosest.
  destruct (Js.truthy raw); simpl; [|reflexivity]. by rewrite Hd, Hw.
Qed.

Lemma is_none_true {A : Type} (o : option A) : is_none o = true → o = None.
Proof. by destruct o. Qed.

(** A quantity the program itself wrote reads back as the same number. *)
Lemma quantity_canonical (n : Z) :
  1 ≤ n ≤ 10 → clampInt (Js.Number (Js.String_of_Z n)) 1 10 = n.
Proof.
  intros Hn.
  assert (Hall : forallb (λ i : nat, clampInt (Js.Number (Js.String_of_Z (1 + Z.of_nat i))) 1 10
                                     =? 1 + Z.of_nat i) (seq 0 10) = true)
    by (vm_compute; reflexivity).
  rewrite forallb_forall in Hall.
  specialize (Hall (Z.to_nat (n - 1))).
  replace (1 + Z.of_nat (Z.to_nat (n - 1))) with n in Hall by lia.
  apply Z.eqb_eq, Hall, in_seq. lia.
Qed.

Lemma amount_canonical (n : Z) :
  5 ≤ n ≤ 2000 → clampInt (Js.Number (Js.String_of_Z n)) 5 2000 = n.
Proof.
  intros Hn.
  assert (Hall : forallb (λ i : nat, clampInt (Js.Number (Js.String_of_Z (5 + Z.of_nat i))) 5 2000
                                     =? 5 + Z.of_nat i) (seq 0 1996) = true)
    by (vm_compute; reflexivity).
  rewrite forallb_forall in Hall.
  specialize (Hall (Z.to_nat (n - 5))).
  replace (5 + Z.of_nat (Z.to_nat (n - 5))) with n in Hall by lia.
  apply Z.eqb_eq, Hall, in_seq. lia.
Qed.

Lemma setAnswer_lookup (key value : string) (st : Store) :
  key ≠ "card_type" → answers (setAnswer key value st) !! key = Some value.
Proof. intros Hne. rewrite setAnswer_other by done. by simplify_map_eq. Qed.

(** C3, as the code has it. A freeform input that matches no option of a
    choice or design step leaves the store as it was. On the quantity or
    amount step an input with no digit sequence and no number word is not
    dropped: the stored value (or the default 1 or 50 when it is empty or
    absent), clamped to the step's range, is written back, so the entry
    stays the same when it already was such a value and changes when it
    was not. A text step has no miss: whatever the input, its first 140
    characters after trimming are stored as the message. In no case is
    an alert raised or a status written, wherever the input comes from:
    a message or a transcript in order, a chat message, or a transcript
    of any recognizer. *)
Theorem applyFreeformToStep_miss (stepObj : Step) (raw : string) (st : Store) :
  (parse_miss stepObj raw = true →
   match kind stepObj with
   | choice | design | info => applyFreeformToStep stepObj raw st = st
   | number =>
       let n := clampInt (Number_or_falsy (answers st !! "r1_qty") 1) 1 10 in
       applyFreeformToStep stepObj raw st
       = refreshPreview (setAnswer "r1_qty" (Js.String_of_Z n) st)
       ∧ answers (applyFreeformToStep stepObj raw st) !! "r1_qty"
         = Some (Js.String_of_Z n)
       ∧ (∀ m, 1 ≤ m ≤ 10 → answers st !! "r1_qty" = Some (Js.String_of_Z m) → n = m)
   | amount =>
       let n := clampInt (Number_or_falsy (answers st !! "r1_amt") 50) 5 2000 in
       applyFreeformToStep stepObj raw st
       = refreshPreview (setAnswer "r1_amt" (Js.String_of_Z n) st)
       ∧ answers (applyFreeformToStep stepObj raw st) !! "r1_amt"
         = Some (Js.String_of_Z n)
       ∧ (∀ m, 5 ≤ m ≤ 2000 → answers st !! "r1_amt" = Some (Js.String_of_Z m) → n = m)
   | text => False
   end)
  ∧ (kind stepObj = text →
     parse_miss stepObj raw = false
     ∧ applyFreeformToStep stepObj raw st = setAnswer "r1_msg" (trim_slice140 raw) st
     ∧ answers (applyFreeformToStep stepObj raw st) !! "r1_msg"
       = Some (trim_slice140 raw))
  ∧ (∀ (CONDITION : Condition) (s : State),
       effects (onFreeform CONDITION raw s) = effects s)
  ∧ (∀ (CONDITION : Condition) (w : Page) (i : nat),
       effects (globals (react CONDITION (ChatSend raw) w)) = effects (globals w)
       ∧ effects (globals (react CONDITION (VoiceResult i raw) w)) = effects (globals w)).
Proof.
  split; [|split; [|split]].
  - intros Hmiss. unfold parse_miss in Hmiss. unfold applyFreeformToStep.
    destruct (kind stepObj).
    + apply is_none_true in Hmiss. by rewrite Hmiss.
    + apply is_none_true in Hmiss. by rewrite Hmiss.
    + apply andb_prop in Hmiss as [Hd Hw].
      apply is_none_true in Hd, Hw.
      rewrite (parseSpokenNumberClosest_miss _ _ _ _ Hd Hw).
      split; [reflexivity|]. split.
      * apply refreshPreview_keeps; [by left| |apply String_of_Z_truthy].
        by apply setAnswer_lookup.
      * intros m Hm Hst. rewrite Hst. simpl.
        rewrite String_of_Z_truthy. by apply quantity_canonical.
    + apply andb_prop in Hmiss as [Hd Hw].
      apply is_none_true in Hd, Hw.
      rewrite (parseSpokenNumberClosest_miss _ _ _ _ Hd Hw).
      split; [reflexivity|]. split.
      * apply refreshPreview_keeps; [by right| |apply String_of_Z_truthy].
        by apply setAnswer_lookup.
      * intros m Hm Hst. rewrite Hst. simpl.
        rewrite String_of_Z_truthy. by apply amount_canonical.
    + discriminate Hmiss.
    + reflexivity.
  - intros Hk. unfold parse_miss, applyFreeformToStep. rewrite Hk.
    split; [reflexivity|]. split; [reflexivity|]. by apply setAnswer_lookup.
  - intros CONDITION s. unfold onFreeform.
    destruct (rendered_step s); [|reflexivity].
    by destruct (_ && _).
  - intros CONDITION w i. cbn [react]. split.
    + unfold chat_send. destruct (pane _ _ _); [|reflexivity]. cbv zeta.
      by destruct (Js.truthy _).
    + unfold voice_result. destruct (recognizers w !! i); [|reflexivity]. cbv zeta.
      by destruct (Js.truthy _).
Qed.

Lemma applyFreeformToStep_miss_witness :
  answers (applyFreeformToStep qty_step "hello" typed_15) !! "r1_qty" = Some "10".
Proof.
  pose proof (proj1 (applyFreeformToStep_miss qty_step "hello" typed_15) eq_refl)
    as (_ & Hnew & _).
  exact Hnew.
Defined.

(** C3, as stated, fails on the quantity step: "hello" holds no digit and
    no number word, and applying it turns the stored "15" into "10". *)
Lemma applyFreeformToStep_miss_changes_store :
  parse_miss qty_step "hello" = true
  ∧ answers typed_15 !! "r1_qty" = Some "15"
  ∧ answers (applyFreeformToStep qty_step "hello" typed_15) !! "r1_qty" = Some "10"
  ∧ applyFreeformToStep qty_step "hello" typed_15 ≠ typed_15.
Proof.
  split; [vm_compute; reflexivity|]. split; [vm_compute; reflexivity|].
  split; [vm_compute; reflexivity|].
  intros Heq. apply (f_equal (λ st, answers st !! "r1_qty")) in Heq.
  vm_compute in Heq. discriminate.
Qed.

(** ** Transition log *)

Lemma renderStep_log (CONDITION : Condition) (now : Z) (s : State) :
  log (renderStep CONDITION now s) = log s.
Proof.
  unfold renderStep, log.
  destruct (computeFlow _ !! _); [destruct CONDITION|]; reflexivity.
Qed.

Lemma renderStep_entered (CONDITION : Condition) (now : Z) (s : State) :
  stepEnteredAt (renderStep CONDITION now s) = Some now
  ∨ stepEnteredAt (renderStep CONDITION now s) = stepEnteredAt s.
Proof.
  unfold renderStep.
  destruct (computeFlow _ !! _); [left; destruct CONDITION|right]; reflexivity.
Qed.

Lemma recordTransition_log act fromStep toStep flowLength now s :
  ∃ r, log (recordTransition act fromStep toStep flowLength now s) = (log s ++ [r])%list
       ∧ enteredAt r = stepEnteredAt s
       ∧ exitedAt r = now
       ∧ dwellMs r = match stepEnteredAt s with
                     | Some t => if t =? 0 then None else Some (now - t)
                     | None => None
                     end.
Proof. eexists. repeat split. Qed.

Lemma recordTransition_entered act fromStep toStep flowLength now s :
  stepEnteredAt (recordTransition act fromStep toStep flowLength now s) = stepEnteredAt s.
Proof. reflexivity. Qed.

(** What one event does to the log and to the entry time. *)
Lemma handle_log (CONDITION : Condition) (e : Event) (s : State) :
  (navigates e s = false
   ∧ log (handle CONDITION e s) = log s
   ∧ (stepEnteredAt (handle CONDITION e s) = stepEnteredAt s
      ∨ ∃ t0 t1, e = Start t0 t1 ∧ stepEnteredAt (handle CONDITION e s) = Some t1))
  ∨ (navigates e s = true
     ∧ ∃ t0 t1 r,
         readings e = [t0; t1]
         ∧ log (handle CONDITION e s) = (log s ++ [r])%list
         ∧ enteredAt r = stepEnteredAt s
         ∧ exitedAt r = t0
         ∧ dwellMs r = match stepEnteredAt s with
                       | Some t => if t =? 0 then None else Some (t0 - t)
                       | None => None
                       end
         ∧ (stepEnteredAt (handle CONDITION e s) = Some t1
            ∨ stepEnteredAt (handle CONDITION e s) = stepEnteredAt s)).
Proof.
  destruct e as [t0 t1|t0 t1|t0 t1|key value|m|raw|form now ok];
    cbn [handle navigates readings].
  - left. split; [reflexivity|]. unfold onStart. cbv zeta.
    rewrite renderStep_log. split; [reflexivity|].
    match goal with
    | |- context [renderStep CONDITION t1 ?s'] =>
        destruct (renderStep_entered CONDITION t1 s') as [H|H]
    end.
    + right. by exists t0, t1.
    + left. exact H.
  - unfold onNext, shown_step. cbv zeta.
    destruct (computeFlow _ !! currentStep s) as [stepObj|] eqn:Hshown.
    + destruct (isStepComplete _ stepObj) eqn:Hc; cbn [negb].
      * right. split; [reflexivity|].
        match goal with
        | |- context [recordTransition next ?f ?t ?n t0 s] =>
            destruct (recordTransition_log next f t n t0 s)
              as (r & Hlog & Hen & Hex & Hdw)
        end.
        exists t0, t1, r. split; [reflexivity|].
        rewrite renderStep_log. split; [exact Hlog|].
        split; [exact Hen|]. split; [exact Hex|]. split; [exact Hdw|].
        match goal with
        | |- context [renderStep CONDITION t1 ?s'] =>
            destruct (renderStep_entered CONDITION t1 s') as [H|H]
        end; [by left | right; exact H].
      * left. repeat split. by left.
    + left. repeat split. by left.
  - unfold onBack. cbv zeta.
    destruct (currentStep s) as [|prevIndex] eqn:Hcur; cbn [Nat.eqb negb].
    + left. repeat split. by left.
    + right. split; [reflexivity|].
      match goal with
      | |- context [recordTransition back ?f ?t ?n t0 s] =>
          destruct (recordTransition_log back f t n t0 s)
            as (r & Hlog & Hen & Hex & Hdw)
      end.
      exists t0, t1, r. split; [reflexivity|].
      rewrite renderStep_log. split; [exact Hlog|].
      split; [exact Hen|]. split; [exact Hex|]. split; [exact Hdw|].
      match goal with
      | |- context [renderStep CONDITION t1 ?s'] =>
          destruct (renderStep_entered CONDITION t1 s') as [H|H]
      end; [by left | right; exact H].
  - left. split; [reflexivity|]. unfold onManual.
    destruct (rendered_step s); [|by repeat split; left].
    destruct (negb _); [by repeat split; left|].
    destruct (negb _); by repeat split; left.
  - left. split; [reflexivity|]. unfold onSwitchMethod.
    destruct CONDITION; try by (repeat split; left).
    destruct (rendered_step s); by repeat split; left.
  - left. split; [reflexivity|]. unfold onFreeform.
    destruct (rendered_step s); [|by repeat split; left].
    destruct (_ && _); by repeat split; left.
  - left. split; [reflexivity|].
    destruct (submitDisabled s); [by repeat split; left|].
    unfold onSubmitSurvey. cbv zeta. destruct (negb _); [by repeat split; left|].
    unfold writeFinal. destruct ok; by repeat split; left.
Qed.

Lemma last_cons_default (ts : list Z) (d t : Z) :
  List.last (t :: ts) d = List.last ts t.
Proof.
  revert d t. induction ts as [|u ts IH]; intros d t; [reflexivity|].
  change (List.last (t :: u :: ts) d) with (List.last (u :: ts) d).
  by rewrite !IH.
Qed.

Lemma rising_app (lo : Z) (ts rest : list Z) :
  rising lo (ts ++ rest) →
  rising lo ts ∧ lo ≤ List.last ts lo ∧ rising (List.last ts lo) rest.
Proof.
  revert lo. induction ts as [|t ts IH]; intros lo Hr.
  - simpl in *. repeat split; [lia | exact Hr].
  - cbn [app rising] in Hr. destruct Hr as [Hlo Hr].
    destruct (IH t Hr) as (H1 & H2 & H3).
    rewrite last_cons_default. cbn [rising]. repeat split; [exact Hlo | exact H1 | lia | exact H3].
Qed.

Lemma first_step (a : Answers) :
  computeFlow a !! 0%nat
  = Some (step "card_type" "Select Card Type" true choice ["Physical"; "Digital"]).
Proof. reflexivity. Qed.

(** Before the first step has been rendered only [Start] gets anywhere:
    there is no control to answer with, the first step is incomplete and
    there is nothing to go back to. *)
Lemma handle_unrendered (CONDITION : Condition) (e : Event) (s : State) :
  unrendered s →
  log (handle CONDITION e s) = log s
  ∧ (unrendered (handle CONDITION e s) ∨ ∃ t0 t1, e = Start t0 t1).
Proof.
  intros (Hen & Hct & Hcur).
  destruct e as [t0 t1|t0 t1|t0 t1|key value|m|raw|form now ok]; cbn [handle].
  - split; [|right; by exists t0, t1].
    unfold onStart. cbv zeta. by rewrite renderStep_log.
  - unfold onNext. rewrite Hcur, first_step. cbv zeta.
    assert (Hinc : isStepComplete (answers (store s))
                     (step "card_type" "Select Card Type" true choice
                        ["Physical"; "Digital"]) = false).
    { unfold isStepComplete. simpl. by rewrite Hct. }
    rewrite Hinc. cbn [negb]. split; [reflexivity|]. left. by repeat split.
  - unfold onBack. rewrite Hcur. split; [reflexivity|]. left. by repeat split.
  - unfold onManual, rendered_step. rewrite Hen.
    split; [reflexivity|]. left. by repeat split.
  - unfold onSwitchMethod, rendered_step. rewrite Hen.
    destruct CONDITION; (split; [reflexivity|]); left; by repeat split.
  - unfold onFreeform, rendered_step. rewrite Hen.
    split; [reflexivity|]. left. by repeat split.
  - destruct (submitDisabled s); [split; [reflexivity|]; left; by repeat split|].
    unfold onSubmitSurvey. cbv zeta. destruct (negb _).
    + split; [reflexivity|]. left. by repeat split.
    + unfold writeFinal. destruct ok; (split; [reflexivity|]); left; by repeat split.
Qed.

Lemma onStart_entered (CONDITION : Condition) (t0 t1 : Z) (s : State) :
  stepEnteredAt (onStart CONDITION t0 t1 s) = Some t1.
Proof.
  unfold onStart, renderStep. cbv zeta.
  cbn [currentStep set_currentStep]. rewrite first_step.
  destruct CONDITION; reflexivity.
Qed.

Lemma recorded_dwell_ok (r : Transition) : recorded r → dwell_ok r.
Proof. intros (t & _ & Hd & Hnn). unfold dwell_ok. by rewrite Hd. Qed.

Lemma handle_inv (CONDITION : Condition) (e : Event) (s : State)
    (lo : Z) (rest : list Z) :
  run_inv lo s → rising lo (readings e ++ rest) →
  ∃ lo', run_inv lo' (handle CONDITION e s) ∧ rising lo' rest.
Proof.
  intros (Hlo & Hen & Hun & Hlog) Hr.
  apply rising_app in Hr as (Hre & Hmono & Hrest).
  exists (List.last (readings e) lo). split; [|exact Hrest].
  destruct (handle_log CONDITION e s)
    as [(_ & Hsame & Hent)
       | (_ & t0 & t1 & r & Hts & Hnew & Hr_en & Hr_ex & Hr_dw & Hent)].
  - split; [lia|]. rewrite Hsame. split; [|split; [|exact Hlog]].
    + intros t Ht. destruct Hent as [Hent | (t0 & t1 & -> & Hent)].
      * rewrite Hent in Ht. specialize (Hen t Ht). lia.
      * rewrite Hent in Ht. injection Ht as <-.
        cbn [readings rising List.last] in *. lia.
    + intros Hnone.
      assert (Hs : stepEnteredAt s = None).
      { destruct Hent as [Hent | (t0 & t1 & -> & Hent)]; congruence. }
      destruct (handle_unrendered CONDITION e s (Hun Hs)) as [_ [Hu | (t0 & t1 & ->)]].
      * exact Hu.
      * cbn [handle] in Hnone. rewrite onStart_entered in Hnone. discriminate.
  - destruct (stepEnteredAt s) as [t|] eqn:Hs.
    + specialize (Hen t eq_refl).
      rewrite Hts in *. cbn [rising List.last] in *.
      split; [lia|]. split; [|split].
      * intros u Hu. destruct Hent as [Hent | Hent]; rewrite Hent in Hu.
        -- injection Hu as <-. lia.
        -- injection Hu as <-. lia.
      * intros Hnone. destruct Hent as [Hent | Hent]; congruence.
      * rewrite Hnew. apply Forall_app. split; [exact Hlog|].
        apply Forall_cons. split; [|apply Forall_nil; exact I].
        exists t. rewrite Hr_en, Hr_ex, Hr_dw.
        destruct (t =? 0) eqn:Hz; [apply Z.eqb_eq in Hz; lia|].
        repeat split. lia.
    + destruct (handle_unrendered CONDITION e s (Hun eq_refl)) as [Hsame _].
      rewrite Hsame in Hnew. apply (f_equal length) in Hnew.
      rewrite length_app in Hnew. simpl in Hnew. lia.
Qed.

Lemma run_recorded (CONDITION : Condition) (es : list Event) (s : State) (lo : Z) :
  run_inv lo s → rising lo (flat_map readings es) →
  Forall recorded (log (run CONDITION es s)).
Proof.
  revert s lo. induction es as [|e es IH]; intros s lo Hinv Hr.
  - apply Hinv.
  - cbn [flat_map] in Hr.
    destruct (handle_inv CONDITION e s lo _ Hinv Hr) as (lo' & Hinv' & Hr').
    exact (IH _ lo' Hinv' Hr').
Qed.

Lemma handle_appends (CONDITION : Condition) (e : Event) (s : State) :
  ∃ new, log (handle CONDITION e s) = (log s ++ new)%list
         ∧ length new = if navigates e s then 1%nat else 0%nat.
Proof.
  destruct (handle_log CONDITION e s)
    as [(-> & Hsame & _) | (-> & _ & _ & r & _ & Hnew & _)].
  - exists []. by rewrite app_nil_r.
  - by exists [r].
Qed.

Lemma run_appends (CONDITION : Condition) (es : list Event) (s : State) :
  ∃ new, log (run CONDITION es s) = (log s ++ new)%list.
Proof.
  revert s. induction es as [|e es IH]; intros s.
  - exists []. by rewrite app_nil_r.
  - destruct (handle_appends CONDITION e s) as (new1 & H1 & _).
    destruct (IH (handle CONDITION e s)) as (new2 & H2).
    exists (new1 ++ new2)%list.
    change (run CONDITION (e :: es) s) with (run CONDITION es (handle CONDITION e s)).
    by rewrite H2, H1, app_assoc.
Qed.

(** [dwellMs] is [null] exactly when the entry time on record is [null]
    or 0; a positive clock never yields the latter. *)
Lemma recordTransition_dwell_null act fromStep toStep flowLength now s :
  ∃ r, log (recordTransition act fromStep toStep flowLength now s) = (log s ++ [r])%list
       ∧ enteredAt r = stepEnteredAt s
       ∧ (dwellMs r = None ↔ stepEnteredAt s = None ∨ stepEnteredAt s = Some 0).
Proof.
  destruct (recordTransition_log act fromStep toStep flowLength now s)
    as (r & Hlog & Hen & _ & Hdw).
  exists r. split; [exact Hlog|]. split; [exact Hen|]. rewrite Hdw.
  destruct (stepEnteredAt s) as [t|]; [|by split; [left|]].
  destruct (Z.eqb_spec t 0) as [->|Hne].
  - by split; [right|].
  - split; [discriminate|]. intros [H|H]; [discriminate|]. injection H as ->. done.
Qed.

(** C8. The transition log only grows at its end: an event appends
    exactly one entry when it is a forward navigation from a complete
    step or a backward navigation from a step after the first, and none
    otherwise (so none when the forward navigation is blocked); whatever
    was logged stays as a prefix of the log, over any run. In a run from
    the initial state, with a clock that is positive and never goes back,
    every logged entry carries its entry time and a [dwellMs] that is the
    exit time minus the entry time and is not negative; so [dwellMs] is
    [null] only on an entry whose [enteredAt] is [null], and there is no
    such entry. *)
Theorem transition_log_append_only (CONDITION : Condition) :
  (∀ (e : Event) (s : State),
     ∃ new, log (handle CONDITION e s) = (log s ++ new)%list
            ∧ length new = if navigates e s then 1%nat else 0%nat)
  ∧ (∀ (es : list Event) (s : State),
       ∃ new, log (run CONDITION es s) = (log s ++ new)%list)
  ∧ (∀ es : list Event,
       clock_ok es →
       Forall recorded (log (run CONDITION es initial_state))
       ∧ Forall dwell_ok (log (run CONDITION es initial_state))).
Proof.
  split; [apply handle_appends|]. split; [apply run_appends|].
  intros es Hclock.
  assert (Hrec : Forall recorded (log (run CONDITION es initial_state))).
  { apply (run_recorded CONDITION es initial_state 1); [|exact Hclock].
    split; [lia|]. split; [discriminate|]. split; [|apply Forall_nil; exact I].
    intros _. by repeat split. }
  split; [exact Hrec|].
  eapply Forall_impl; [exact Hrec|]. apply recorded_dwell_ok.
Qed.

Lemma transition_log_append_only_witness :
  clock_ok sample_run
  ∧ Forall dwell_ok (log (run A sample_run initial_state))
  ∧ map dwellMs (log (run A sample_run initial_state)) = [Some 1499; Some 1499].
Proof.
  assert (Hclock : clock_ok sample_run).
  { unfold clock_ok, sample_run. simpl. lia. }
  split; [exact Hclock|]. split.
  - apply (transition_log_append_only A). exact Hclock.
  - vm_compute. reflexivity.
Defined.

(** C8, as stated, fails for a clock that steps back: the first step is
    entered at 1001 and left at 500, and the entry logged carries a
    [dwellMs] of -501. *)
Lemma transition_log_negative_dwell :
  ¬ clock_ok clock_back_run
  ∧ map dwellMs (log (run A clock_back_run initial_state)) = [Some (-501)]
  ∧ ¬ Forall dwell_ok (log (run A clock_back_run initial_state)).
Proof.
  split; [|split].
  - unfold clock_ok, clock_back_run. cbn. lia.
  - vm_compute. reflexivity.
  - intros H.
    assert (Hd : map dwellMs (log (run A clock_back_run initial_state)) = [Some (-501)])
      by (vm_compute; reflexivity).
    destruct (log (run A clock_back_run initial_state)) as [|r [|r' l]]; try discriminate.
    apply Forall_cons in H as [Hr _]. unfold dwell_ok in Hr.
    injection Hd as Hd. rewrite Hd in Hr. lia.
Qed.

(** ** Option matching and writes that fill in defaults *)

Lemma find_truthy_elem (p : string → bool) (options : list string) (o : string) :
  find_truthy p options = Some o → o ∈ options ∧ p o = true ∧ Js.truthy o = true.
Proof.
  unfold find_truthy. destruct (List.find p options) as [x|] eqn:Hf; [|discriminate].
  destruct (Js.truthy x) eqn:Ht; [|discriminate]. intros [= <-].
  apply find_some in Hf as [Hin Hp]. by rewrite list_elem_of_In.
Qed.

Lemma best_by_score_elem (clean : string) (inToks : list string) (options : list string)
    (best : option string) (bestScore : Q) :
  let '(b, sc) := best_by_score clean inToks options best bestScore in
  b = best ∨ ∃ o, b = Some o ∧ o ∈ options.
Proof.
  revert best bestScore. induction options as [|o r IH]; intros best bestScore.
  - by left.
  - cbn [best_by_score]. cbv zeta.
    destruct (Qlt_le_dec bestScore (option_score clean inToks o)).
    + specialize (IH (Some o) (option_score clean inToks o)).
      destruct (best_by_score clean inToks r (Some o) _) as [b sc].
      right. destruct IH as [-> | (o' & -> & Hin)].
      * exists o. split; [done|]. apply elem_of_cons. by left.
      * exists o'. split; [done|]. apply elem_of_cons. by right.
    + specialize (IH best bestScore).
      destruct (best_by_score clean inToks r best bestScore) as [b sc].
      destruct IH as [-> | (o' & -> & Hin)]; [by left|].
      right. exists o'. split; [done|]. apply elem_of_cons. by right.
Qed.

Lemma bestOptionMatch_elem (input : string) (options : list string) (o : string) :
  bestOptionMatch input options = Some o → o ∈ options.
Proof.
  unfold bestOptionMatch.
  destruct (negb (Js.truthy input) || Js.is_null options); [discriminate|].
  destruct (find_truthy _ options) as [d|] eqn:H1.
  { intros [= <-]. by apply find_truthy_elem in H1 as [? _]. }
  assert (Hscore :
    (let '(best, bestScore) :=
       best_by_score (normalizeText input) (tokens (normalizeText input)) options None (-1)%Q in
     if Qle_bool 1 bestScore then best else None) = Some o → o ∈ options).
  { pose proof (best_by_score_elem (normalizeText input) (tokens (normalizeText input))
                  options None (-1)%Q) as Hb.
    destruct (best_by_score _ _ options None _) as [b sc].
    destruct (Qle_bool 1 sc); [|discriminate].
    intros ->. destruct Hb as [Hb | (o' & [= <-] & Hin)]; [discriminate|done]. }
  clear H1.
  destruct (find_truthy _ options) as [d|] eqn:H2.
  { cbv beta iota zeta. apply find_truthy_elem in H2 as (Hin & _ & Ht). rewrite Ht.
    by intros [= <-]. }
  destruct (List.find _ options) as [d|] eqn:H3; [|exact Hscore].
  cbv beta iota zeta. destruct (Js.truthy d); [|exact Hscore].
  intros [= <-]. apply find_some in H3 as [Hin _]. by rewrite list_elem_of_In.
Qed.

Ltac elem_of_solve :=
  solve [repeat first [apply list_elem_of_here | apply list_elem_of_further]].

Lemma fills_trans (a b c : Store) : fills a b → fills b c → fills a c.
Proof.
  induction 1 as [|st st' k v Hk _ IH]; [done|].
  intros Hc. eapply fills_step; [exact Hk|]. by apply IH.
Qed.

Lemma fills_one (k v : string) (st : Store) :
  k ∈ default_keys → fills st (setAnswer k v st).
Proof. intros Hk. eapply fills_step; [exact Hk|]. apply fills_refl. Qed.

Lemma ensureRecipient1Defaults_fills (st : Store) : fills st (ensureRecipient1Defaults st).
Proof.
  unfold ensureRecipient1Defaults. cbv zeta.
  eapply fills_trans; [|eapply fills_trans].
  - instantiate (1 := if Js.present (answers st !! "r1_qty") then st
                      else setAnswer "r1_qty" "1" st).
    destruct (Js.present _); [apply fills_refl|]. apply fills_one. elem_of_solve.
  - match goal with
    | |- fills ?a ?b =>
        instantiate (1 := if Js.present (answers a !! "r1_amt") then a
                          else setAnswer "r1_amt" "50" a)
    end.
    destruct (Js.present (answers _ !! "r1_amt")); [apply fills_refl|].
    apply fills_one. elem_of_solve.
  - match goal with |- fills ?a _ => destruct (answers a !! "r1_msg") end;
      [apply fills_refl|]. apply fills_one. elem_of_solve.
Qed.

Lemma ensureDesignDefaults_fills (st : Store) : fills st (ensureDesignDefaults st).
Proof.
  unfold ensureDesignDefaults. cbv zeta.
  eapply fills_trans.
  - instantiate (1 := if Js.present (answers st !! "design_category") then st
                      else setAnswer "design_category" "All" st).
    destruct (Js.present _); [apply fills_refl|]. apply fills_one. elem_of_solve.
  - match goal with |- fills ?a _ => destruct (Js.present (answers a !! "design")) end;
      [apply fills_refl|]. apply fills_one. elem_of_solve.
Qed.

Lemma refreshPreview_fills (st : Store) : fills st (refreshPreview st).
Proof.
  assert (H3 : fills st (ensureRecipient1Defaults
                           (ensureDesignDefaults (ensureRecipient1Defaults st)))).
  { eapply fills_trans; [apply ensureRecipient1Defaults_fills|].
    eapply fills_trans; [apply ensureDesignDefaults_fills|].
    apply ensureRecipient1Defaults_fills. }
  destruct (refreshPreview_store st) as [-> | ->]; [exact H3|].
  eapply fills_trans; [exact H3|]. apply ensureRecipient1Defaults_fills.
Qed.

(** ** What the handlers write *)

Lemma default_key_not_card_type (k : string) : k ∈ default_keys → k ≠ "card_type".
Proof.
  unfold default_keys. rewrite !elem_of_cons, elem_of_nil.
  intros [->|[->|[->|[->|[->|[]]]]]]; discriminate.
Qed.

(** Default writes leave every other key alone, in both maps. *)
Lemma fills_lookup (st st' : Store) (k : string) :
  fills st st' → k ∉ default_keys →
  answers st' !! k = answers st !! k
  ∧ session_answers st' !! k = session_answers st !! k.
Proof.
  induction 1 as [|st st' k0 v Hk0 _ IH]; [done|].
  intros Hk. destruct (IH Hk) as [-> ->].
  rewrite (setAnswer_other k0 v st) by (by apply default_key_not_card_type).
  rewrite answers_put, session_answers_put.
  assert (k0 ≠ k) by (intros ->; done).
  by rewrite !lookup_insert_ne.
Qed.

Ltac state_simpl :=
  cbn [store session currentStep stepEnteredAt currentInputMethod submitDisabled effects
       set_store set_session set_currentStep set_stepEnteredAt set_currentInputMethod
       set_submitDisabled emit recordTransition].

Tactic Notation "state_simpl" "in" hyp(H) :=
  cbn [store session currentStep stepEnteredAt currentInputMethod submitDisabled effects
       set_store set_session set_currentStep set_stepEnteredAt set_currentInputMethod
       set_submitDisabled emit recordTransition] in H.

Lemma renderStep_fills (CONDITION : Condition) (now : Z) (s : State) :
  fills (store s) (store (renderStep CONDITION now s)).
Proof.
  unfold renderStep. cbv zeta.
  destruct (computeFlow _ !! _); [|apply fills_refl].
  destruct CONDITION; state_simpl;
    (eapply fills_trans; [apply ensureRecipient1Defaults_fills|]);
    (eapply fills_trans; [apply ensureDesignDefaults_fills|]);
    apply refreshPreview_fills.
Qed.

Lemma renderStep_currentStep (CONDITION : Condition) (now : Z) (s : State) :
  currentStep (renderStep CONDITION now s) = currentStep s.
Proof.
  unfold renderStep. cbv zeta.
  destruct (computeFlow _ !! _); [|reflexivity]. destruct CONDITION; reflexivity.
Qed.

(** What one freeform input writes. *)
Lemma applyFreeformToStep_writes (stepObj : Step) (raw : string) (st : Store) :
  fills st (applyFreeformToStep stepObj raw st)
  ∨ ∃ v, kind stepObj = choice ∧ v ∈ options stepObj
         ∧ fills (setAnswer (step_id stepObj) v st) (applyFreeformToStep stepObj raw st).
Proof.
  unfold applyFreeformToStep. cbv zeta.
  destruct (kind stepObj) eqn:Hk.
  - destruct (bestOptionMatch _ (options stepObj)) as [best|] eqn:Hb;
      [|left; apply fills_refl].
    destruct (Js.truthy best); [|left; apply fills_refl].
    right. exists best. split; [reflexivity|]. split; [by eapply bestOptionMatch_elem|].
    apply refreshPreview_fills.
  - left. destruct (bestOptionMatch _ _) as [bestLabel|]; [|apply fills_refl].
    destruct (Js.truthy bestLabel); [|apply fills_refl].
    destruct (List.find _ CARD_DESIGNS) as [d|].
    + eapply fills_trans; [apply (fills_one "design"); elem_of_solve|].
      apply refreshPreview_fills.
    + apply refreshPreview_fills.
  - left. eapply fills_trans; [apply (fills_one "r1_qty"); elem_of_solve|].
    apply refreshPreview_fills.
  - left. eapply fills_trans; [apply (fills_one "r1_amt"); elem_of_solve|].
    apply refreshPreview_fills.
  - left. apply (fills_one "r1_msg"). elem_of_solve.
  - left. apply fills_refl.
Qed.

Lemma rendered_step_shown (s : State) (stepObj : Step) :
  rendered_step s = Some stepObj → shown_step s = Some stepObj.
Proof. unfold rendered_step. by destruct (stepEnteredAt s). Qed.

Lemma existsb_eqb_elem (v : string) (l : list string) :
  existsb (String.eqb v) l = true → v ∈ l.
Proof.
  intros H. apply existsb_exists in H as (x & Hin & Heq).
  apply String.eqb_eq in Heq as ->. by apply list_elem_of_In.
Qed.

(** What a click or an input event on a control of the step writes. *)
Lemma has_control_writes (a : Answers) (stepObj : Step) (key value : string) :
  has_control a stepObj key value = true →
  key ∈ default_keys
  ∨ (kind stepObj = choice ∧ key = step_id stepObj ∧ value ∈ options stepObj).
Proof.
  unfold has_control. destruct (kind stepObj).
  - intros H. apply andb_prop in H as [Hk Hv]. right.
    apply String.eqb_eq in Hk. split; [done|]. split; [done|].
    by apply existsb_eqb_elem.
  - intros H. left. apply orb_prop in H as [H|H]; apply andb_prop in H as [Hk _];
      apply String.eqb_eq in Hk as ->; elem_of_solve.
  - intros H. left. apply String.eqb_eq in H as ->. elem_of_solve.
  - intros H. left. apply String.eqb_eq in H as ->. elem_of_solve.
  - intros H. left. apply String.eqb_eq in H as ->. elem_of_solve.
  - discriminate.
Qed.

(** Every write to the store: an event either only fills in defaults,
    or first stores, under the identifier of the choice step on screen,
    one of that step's options, and then fills in defaults; the second
    kind leaves the step index as it is. *)
Lemma handle_writes (CONDITION : Condition) (e : Event) (s : State) :
  fills (store s) (store (handle CONDITION e s))
  ∨ ∃ stepObj v,
      shown_step s = Some stepObj ∧ kind stepObj = choice ∧ v ∈ options stepObj
      ∧ fills (setAnswer (step_id stepObj) v (store s)) (store (handle CONDITION e s))
      ∧ currentStep (handle CONDITION e s) = currentStep s.
Proof.
  destruct e as [t0 t1|t0 t1|t0 t1|key value|m|raw|form now ok]; cbn [handle].
  - left. unfold onStart. cbv zeta.
    eapply fills_trans; [|apply renderStep_fills]. state_simpl.
    eapply fills_step; [|eapply fills_step; [|eapply fills_step; [|eapply fills_step;
      [|eapply fills_step; [|apply fills_refl]]]]]; elem_of_solve.
  - left. unfold onNext. cbv zeta.
    destruct (computeFlow _ !! _); [|apply fills_refl].
    destruct (negb _); [apply fills_refl|].
    eapply fills_trans; [|apply renderStep_fills]. state_simpl. apply fills_refl.
  - left. unfold onBack. destruct (currentStep s); [apply fills_refl|]. cbv zeta.
    eapply fills_trans; [|apply renderStep_fills]. state_simpl. apply fills_refl.
  - unfold onManual.
    destruct (rendered_step s) as [stepObj|] eqn:Hr; [|left; apply fills_refl].
    destruct (has_control _ stepObj key value) eqn:Hc; cbn [negb]; [|left; apply fills_refl].
    destruct (negb _); [left; apply fills_refl|]. state_simpl.
    assert (Hf : fills (setAnswer key value (store s))
                   (if String.eqb key "r1_msg" then setAnswer key value (store s)
                    else refreshPreview (setAnswer key value (store s)))).
    { destruct (String.eqb key "r1_msg"); [apply fills_refl|apply refreshPreview_fills]. }
    apply has_control_writes in Hc as [Hk | (Hkind & -> & Hv)].
    + left. eapply fills_step; [exact Hk|exact Hf].
    + right. exists stepObj, value. split; [by apply rendered_step_shown|].
      repeat split; [done|done|exact Hf].
  - left. unfold onSwitchMethod.
    destruct CONDITION; try apply fills_refl.
    destruct (rendered_step s); [|apply fills_refl]. state_simpl.
    apply refreshPreview_fills.
  - unfold onFreeform.
    destruct (rendered_step s) as [stepObj|] eqn:Hr; [|left; apply fills_refl]. cbv zeta.
    destruct (_ && _); [|left; apply fills_refl]. state_simpl.
    destruct (applyFreeformToStep_writes stepObj (Js.trim raw) (store s))
      as [Hf | (v & Hkind & Hv & Hf)]; [by left|].
    right. exists stepObj, v. split; [by apply rendered_step_shown|].
    repeat split; [done|done|exact Hf].
  - left. destruct (submitDisabled s); [apply fills_refl|].
    unfold onSubmitSurvey. cbv zeta. destruct (negb _); [apply fills_refl|].
    unfold writeFinal. destruct ok; apply fills_refl.
Qed.

(** ** Invariants of the store *)

Lemma setAnswer_in_sync (k v : string) (st : Store) :
  in_sync st → in_sync (setAnswer k v st).
Proof.
  unfold in_sync. destruct st as [a sa]. cbn [answers session_answers]. intros ->.
  unfold setAnswer, put, del. cbn [answers session_answers].
  repeat case_decide; reflexivity.
Qed.

Lemma fills_in_sync (st st' : Store) : fills st st' → in_sync st → in_sync st'.
Proof.
  induction 1 as [|st st' k v _ _ IH]; [done|].
  intros Hs. apply IH. by apply setAnswer_in_sync.
Qed.

Lemma handle_in_sync (CONDITION : Condition) (e : Event) (s : State) :
  in_sync (store s) → in_sync (store (handle CONDITION e s)).
Proof.
  intros Hs.
  destruct (handle_writes CONDITION e s) as [Hf | (stepObj & v & _ & _ & _ & Hf & _)].
  - by apply (fills_in_sync _ _ Hf).
  - apply (fills_in_sync _ _ Hf). by apply setAnswer_in_sync.
Qed.

Lemma run_cons (CONDITION : Condition) (e : Event) (es : list Event) (s : State) :
  run CONDITION (e :: es) s = run CONDITION es (handle CONDITION e s).
Proof. reflexivity. Qed.

(** An invariant of the handlers holds after every run. *)
Lemma run_invariant (CONDITION : Condition) (I : State → Prop) :
  (∀ e s, I s → I (handle CONDITION e s)) →
  ∀ es s, I s → I (run CONDITION es s).
Proof.
  intros Hstep es. induction es as [|e es IH]; intros s Hs; [exact Hs|].
  rewrite run_cons. apply IH. by apply Hstep.
Qed.

(** The choice steps of a flow and what they offer. *)
Lemma flow_choice_steps (a : Answers) (stepObj : Step) :
  stepObj ∈ computeFlow a → kind stepObj = choice →
  (step_id stepObj = "card_type" ∧ options stepObj = ["Physical"; "Digital"])
  ∨ step_id stepObj ∈ ["variant"; "expiry"; "activation"; "payment"]
  ∨ (a !! "card_type" = Some "Digital" ∧ step_id stepObj = "digital_delivery")
  ∨ (a !! "card_type" ≠ Some "Digital"
     ∧ step_id stepObj ∈ ["packaging"; "shipping_method"]).
Proof.
  unfold computeFlow, getConditionalSteps, baseSteps, paymentStep.
  case_decide as Hd; cbn [app]; intros Hin Hk;
    rewrite !elem_of_cons, elem_of_nil in Hin;
    repeat (destruct Hin as [-> | Hin]); try done; cbn in Hk; try discriminate;
    cbn [step_id options];
    first [ left; split; reflexivity
          | right; left; elem_of_solve
          | right; right; left; split; [exact Hd | reflexivity]
          | right; right; right; split; [exact Hd | elem_of_solve] ].
Qed.

Lemma fills_branch_clean (st st' : Store) :
  fills st st' → branch_clean (answers st) → branch_clean (answers st').
Proof.
  intros Hf.
  assert (Hsame : ∀ k, k ∈ ["card_type"; "packaging"; "shipping_method";
                            "digital_delivery"; "shipping_address"; "digital_identifier"] →
                       answers st' !! k = answers st !! k).
  { intros k Hk. apply (fills_lookup _ _ k Hf).
    unfold default_keys. rewrite !elem_of_cons, elem_of_nil in Hk.
    rewrite !not_elem_of_cons.
    destruct Hk as [->|[->|[->|[->|[->|[->|[]]]]]]];
      repeat split; try discriminate; apply not_elem_of_nil. }
  unfold branch_clean.
  rewrite !Hsame by elem_of_solve. done.
Qed.

Lemma choice_write_branch_clean (stepObj : Step) (v : string) (st : Store) :
  branch_clean (answers st) →
  stepObj ∈ computeFlow (answers st) → kind stepObj = choice → v ∈ options stepObj →
  branch_clean (answers (setAnswer (step_id stepObj) v st)).
Proof.
  intros (Hct & Hdig & Hphys & Hsa & Hdi) Hin Hk Hv.
  rewrite setAnswer_answers. unfold branch_clean.
  destruct (flow_choice_steps _ _ Hin Hk)
    as [[Hid Hopts] | [Hid | [[Hd Hid] | [Hd Hid]]]].
  - rewrite Hid. rewrite Hopts in Hv. rewrite !elem_of_cons, elem_of_nil in Hv.
    destruct Hv as [-> | [-> | []]]; simplify_map_eq; intuition congruence.
  - rewrite !elem_of_cons, elem_of_nil in Hid.
    destruct Hid as [Hid|[Hid|[Hid|[Hid|[]]]]]; rewrite Hid;
      simplify_map_eq; intuition congruence.
  - rewrite Hid. simplify_map_eq. intuition congruence.
  - rewrite !elem_of_cons, elem_of_nil in Hid.
    destruct Hid as [Hid|[Hid|[]]]; rewrite Hid; simplify_map_eq; intuition congruence.
Qed.

Lemma shown_step_elem (s : State) (stepObj : Step) :
  shown_step s = Some stepObj → stepObj ∈ computeFlow (answers (store s)).
Proof. unfold shown_step. intros H. by eapply list_elem_of_lookup_2. Qed.

Lemma handle_branch_clean (CONDITION : Condition) (e : Event) (s : State) :
  branch_clean (answers (store s)) →
  branch_clean (answers (store (handle CONDITION e s))).
Proof.
  intros Hs.
  destruct (handle_writes CONDITION e s) as [Hf | (stepObj & v & Hsh & Hk & Hv & Hf & _)].
  - by apply (fills_branch_clean _ _ Hf).
  - apply (fills_branch_clean _ _ Hf).
    apply choice_write_branch_clean; [done| |done|done]. by apply shown_step_elem.
Qed.

(** ** Step index and log entries *)

Lemma computeFlow_card_type (a a' : Answers) :
  a !! "card_type" = a' !! "card_type" → computeFlow a = computeFlow a'.
Proof. unfold computeFlow, getConditionalSteps. by intros ->. Qed.

Lemma fills_flow (st st' : Store) :
  fills st st' → computeFlow (answers st') = computeFlow (answers st).
Proof.
  intros Hf. apply computeFlow_card_type.
  apply (fills_lookup _ _ "card_type" Hf).
  unfold default_keys. rewrite !not_elem_of_cons.
  repeat split; try discriminate. apply not_elem_of_nil.
Qed.

Lemma flow_length (a : Answers) :
  length (computeFlow a) = 11%nat ∨ length (computeFlow a) = 12%nat.
Proof. rewrite (proj2 (computeFlow_ids a)). case_decide; [by left|by right]. Qed.

(** Only the first step is the card-type step. *)
Lemma flow_card_type_first (a : Answers) (i : nat) (stepObj : Step) :
  computeFlow a !! i = Some stepObj → step_id stepObj = "card_type" → i = 0%nat.
Proof.
  intros Hi Hid.
  assert (Hids : map step_id (computeFlow a) !! i = Some "card_type").
  { change (map step_id (computeFlow a)) with (step_id <$> computeFlow a).
    by rewrite list_lookup_fmap, Hi, <- Hid. }
  rewrite (proj1 (computeFlow_ids a)) in Hids.
  unfold prefix_ids, digital_ids, physical_ids in Hids.
  case_decide; cbn [app] in Hids;
    do 13 (destruct i as [|i]; [first [reflexivity | discriminate Hids]|]);
    discriminate Hids.
Qed.

(** Storing an option of the choice step on screen changes the flow
    only at the first step. *)
Lemma choice_write_flow (s : State) (stepObj : Step) (v : string) :
  shown_step s = Some stepObj →
  computeFlow (answers (setAnswer (step_id stepObj) v (store s)))
  = computeFlow (answers (store s))
  ∨ currentStep s = 0%nat.
Proof.
  intros Hsh. destruct (decide (step_id stepObj = "card_type")) as [Hid|Hid].
  - right. by apply (flow_card_type_first _ _ _ Hsh).
  - left. apply computeFlow_card_type.
    rewrite setAnswer_other by done. rewrite answers_put. by rewrite lookup_insert_ne.
Qed.

Lemma handle_currentStep (CONDITION : Condition) (e : Event) (s : State) :
  currentStep (handle CONDITION e s) = currentStep s
  ∨ currentStep (handle CONDITION e s) = 0%nat
  ∨ (is_Some (shown_step s) ∧ currentStep (handle CONDITION e s) = S (currentStep s))
  ∨ S (currentStep (handle CONDITION e s)) = currentStep s.
Proof.
  destruct e as [t0 t1|t0 t1|t0 t1|key value|m|raw|form now ok]; cbn [handle].
  - right. left. unfold onStart. cbv zeta. by rewrite renderStep_currentStep.
  - unfold onNext, shown_step. cbv zeta.
    destruct (computeFlow _ !! currentStep s) eqn:Hsh; [|by left].
    destruct (negb _); [by left|].
    right. right. left. split; [done|]. by rewrite renderStep_currentStep.
  - unfold onBack. destruct (currentStep s) eqn:Hc; [by left|]. cbv zeta.
    right. right. right. by rewrite renderStep_currentStep.
  - left. unfold onManual. destruct (rendered_step s); [|done].
    destruct (negb _); [done|]. by destruct (negb _).
  - left. unfold onSwitchMethod. destruct CONDITION; try done.
    by destruct (rendered_step s).
  - left. unfold onFreeform. destruct (rendered_step s); [|done]. cbv zeta.
    by destruct (_ && _).
  - left. destruct (submitDisabled s); [done|].
    unfold onSubmitSurvey. cbv zeta. destruct (negb _); [done|].
    unfold writeFinal. by destruct ok.
Qed.

Lemma handle_in_flow (CONDITION : Condition) (e : Event) (s : State) :
  in_flow s → in_flow (handle CONDITION e s).
Proof.
  unfold in_flow. intros Hs.
  destruct (handle_writes CONDITION e s) as [Hf | (stepObj & v & Hsh & _ & _ & Hf & Hcur)].
  - rewrite (fills_flow _ _ Hf).
    destruct (handle_currentStep CONDITION e s) as [-> | [-> | [[[x Hx] ->] | Hp]]].
    + exact Hs.
    + lia.
    + apply lookup_lt_Some in Hx. lia.
    + lia.
  - rewrite (fills_flow _ _ Hf), Hcur.
    destruct (choice_write_flow s stepObj v Hsh) as [-> | ->]; [exact Hs | lia].
Qed.

(** The entry a navigation logs. *)
Lemma handle_entry (CONDITION : Condition) (e : Event) (s : State) :
  in_flow s →
  ∃ new, log (handle CONDITION e s) = (log s ++ new)%list ∧ Forall entry_ok new.
Proof.
  intros Hs. unfold in_flow in Hs.
  pose proof (flow_length (answers (store s))) as Hlen.
  destruct e as [t0 t1|t0 t1|t0 t1|key value|m|raw|form now ok].
  3: {
    cbn [handle]. unfold onBack.
    destruct (currentStep s) as [|p] eqn:Hc.
    { exists []. split; [by rewrite app_nil_r | apply Forall_nil; exact I]. }
    cbv zeta. rewrite renderStep_log. unfold log. state_simpl. cbn [transitions push_transition].
    eexists [_]. split; [reflexivity|]. apply Forall_cons. split; [|apply Forall_nil; exact I].
    unfold entry_ok. cbn [step_count action from_step_index to_step_index to_step_id].
    rewrite Hc. split; [exact Hlen|]. split; [lia|].
    exists p. split; [reflexivity|].
    destruct (lookup_lt_is_Some_2 (computeFlow (answers (store s))) p) as [x Hx]; [lia|].
    rewrite Hx. cbn [fmap option_fmap option_map compose fst snd].
    split; [reflexivity|]. by eexists. }
  2: {
    cbn [handle]. unfold onNext. cbv zeta.
    destruct (computeFlow _ !! currentStep s) as [stepObj|] eqn:Hsh.
    2: { exists []. split; [by rewrite app_nil_r | apply Forall_nil; exact I]. }
    destruct (negb _).
    { exists []. split; [by rewrite app_nil_r | apply Forall_nil; exact I]. }
    rewrite renderStep_log. unfold log. state_simpl. cbn [transitions push_transition].
    eexists [_]. split; [reflexivity|]. apply Forall_cons. split; [|apply Forall_nil; exact I].
    unfold entry_ok. cbn [step_count action from_step_index to_step_index to_step_id
                          from_step_id].
    split; [exact Hlen|]. pose proof (lookup_lt_Some _ _ _ Hsh) as Hlt.
    split; [exact Hlt|]. split; [by eexists|].
    destruct (computeFlow (answers (store s)) !! S (currentStep s)) as [x|] eqn:Hx;
      cbn [fmap option_fmap option_map compose fst snd].
    - left. split; [reflexivity|]. split; [by eexists|]. by apply lookup_lt_Some in Hx.
    - right. split; [reflexivity|]. split; [reflexivity|].
      rewrite lookup_ge_None in Hx. lia. }
  all: match goal with
       | |- context [handle ?c ?e ?s0] =>
           destruct (handle_log c e s0)
             as [(_ & Hsame & _) | (Hnav & _)]; [|discriminate Hnav]
       end;
       exists []; (split; [by rewrite app_nil_r | apply Forall_nil; exact I]).
Qed.

(** ** Input methods *)

Lemma getConditionCMap_card_type (a a' : Answers) :
  a !! "card_type" = a' !! "card_type" → getConditionCMap a = getConditionCMap a'.
Proof. unfold getConditionCMap. by intros ->. Qed.

Lemma fills_card_type (st st' : Store) :
  fills st st' → answers st' !! "card_type" = answers st !! "card_type".
Proof.
  intros Hf. apply (fills_lookup _ _ "card_type" Hf).
  unfold default_keys. rewrite !not_elem_of_cons.
  repeat split; try discriminate. apply not_elem_of_nil.
Qed.

(** The store [renderStep] leaves when it renders a step. *)
Lemma renderStep_store_fills (st : Store) :
  fills st (refreshPreview (ensureDesignDefaults (ensureRecipient1Defaults st))).
Proof.
  eapply fills_trans; [apply ensureRecipient1Defaults_fills|].
  eapply fills_trans; [apply ensureDesignDefaults_fills|].
  apply refreshPreview_fills.
Qed.

Ltac session_simpl :=
  cbn [startedAt checkoutCompletedAt surveySubmittedAt taskDurationMs transitions
       input_method_by_step survey push_transition set_input_method set_startedAt
       complete_checkout submit_survey].

Lemma renderStep_method (CONDITION : Condition) (now : Z) (s : State) :
  (CONDITION = A →
   currentInputMethod s = standard ∧ input_method_by_step (session s) = ∅) →
  method_inv CONDITION (renderStep CONDITION now s).
Proof.
  intros HA. unfold renderStep. cbv zeta.
  destruct (computeFlow (answers (store s)) !! currentStep s) as [stepObj|] eqn:Hsh.
  - assert (Hshown : ∀ s' : State,
              currentStep s' = currentStep s →
              store s' = refreshPreview (ensureDesignDefaults
                                          (ensureRecipient1Defaults (store s))) →
              ∀ x, rendered_step s' = Some x → x = stepObj).
    { intros s' Hc Hst x Hx. apply rendered_step_shown in Hx.
      unfold shown_step in Hx.
      rewrite Hc, Hst, (fills_flow _ _ (renderStep_store_fills (store s))), Hsh in Hx.
      by injection Hx. }
    destruct CONDITION.
    + state_simpl. split; [reflexivity|]. by apply HA.
    + intros x Hx. apply Hshown in Hx as ->; [|reflexivity..].
      state_simpl. session_simpl. by rewrite lookup_insert_eq.
    + intros x Hx. apply Hshown in Hx as ->; [|reflexivity..].
      state_simpl. session_simpl. split; [by rewrite lookup_insert_eq|].
      unfold resolveInputMethodForStep. f_equal. f_equal.
      apply getConditionCMap_card_type.
      rewrite (fills_card_type _ _ (refreshPreview_fills _)). reflexivity.
  - destruct CONDITION.
    + state_simpl. session_simpl. by apply HA.
    + intros x Hx. apply rendered_step_shown in Hx. unfold shown_step in Hx.
      state_simpl in Hx. congruence.
    + intros x Hx. apply rendered_step_shown in Hx. unfold shown_step in Hx.
      state_simpl in Hx. congruence.
Qed.

Lemma method_inv_ext (CONDITION : Condition) (s s' : State) :
  store s' = store s → currentStep s' = currentStep s →
  stepEnteredAt s' = stepEnteredAt s → currentInputMethod s' = currentInputMethod s →
  input_method_by_step (session s') = input_method_by_step (session s) →
  method_inv CONDITION s → method_inv CONDITION s'.
Proof.
  intros Hst Hc He Hm Hi.
  destruct CONDITION; unfold method_inv, rendered_step, shown_step;
    rewrite ?Hst, ?Hc, ?He, ?Hm, ?Hi; done.
Qed.

Lemma card_type_method (a : Answers) : getConditionCMap a !! "card_type" = Some voice.
Proof. unfold getConditionCMap. by case_decide. Qed.

(** A change of the store alone keeps the records right when it keeps
    the card type, or when the wizard is at its first step. *)
Lemma method_inv_set_store (CONDITION : Condition) (st' : Store) (s : State) :
  method_inv CONDITION s →
  answers st' !! "card_type" = answers (store s) !! "card_type" ∨ currentStep s = 0%nat →
  method_inv CONDITION (set_store st' s).
Proof.
  intros Hs Hch.
  assert (Hstep : ∀ x, rendered_step (set_store st' s) = Some x →
            rendered_step s = Some x
            ∧ (answers st' !! "card_type" = answers (store s) !! "card_type"
               ∨ step_id x = "card_type")).
  { intros x. unfold rendered_step, shown_step. state_simpl.
    destruct (stepEnteredAt s); [|discriminate].
    destruct Hch as [Hct | Hz].
    - rewrite (computeFlow_card_type _ _ Hct). intros Hx. split; [done|by left].
    - rewrite Hz, !first_step. intros [= <-]. split; [done|by right]. }
  destruct CONDITION; unfold method_inv in *.
  - exact Hs.
  - intros x Hx. apply Hstep in Hx as [Hx _]. state_simpl. by apply Hs.
  - intros x Hx. apply Hstep in Hx as [Hx Hct]. state_simpl.
    destruct (Hs x Hx) as [Hrec Htab]. split; [exact Hrec|].
    destruct Hct as [Hct | Hid].
    + by rewrite (getConditionCMap_card_type _ _ Hct).
    + rewrite Htab, Hid, !card_type_method. reflexivity.
Qed.

Lemma handle_card_type (CONDITION : Condition) (e : Event) (s : State) :
  answers (store (handle CONDITION e s)) !! "card_type"
  = answers (store s) !! "card_type"
  ∨ (currentStep s = 0%nat ∧ currentStep (handle CONDITION e s) = 0%nat).
Proof.
  destruct (handle_writes CONDITION e s) as [Hf | (stepObj & v & Hsh & _ & _ & Hf & Hcur)].
  - left. by apply fills_card_type.
  - rewrite (fills_card_type _ _ Hf).
    destruct (decide (step_id stepObj = "card_type")) as [Hid|Hid].
    + right. pose proof (flow_card_type_first _ _ _ Hsh Hid) as Hz.
      split; [exact Hz|]. by rewrite Hcur.
    + left. rewrite setAnswer_other by done. rewrite answers_put.
      by rewrite lookup_insert_ne.
Qed.

Lemma handle_method (CONDITION : Condition) (e : Event) (s : State) :
  method_inv CONDITION s → method_inv CONDITION (handle CONDITION e s).
Proof.
  intros Hs.
  destruct e as [t0 t1|t0 t1|t0 t1|key value|m|raw|form now ok].
  - cbn [handle]. unfold onStart. cbv zeta. apply renderStep_method.
    intros ->. state_simpl. session_simpl. split; [reflexivity|]. apply Hs.
  - cbn [handle]. unfold onNext. cbv zeta.
    destruct (computeFlow _ !! _); [|exact Hs].
    destruct (negb _).
    + by apply (method_inv_ext CONDITION s).
    + apply renderStep_method. intros ->. state_simpl. session_simpl. exact Hs.
  - cbn [handle]. unfold onBack. destruct (currentStep s) eqn:Hc; [exact Hs|]. cbv zeta.
    apply renderStep_method. intros ->. state_simpl. session_simpl. exact Hs.
  - assert (Heq : handle CONDITION (Manual key value) s
                  = set_store (store (handle CONDITION (Manual key value) s)) s).
    { cbn [handle]. unfold onManual. destruct (rendered_step s); [|by destruct s].
      destruct (negb _); [by destruct s|]. destruct (negb _); by destruct s. }
    rewrite Heq. apply method_inv_set_store; [exact Hs|].
    destruct (handle_card_type CONDITION (Manual key value) s) as [H | [H _]];
      [by left | by right].
  - cbn [handle]. unfold onSwitchMethod.
    destruct CONDITION; try exact Hs.
    destruct (rendered_step s) as [stepObj|] eqn:Hr; [|exact Hs].
    intros x Hx. apply rendered_step_shown in Hx. unfold shown_step in Hx.
    state_simpl in Hx. rewrite (fills_flow _ _ (refreshPreview_fills _)) in Hx.
    apply rendered_step_shown in Hr. unfold shown_step in Hr.
    rewrite Hr in Hx. injection Hx as <-.
    state_simpl. session_simpl. by rewrite lookup_insert_eq.
  - assert (Heq : handle CONDITION (Freeform raw) s
                  = set_store (store (handle CONDITION (Freeform raw) s)) s).
    { cbn [handle]. unfold onFreeform. destruct (rendered_step s); [|by destruct s].
      cbv zeta. destruct (_ && _); by destruct s. }
    rewrite Heq. apply method_inv_set_store; [exact Hs|].
    destruct (handle_card_type CONDITION (Freeform raw) s) as [H | [H _]];
      [by left | by right].
  - cbn [handle]. destruct (submitDisabled s); [exact Hs|].
    unfold onSubmitSurvey. cbv zeta. destruct (negb _).
    + by apply (method_inv_ext CONDITION s).
    + unfold writeFinal. destruct ok; by apply (method_inv_ext CONDITION s).
Qed.

(** ** Invariants of every run *)

(** X1. In every run of the program [session.answers] holds the same
    entries as [answers]: all writes to the store go through
    [setAnswer], which updates both objects alike. *)
Theorem run_answers_in_sync (CONDITION : Condition) (es : list Event) :
  session_answers (store (run CONDITION es initial_state))
  = answers (store (run CONDITION es initial_state)).
Proof.
  apply (run_invariant CONDITION (λ s, in_sync (store s))).
  - intros e s. apply handle_in_sync.
  - reflexivity.
Qed.


(** ** Defaults *)

Lemma or_default_truthy (v : option string) (d : string) :
  Js.truthy d = true → Js.truthy (Js.or_default v d) = true.
Proof.
  intros Hd. unfold Js.or_default. destruct v as [s|]; [|exact Hd].
  by destruct (Js.truthy s) eqn:Hs.
Qed.

Lemma ensureDesignDefaults_present (st : Store) :
  Js.present (answers (ensureDesignDefaults st) !! "design_category") = true
  ∧ Js.present (answers (ensureDesignDefaults st) !! "design") = true.
Proof.
  unfold ensureDesignDefaults.
  destruct (Js.present (answers st !! "design_category")) eqn:Hc;
    destruct (Js.present (answers _ !! "design")) eqn:Hd;
    rewrite ?setAnswer_other, ?answers_put by discriminate;
    rewrite ?setAnswer_other, ?answers_put in Hd by discriminate;
    simplify_map_eq; auto.
Qed.

Lemma ensureRecipient1Defaults_present (st : Store) :
  (Js.present (answers st !! "design_category") = true
   ∧ Js.present (answers st !! "design") = true) →
  defaults_present (answers (ensureRecipient1Defaults st)).
Proof.
  intros [Hc Hd]. unfold defaults_present.
  rewrite !ensureRecipient1Defaults_answers.
  repeat (case_decide; try done).
  cbn [Js.present]. rewrite !or_default_truthy by reflexivity.
  repeat split; eauto.
Qed.

Lemma refreshPreview_defaults (st : Store) : defaults_present (answers (refreshPreview st)).
Proof.
  destruct (refreshPreview_store st) as [-> | ->].
  - apply ensureRecipient1Defaults_present, ensureDesignDefaults_present.
  - apply ensureRecipient1Defaults_present.
    destruct (ensureRecipient1Defaults_present
                (ensureDesignDefaults (ensureRecipient1Defaults st))
                (ensureDesignDefaults_present _)) as (_ & _ & _ & Hc & Hd).
    by split.
Qed.

Lemma setAnswer_msg_defaults (v : string) (st : Store) :
  defaults_present (answers st) → defaults_present (answers (setAnswer "r1_msg" v st)).
Proof.
  unfold defaults_present. rewrite setAnswer_other by discriminate. rewrite answers_put.
  intros (Hq & Ha & _ & Hc & Hd). simplify_map_eq. repeat split; eauto.
Qed.

Lemma renderStep_defaults (CONDITION : Condition) (now : Z) (s : State) :
  defaults_inv s → defaults_inv (renderStep CONDITION now s).
Proof.
  unfold defaults_inv, renderStep. cbv zeta. intros Hs.
  destruct (computeFlow _ !! _).
  - intros _. destruct CONDITION; state_simpl; apply refreshPreview_defaults.
  - state_simpl. exact Hs.
Qed.

Lemma applyFreeformToStep_defaults (stepObj : Step) (raw : string) (st : Store) :
  defaults_present (answers st) →
  defaults_present (answers (applyFreeformToStep stepObj raw st)).
Proof.
  intros Hs. unfold applyFreeformToStep. cbv zeta.
  destruct (kind stepObj).
  - destruct (bestOptionMatch _ _); [|exact Hs].
    destruct (Js.truthy _); [apply refreshPreview_defaults | exact Hs].
  - destruct (bestOptionMatch _ _); [|exact Hs].
    destruct (Js.truthy _); [apply refreshPreview_defaults | exact Hs].
  - apply refreshPreview_defaults.
  - apply refreshPreview_defaults.
  - by apply setAnswer_msg_defaults.
  - exact Hs.
Qed.

Lemma handle_defaults (CONDITION : Condition) (e : Event) (s : State) :
  defaults_inv s → defaults_inv (handle CONDITION e s).
Proof.
  intros Hs.
  destruct e as [t0 t1|t0 t1|t0 t1|key value|m|raw|form now ok]; cbn [handle].
  - unfold onStart. cbv zeta. unfold defaults_inv, renderStep. cbv zeta.
    state_simpl. rewrite first_step. intros _.
    destruct CONDITION; state_simpl; apply refreshPreview_defaults.
  - unfold onNext. cbv zeta.
    destruct (computeFlow _ !! _); [|exact Hs].
    destruct (negb _); [exact Hs|].
    apply renderStep_defaults. unfold defaults_inv. state_simpl. exact Hs.
  - unfold onBack. destruct (currentStep s) eqn:Hc; [exact Hs|]. cbv zeta.
    apply renderStep_defaults. unfold defaults_inv. state_simpl. exact Hs.
  - unfold onManual. destruct (rendered_step s) eqn:Hr; [|exact Hs].
    destruct (negb _); [exact Hs|]. destruct (negb _); [exact Hs|].
    unfold defaults_inv. state_simpl. intros He.
    destruct (String.eqb key "r1_msg") eqn:Hk.
    + apply String.eqb_eq in Hk. subst key. apply setAnswer_msg_defaults. by apply Hs.
    + apply refreshPreview_defaults.
  - unfold onSwitchMethod. destruct CONDITION; try exact Hs.
    destruct (rendered_step s); [|exact Hs].
    unfold defaults_inv. state_simpl. intros _. apply refreshPreview_defaults.
  - unfold onFreeform. destruct (rendered_step s); [|exact Hs]. cbv zeta.
    destruct (_ && _); [|exact Hs].
    unfold defaults_inv. state_simpl. intros He.
    apply applyFreeformToStep_defaults. by apply Hs.
  - destruct (submitDisabled s); [exact Hs|].
    unfold onSubmitSurvey. cbv zeta. destruct (negb _); [exact Hs|].
    unfold writeFinal. destruct ok; exact Hs.
Qed.

(** X6. In every run, from the first rendering of a step on, quantity,
    amount, design category and design hold a non-empty string and the
    message is set; so the design step never holds the user back. *)
Theorem run_defaults_present (CONDITION : Condition) (es : list Event) :
  is_Some (stepEnteredAt (run CONDITION es initial_state)) →
  defaults_present (answers (store (run CONDITION es initial_state)))
  ∧ ∀ stepObj, kind stepObj = design →
      isStepComplete (answers (store (run CONDITION es initial_state))) stepObj = true.
Proof.
  intros He.
  assert (Hd : defaults_present (answers (store (run CONDITION es initial_state)))).
  { revert He. apply (run_invariant CONDITION defaults_inv).
    - intros e s0. apply handle_defaults.
    - unfold defaults_inv, initial_state. cbn [stepEnteredAt]. by intros [x Hx]. }
  split; [exact Hd|]. intros stepObj Hk. unfold isStepComplete. rewrite Hk.
  destruct (negb _); [reflexivity|]. apply Hd.
Qed.

Lemma run_defaults_present_witness :
  defaults_present (answers (store (run B [Start 1 2; Freeform "hello"] initial_state))).
Proof.
  refine (proj1 (run_defaults_present B [Start 1 2; Freeform "hello"] _)).
  by eexists.
Defined.

(** ** Survey and the final write *)

Lemma existsb_false {X : Type} (f : X → bool) (l : list X) :
  existsb f l = false ↔ Forall (λ x, f x = false) l.
Proof.
  induction l as [|x l IH]; cbn [existsb].
  - split; [intros _; apply Forall_nil; exact I | reflexivity].
  - rewrite orb_false_iff, Forall_cons, IH. reflexivity.
Qed.

Lemma collectSurvey_likert (form : SurveyForm) (id : string) :
  id ∈ likertIds →
  collectSurvey form !! id
  = Some (match checked form !! id with
          | Some v => SNum (Js.Number v)
          | None => SNull
          end).
Proof.
  intros Hid. unfold collectSurvey, likertIds in *. cbn [fold_left].
  rewrite !elem_of_cons in Hid.
  destruct Hid as [->|[->|[->|[->|[->|[->|Hid]]]]]];
    [by simplify_map_eq ..|].
  by apply elem_of_nil in Hid.
Qed.

Lemma collectSurvey_tlx (form : SurveyForm) (id : string) :
  id ∈ tlxIds →
  collectSurvey form !! id
  = fold_left (λ (out : Survey) kv, <[fst kv := SNum (Js.Number (snd kv))]> out)
      (sliders form) ∅ !! id.
Proof.
  intros Hid. unfold collectSurvey, likertIds, tlxIds in *. cbn [fold_left].
  rewrite !elem_of_cons in Hid.
  destruct Hid as [->|[->|[->|[->|[->|[->|Hid]]]]]];
    [by rewrite !lookup_insert_ne by discriminate ..|].
  by apply elem_of_nil in Hid.
Qed.

Lemma sliders_is_number (l : list (string * string)) (m : Survey) (id : string) :
  is_number (fold_left (λ (out : Survey) kv, <[fst kv := SNum (Js.Number (snd kv))]> out)
               l m !! id) = true
  ↔ id ∈ l.*1 ∨ is_number (m !! id) = true.
Proof.
  revert m. induction l as [|[k v] l IH]; intros m; cbn [fold_left fmap list_fmap fst snd].
  - rewrite elem_of_nil. tauto.
  - rewrite IH, elem_of_cons. destruct (decide (id = k)) as [->|Hne].
    + rewrite lookup_insert_eq. cbn [is_number]. tauto.
    + rewrite lookup_insert_ne by done. tauto.
Qed.

(** X7. The collected survey is valid exactly when each of the six
    workload sliders is on the page, whatever its value, and each of the
    six Likert items has a checked button whose value is a number other
    than 0 and NaN. *)
Theorem validateSurvey_collected (form : SurveyForm) :
  validateSurvey (collectSurvey form) = true
  ↔ (∀ id, id ∈ tlxIds → id ∈ (sliders form).*1)
    ∧ (∀ id, id ∈ likertIds →
         ∃ v, checked form !! id = Some v
              ∧ falsy (Some (SNum (Js.Number v))) = false).
Proof.
  assert (Hv : ∀ sv, validateSurvey sv = true
             ↔ Forall (λ id, negb (is_number (sv !! id)) = false) tlxIds
               ∧ Forall (λ id, falsy (sv !! id) = false) likertIds).
  { intros sv. unfold validateSurvey. rewrite <- !existsb_false.
    destruct (existsb _ tlxIds); destruct (existsb _ likertIds); intuition congruence. }
  rewrite Hv, !Forall_forall. split.
  - intros [Ht Hl]. split.
    + intros id Hid. specialize (Ht id Hid). rewrite negb_false_iff in Ht.
      rewrite (collectSurvey_tlx form id Hid), sliders_is_number in Ht.
      destruct Ht as [Ht | Ht]; [exact Ht|]. rewrite lookup_empty in Ht. discriminate.
    + intros id Hid. specialize (Hl id Hid). rewrite (collectSurvey_likert form id Hid) in Hl.
      destruct (checked form !! id) as [v|]; [|discriminate]. by exists v.
  - intros [Ht Hl]. split.
    + intros id Hid. rewrite negb_false_iff, (collectSurvey_tlx form id Hid), sliders_is_number.
      left. by apply Ht.
    + intros id Hid. rewrite (collectSurvey_likert form id Hid).
      destruct (Hl id Hid) as (v & -> & Hf). exact Hf.
Qed.

Lemma handle_effects (CONDITION : Condition) (e : Event) (s : State) :
  in_sync (store s) → branch_clean (answers (store s)) → Forall entry_ok (log s) →
  ∃ new, effects (handle CONDITION e s) = (effects s ++ new)%list
         ∧ Forall (effect_ok CONDITION) new.
Proof.
  intros Hsync Hclean Hlog.
  assert (Hnil : ∀ s', effects s' = effects s →
            ∃ new, effects s' = (effects s ++ new)%list ∧ Forall (effect_ok CONDITION) new).
  { intros s' ->. exists []. split; [by rewrite app_nil_r | apply Forall_nil; exact I]. }
  assert (Hrender : ∀ now s0, effects (renderStep CONDITION now s0) = effects s0).
  { intros now s0. unfold renderStep. cbv zeta.
    destruct (computeFlow _ !! _); [destruct CONDITION|]; reflexivity. }
  destruct e as [t0 t1|t0 t1|t0 t1|key value|m|raw|form now ok]; cbn [handle].
  - apply Hnil. unfold onStart. cbv zeta. by rewrite Hrender.
  - unfold onNext. cbv zeta.
    destruct (computeFlow _ !! _); [|by apply Hnil].
    destruct (negb _).
    + eexists [_]. split; [reflexivity|]. apply Forall_cons. split; [exact I|].
      apply Forall_nil. exact I.
    + apply Hnil. by rewrite Hrender.
  - apply Hnil. unfold onBack. destruct (currentStep s); [reflexivity|]. cbv zeta.
    by rewrite Hrender.
  - apply Hnil. unfold onManual. destruct (rendered_step s); [|reflexivity].
    destruct (negb _); [reflexivity|]. destruct (negb _); reflexivity.
  - apply Hnil. unfold onSwitchMethod. destruct CONDITION; try reflexivity.
    destruct (rendered_step s); reflexivity.
  - apply Hnil. unfold onFreeform. destruct (rendered_step s); [|reflexivity]. cbv zeta.
    destruct (_ && _); reflexivity.
  - destruct (submitDisabled s); [by apply Hnil|].
    unfold onSubmitSurvey. cbv zeta. destruct (validateSurvey _) eqn:Hv; cbn [negb].
    + assert (Hp : payload_ok CONDITION
                (mkPayload CONDITION (startedAt (session s)) (checkoutCompletedAt (session s))
                   (Some now) (taskDurationMs (session s)) (log s)
                   (session_answers (store s)) (input_method_by_step (session s))
                   (collectSurvey form))).
      { unfold payload_ok. cbn [p_condition p_survey p_surveySubmittedAt p_answers
                               p_transitions].
        unfold in_sync in Hsync. rewrite Hsync.
        split; [reflexivity|]. split; [exact Hv|]. split; [by eexists|].
        split; [exact Hclean | exact Hlog]. }
      unfold writeFinal. cbv zeta.
      destruct ok; state_simpl; session_simpl; rewrite <- ?app_assoc; cbn [app];
        eexists; (split; [reflexivity|]);
        repeat (apply Forall_cons; split; [first [exact I | exact Hp]|]);
        apply Forall_nil; exact I.
    + state_simpl. rewrite <- app_assoc. eexists. split; [reflexivity|].
      repeat (apply Forall_cons; split; [exact I|]). apply Forall_nil; exact I.
Qed.

(** ** Normal forms of texts *)

Ltac each_char c :=
  destruct c as [[] [] [] [] [] [] [] []].

Lemma normal_char_idem (c : ascii) : normal_char (normal_char c) = normal_char c.
Proof. each_char c; vm_compute; reflexivity. Qed.

Lemma is_space_space : Js.is_space space = true.
Proof. reflexivity. Qed.

Lemma plain_space : plain_char space.
Proof. split; reflexivity. Qed.

Lemma plain_normal_char (c : ascii) :
  Js.is_space (normal_char c) = false → plain_char (normal_char c).
Proof.
  intros Hs. split; [apply normal_char_idem|]. rewrite Hs. discriminate.
Qed.

Lemma normalizeText_chars (s : string) :
  normalizeText s
  = Js.str (Js.trim_chars (collapse_spaces false (map normal_char (Js.chars s)))).
Proof. unfold normalizeText. cbv zeta. by rewrite map_map. Qed.

Lemma no_space_pair_cons (a : ascii) (l : list ascii) :
  no_space_pair (a :: l) ↔ (Js.is_space a = true → hd_ok l) ∧ no_space_pair l.
Proof.
  unfold no_space_pair. split.
  - intros H. split.
    + intros Ha. destruct l as [|b l]; [exact I|]. cbn [hd_ok].
      destruct (Js.is_space b) eqn:Hb; [|reflexivity].
      exfalso. exact (H [] a b l eq_refl Ha Hb).
    + intros l1 x y l2 -> Hx Hy. exact (H (a :: l1) x y l2 eq_refl Hx Hy).
  - intros [Hh Hn] l1 x y l2 Heq Hx Hy. destruct l1 as [|z l1]; cbn [app] in Heq.
    + injection Heq as -> ->. specialize (Hh Hx). cbn [hd_ok] in Hh. congruence.
    + injection Heq as -> ->. exact (Hn l1 x y l2 eq_refl Hx Hy).
Qed.

Lemma no_space_pair_nil : no_space_pair [].
Proof. intros l1 a b l2 Heq. by destruct l1. Qed.

Lemma collapse_spaces_shape (in_run : bool) (l : list ascii) :
  (in_run = true → hd_ok (collapse_spaces in_run (map normal_char l)))
  ∧ no_space_pair (collapse_spaces in_run (map normal_char l))
  ∧ Forall plain_char (collapse_spaces in_run (map normal_char l)).
Proof.
  revert in_run. induction l as [|c l IH]; intros in_run; cbn [map collapse_spaces].
  - split; [done|]. split; [apply no_space_pair_nil | apply Forall_nil; exact I].
  - destruct (Js.is_space (normal_char c)) eqn:Hs.
    + destruct in_run.
      * apply IH.
      * destruct (IH true) as (Hh & Hn & Hp). split; [discriminate|]. split.
        -- apply no_space_pair_cons. split; [intros _; by apply Hh | exact Hn].
        -- apply Forall_cons. split; [apply plain_space | exact Hp].
    + destruct (IH false) as (_ & Hn & Hp). split; [intros _; exact Hs|]. split.
      * apply no_space_pair_cons. split; [congruence | exact Hn].
      * apply Forall_cons. split; [by apply plain_normal_char | exact Hp].
Qed.

Lemma collapse_spaces_fixed (in_run : bool) (l : list ascii) :
  (in_run = true → hd_ok l) → no_space_pair l → Forall plain_char l →
  collapse_spaces in_run (map normal_char l) = l.
Proof.
  revert in_run. induction l as [|c l IH]; intros in_run Hh Hn Hp; [reflexivity|].
  apply no_space_pair_cons in Hn as [Hnh Hn]. apply Forall_cons in Hp as [[Hc Hsp] Hp].
  cbn [map collapse_spaces]. rewrite Hc. destruct (Js.is_space c) eqn:Hs.
  - destruct in_run; [specialize (Hh eq_refl); cbn [hd_ok] in Hh; congruence|].
    rewrite (Hsp eq_refl). f_equal. apply IH; auto.
  - f_equal. apply IH; auto.
Qed.

Lemma drop_spaces_suffix (l : list ascii) : ∃ pre, l = (pre ++ Js.drop_spaces l)%list.
Proof.
  induction l as [|c l [pre IH]]; [by exists []|]. cbn [Js.drop_spaces].
  destruct (Js.is_space c); [|by exists []].
  exists (c :: pre). cbn [app]. by rewrite <- IH.
Qed.

Lemma drop_spaces_hd (l : list ascii) : hd_ok (Js.drop_spaces l).
Proof.
  induction l as [|c l IH]; [exact I|]. cbn [Js.drop_spaces].
  destruct (Js.is_space c) eqn:Hs; [exact IH | exact Hs].
Qed.

Lemma drop_spaces_fixed (l : list ascii) : hd_ok l → Js.drop_spaces l = l.
Proof. destruct l as [|c l]; [reflexivity|]. cbn [hd_ok Js.drop_spaces]. by intros ->. Qed.

Lemma hd_ok_app (l : list ascii) (c : ascii) : hd_ok (l ++ [c]) → hd_ok l.
Proof. by destruct l. Qed.

Lemma drop_spaces_last (l : list ascii) : hd_ok (rev l) → hd_ok (rev (Js.drop_spaces l)).
Proof.
  induction l as [|c l IH]; [done|]. cbn [Js.drop_spaces].
  destruct (Js.is_space c); [|done].
  cbn [rev]. intros H. apply IH. exact (hd_ok_app _ _ H).
Qed.

Lemma trim_chars_ends (l : list ascii) :
  hd_ok (Js.trim_chars l) ∧ hd_ok (rev (Js.trim_chars l)).
Proof.
  unfold Js.trim_chars. rewrite rev_involutive. split; [|apply drop_spaces_hd].
  apply drop_spaces_last. rewrite rev_involutive. apply drop_spaces_hd.
Qed.

Lemma trim_chars_fixed (l : list ascii) :
  hd_ok l → hd_ok (rev l) → Js.trim_chars l = l.
Proof.
  intros Hh Hl. unfold Js.trim_chars.
  rewrite (drop_spaces_fixed l Hh), (drop_spaces_fixed (rev l) Hl). apply rev_involutive.
Qed.

Lemma no_space_pair_suffix (pre l : list ascii) :
  no_space_pair (pre ++ l) → no_space_pair l.
Proof.
  intros H l1 a b l2 -> Ha Hb. apply (H (pre ++ l1)%list a b l2); [|done|done].
  by rewrite <- app_assoc.
Qed.

Lemma no_space_pair_rev (l : list ascii) : no_space_pair l → no_space_pair (rev l).
Proof.
  intros H l1 a b l2 Heq Ha Hb. apply (H (rev l2) b a (rev l1)); [|done|done].
  rewrite <- (rev_involutive l), Heq, rev_app_distr. cbn [rev].
  by rewrite <- !app_assoc.
Qed.

Lemma trim_chars_shape (l : list ascii) :
  no_space_pair l → Forall plain_char l →
  no_space_pair (Js.trim_chars l) ∧ Forall plain_char (Js.trim_chars l).
Proof.
  intros Hn Hp. unfold Js.trim_chars.
  destruct (drop_spaces_suffix l) as [pre Hpre].
  destruct (drop_spaces_suffix (rev (Js.drop_spaces l))) as [pre' Hpre'].
  split.
  - apply no_space_pair_rev. apply (no_space_pair_suffix pre'). rewrite <- Hpre'.
    apply no_space_pair_rev. apply (no_space_pair_suffix pre). by rewrite <- Hpre.
  - rewrite Hpre in Hp. apply Forall_app in Hp as [_ Hp].
    apply Forall_rev in Hp. rewrite Hpre' in Hp. apply Forall_app in Hp as [_ Hp].
    by apply Forall_rev.
Qed.

Lemma str_chars (s : string) : Js.str (Js.chars s) = s.
Proof. apply string_of_list_ascii_of_string. Qed.

Lemma normalizeText_twice (s : string) :
  normalizeText (normalizeText s) = normalizeText s.
Proof.
  rewrite (normalizeText_chars (normalizeText s)), (normalizeText_chars s), chars_str.
  destruct (collapse_spaces_shape false (Js.chars s)) as (_ & Hn & Hp).
  destruct (trim_chars_shape _ Hn Hp) as [Hn' Hp'].
  destruct (trim_chars_ends (collapse_spaces false (map normal_char (Js.chars s))))
    as [Hh Hl].
  rewrite collapse_spaces_fixed by (try done).
  by rewrite trim_chars_fixed.
Qed.

(** X10. [normalizeText] is idempotent, and its result is in normal
    form: it neither starts nor ends with white space, has no two
    white-space characters in a row, and consists of characters that
    normalization leaves alone (lower-case word characters, [$] and the
    space). *)
Theorem normalizeText_idempotent (s : string) :
  normalizeText (normalizeText s) = normalizeText s
  ∧ hd_ok (Js.chars (normalizeText s))
  ∧ hd_ok (rev (Js.chars (normalizeText s)))
  ∧ no_space_pair (Js.chars (normalizeText s))
  ∧ Forall plain_char (Js.chars (normalizeText s)).
Proof.
  split; [apply normalizeText_twice|].
  rewrite (normalizeText_chars s), chars_str.
  destruct (collapse_spaces_shape false (Js.chars s)) as (_ & Hn & Hp).
  destruct (trim_chars_shape _ Hn Hp) as [Hn' Hp'].
  destruct (trim_chars_ends (collapse_spaces false (map normal_char (Js.chars s))))
    as [Hh Hl].
  done.
Qed.

(** ** Freeform input that matches *)

Lemma find_first {X : Type} (p : X → bool) (l : list X) (x : X) :
  x ∈ l → p x = true → (∀ y, y ∈ l → p y = true → y = x) → List.find p l = Some x.
Proof.
  intros Hin Hp Huniq. destruct (List.find p l) as [y|] eqn:Hf.
  - apply find_some in Hf as [Hy Hpy]. f_equal. apply Huniq; [|done].
    by apply list_elem_of_In.
  - apply list_elem_of_In in Hin. pose proof (find_none _ _ Hf x Hin). congruence.
Qed.

Lemma bestOptionMatch_same_normal_form (raw : string) (options : list string) (o : string) :
  o ∈ options → Js.truthy o = true → Js.truthy (normalizeText raw) = true →
  normalizeText raw = normalizeText o →
  (∀ o', o' ∈ options → normalizeText o' = normalizeText o → o' = o) →
  bestOptionMatch (normalizeText raw) options = Some o.
Proof.
  intros Hin Ho Hraw Heq Huniq. unfold bestOptionMatch. rewrite Hraw. cbn [negb orb].
  destruct options as [|o0 options]; [by apply elem_of_nil in Hin|]. cbn [Js.is_null].
  cbv zeta. rewrite normalizeText_twice. unfold find_truthy at 1.
  rewrite (find_first _ _ o Hin).
  - by rewrite Ho.
  - apply String.eqb_eq. by symmetry.
  - intros y Hy Hp. apply String.eqb_eq in Hp. apply Huniq; [done|]. congruence.
Qed.

Lemma ensureDesignDefaults_keeps (st : Store) (k v : string) :
  answers st !! k = Some v → Js.truthy v = true →
  answers (ensureDesignDefaults st) !! k = Some v.
Proof.
  intros Hk Hv. unfold ensureDesignDefaults.
  assert (Hp : Js.present (answers st !! k) = true) by (by rewrite Hk).
  destruct (Js.present (answers st !! "design_category")) eqn:Hc.
  - destruct (Js.present (answers st !! "design")) eqn:Hd; [done|].
    rewrite setAnswer_other, answers_put by discriminate.
    rewrite lookup_insert_ne; [done|]. intros <-. congruence.
  - assert (Hk1 : k ≠ "design_category") by (intros ->; congruence).
    assert (Hst1 : answers (setAnswer "design_category" "All" st) !! k = Some v).
    { rewrite setAnswer_other, answers_put by discriminate. by rewrite lookup_insert_ne. }
    destruct (Js.present (answers (setAnswer "design_category" "All" st) !! "design")) eqn:Hd;
      [done|].
    rewrite setAnswer_other, answers_put by discriminate.
    rewrite lookup_insert_ne; [done|]. intros <-. rewrite Hst1 in Hd. cbn in Hd. congruence.
Qed.

Lemma ensureRecipient1Defaults_keeps (st : Store) (k v : string) :
  answers st !! k = Some v → Js.truthy v = true →
  answers (ensureRecipient1Defaults st) !! k = Some v.
Proof.
  intros Hk Hv. rewrite ensureRecipient1Defaults_answers.
  repeat case_decide; subst; rewrite ?Hk; cbn [Js.or_default default]; by rewrite ?Hv.
Qed.

(** [refreshPreview] keeps every non-empty answer. *)
Lemma refreshPreview_keeps_truthy (st : Store) (k v : string) :
  answers st !! k = Some v → Js.truthy v = true →
  answers (refreshPreview st) !! k = Some v.
Proof.
  intros Hk Hv.
  destruct (refreshPreview_store st) as [-> | ->];
    repeat first [ apply ensureRecipient1Defaults_keeps; [|exact Hv]
                 | apply ensureDesignDefaults_keeps; [|exact Hv] ];
    exact Hk.
Qed.

Lemma setAnswer_reads_back (k v : string) (st : Store) :
  answers (setAnswer k v st) !! k = Some v.
Proof. rewrite setAnswer_answers. repeat case_decide; subst; by simplify_map_eq. Qed.

Lemma NoDup_map_inj {X Y : Type} (f : X → Y) (l : list X) (x y : X) :
  NoDup (map f l) → x ∈ l → y ∈ l → f x = f y → x = y.
Proof.
  induction l as [|z l IH]; cbn [map]; intros Hnd Hx Hy Hf; [by apply elem_of_nil in Hx|].
  apply NoDup_cons in Hnd as [Hz Hnd].
  apply elem_of_cons in Hx as [-> | Hx]; apply elem_of_cons in Hy as [-> | Hy].
  - reflexivity.
  - exfalso. apply Hz. rewrite Hf. change (map f l) with (f <$> l).
    by apply list_elem_of_fmap_2.
  - exfalso. apply Hz. rewrite <- Hf. change (map f l) with (f <$> l).
    by apply list_elem_of_fmap_2.
  - by apply IH.
Qed.

Lemma normalizeText_truthy (o : string) :
  Js.truthy (normalizeText o) = true → Js.truthy o = true.
Proof. by destruct o. Qed.

(** The options of a choice step have distinct, non-empty normal forms. *)
Lemma flow_options_distinct (a : Answers) (stepObj : Step) :
  stepObj ∈ computeFlow a → kind stepObj = choice →
  NoDup (map normalizeText (options stepObj))
  ∧ Forall (λ o, Js.truthy (normalizeText o) = true) (options stepObj).
Proof.
  unfold computeFlow, getConditionalSteps, baseSteps, paymentStep.
  case_decide as Hd; cbn [app]; intros Hin Hk;
    rewrite !elem_of_cons, elem_of_nil in Hin;
    repeat (destruct Hin as [-> | Hin]); try done; cbn in Hk; try discriminate;
    cbn [options]; (split; [|repeat constructor]);
    (apply (bool_decide_unpack _); vm_compute; reflexivity).
Qed.

(** X11. On a choice step of the flow, a freeform input with the normal
    form of one of the step's options (the option's text in any letter
    case, punctuation and spacing) makes that option the step's
    answer. *)
Theorem freeform_selects_option
    (a : Answers) (stepObj : Step) (raw o : string) (st : Store) :
  stepObj ∈ computeFlow a → kind stepObj = choice → o ∈ options stepObj →
  normalizeText raw = normalizeText o →
  answers (applyFreeformToStep stepObj raw st) !! step_id stepObj = Some o.
Proof.
  intros Hin Hk Ho Heq.
  destruct (flow_options_distinct a stepObj Hin Hk) as [Hnd Hne].
  rewrite Forall_forall in Hne. pose proof (Hne o Ho) as Hno.
  pose proof (normalizeText_truthy o Hno) as Hto.
  unfold applyFreeformToStep. cbv zeta. rewrite Hk.
  rewrite (bestOptionMatch_same_normal_form raw (options stepObj) o); try done.
  - rewrite Hto. apply refreshPreview_keeps_truthy; [|exact Hto]. apply setAnswer_reads_back.
  - by rewrite Heq.
  - intros o' Ho' Hn. by apply (NoDup_map_inj normalizeText (options stepObj)).
Qed.

Lemma freeform_selects_option_witness :
  answers (applyFreeformToStep paymentStep "  test DEBIT card (1111)!" empty_store)
    !! "payment" = Some "Test Debit Card (1111)".
Proof.
  apply (freeform_selects_option ∅ paymentStep).
  - unfold computeFlow. rewrite !elem_of_app, elem_of_cons. auto.
  - reflexivity.
  - unfold paymentStep. cbn [options]. elem_of_solve.
  - vm_compute. reflexivity.
Defined.

(** X12. On the design step, a freeform input with the normal form of a
    design's label selects that design. *)
Theorem freeform_selects_design (stepObj : Step) (raw : string) (d : Design) (st : Store) :
  kind stepObj = design → d ∈ CARD_DESIGNS →
  normalizeText raw = normalizeText (label d) →
  answers (applyFreeformToStep stepObj raw st) !! "design" = Some (design_id d).
Proof.
  intros Hk Hd Heq.
  assert (Hnd : NoDup (map normalizeText (map label CARD_DESIGNS)))
    by (apply (bool_decide_unpack _); vm_compute; reflexivity).
  assert (Hl : NoDup (map label CARD_DESIGNS))
    by (apply (bool_decide_unpack _); vm_compute; reflexivity).
  assert (Hne : Forall (λ x, Js.truthy (normalizeText (label x)) = true
                             ∧ Js.truthy (design_id x) = true) CARD_DESIGNS)
    by (repeat constructor).
  rewrite Forall_forall in Hne. destruct (Hne d Hd) as [Hnl Htid].
  pose proof (normalizeText_truthy _ Hnl) as Htl.
  assert (Hin : label d ∈ map label CARD_DESIGNS).
  { change (map label CARD_DESIGNS) with (label <$> CARD_DESIGNS).
    by apply list_elem_of_fmap_2. }
  unfold applyFreeformToStep. cbv zeta. rewrite Hk.
  rewrite (bestOptionMatch_same_normal_form raw (map label CARD_DESIGNS) (label d));
    try done.
  - rewrite Htl. rewrite (find_first _ _ d Hd).
    + apply refreshPreview_keeps_truthy; [|exact Htid]. apply setAnswer_reads_back.
    + apply String.eqb_refl.
    + intros y Hy Hp. apply String.eqb_eq in Hp.
      by apply (NoDup_map_inj label CARD_DESIGNS).
  - by rewrite Heq.
  - intros o' Ho' Hn. by apply (NoDup_map_inj normalizeText (map label CARD_DESIGNS)).
Qed.

Lemma freeform_selects_design_witness :
  answers (applyFreeformToStep design_step "Ocean   BLUE." empty_store) !! "design"
  = Some "nature2".
Proof.
  apply (freeform_selects_design design_step "Ocean   BLUE."
           (mkDesign "nature2" "Ocean Blue" "bg-nature-2" "Nature")).
  - reflexivity.
  - unfold CARD_DESIGNS. elem_of_solve.
  - vm_compute. reflexivity.
Defined.

(** X13. On a choice step a freeform input never stores anything but
    one of the step's options: the step's answer is what it was, or one
    of the options. *)
Theorem freeform_choice_valid (stepObj : Step) (raw : string) (st : Store) :
  kind stepObj = choice →
  answers (applyFreeformToStep stepObj raw st) !! step_id stepObj
  = answers st !! step_id stepObj
  ∨ ∃ o, o ∈ options stepObj
         ∧ answers (applyFreeformToStep stepObj raw st) !! step_id stepObj = Some o.
Proof.
  intros Hk. unfold applyFreeformToStep. cbv zeta. rewrite Hk.
  destruct (bestOptionMatch _ _) as [best|] eqn:Hb; [|by left].
  destruct (Js.truthy best) eqn:Ht; [|by left].
  right. exists best. split; [by apply (bestOptionMatch_elem _ _ _ Hb)|].
  apply refreshPreview_keeps_truthy; [|exact Ht]. apply setAnswer_reads_back.
Qed.

Lemma freeform_choice_valid_witness :
  answers (applyFreeformToStep paymentStep "credit please" empty_store) !! "payment"
  = answers empty_store !! "payment"
  ∨ ∃ o, o ∈ options paymentStep
         ∧ answers (applyFreeformToStep paymentStep "credit please" empty_store)
             !! "payment" = Some o.
Proof. exact (freeform_choice_valid paymentStep "credit please" empty_store eq_refl). Defined.

Lemma quantity_reads_ge_1 (n : Z) :
  1 ≤ n ≤ 10 → Js.ge (Js.Number (Js.String_of_Z n)) (Js.of_Z 1) = true.
Proof.
  intros Hn.
  assert (Hall : forallb (λ i : nat, Js.ge (Js.Number (Js.String_of_Z (1 + Z.of_nat i)))
                                       (Js.of_Z 1)) (seq 0 10) = true)
    by (vm_compute; reflexivity).
  rewrite forallb_forall in Hall.
  specialize (Hall (Z.to_nat (n - 1))).
  replace (1 + Z.of_nat (Z.to_nat (n - 1))) with n in Hall by lia.
  apply Hall, in_seq. lia.
Qed.

Lemma amount_reads_ge_5 (n : Z) :
  5 ≤ n ≤ 2000 → Js.ge (Js.Number (Js.String_of_Z n)) (Js.of_Z 5) = true.
Proof.
  intros Hn.
  assert (Hall : forallb (λ i : nat, Js.ge (Js.Number (Js.String_of_Z (5 + Z.of_nat i)))
                                       (Js.of_Z 5)) (seq 0 1996) = true)
    by (vm_compute; reflexivity).
  rewrite forallb_forall in Hall.
  specialize (Hall (Z.to_nat (n - 5))).
  replace (5 + Z.of_nat (Z.to_nat (n - 5))) with n in Hall by lia.
  apply Hall, in_seq. lia.
Qed.

(** X14. Whatever is said or typed on the quantity step, the store then
    holds the decimal numeral of an integer from 1 to 10 as the
    quantity, and the step's gate is open; likewise on the amount step
    with an integer from 5 to 2000. *)
Theorem freeform_number_complete (stepObj : Step) (raw : string) (st : Store) :
  kind stepObj = number ∨ kind stepObj = amount →
  let st' := applyFreeformToStep stepObj raw st in
  isStepComplete (answers st') stepObj = true
  ∧ ∃ n : Z,
      match kind stepObj with
      | number => 1 ≤ n ≤ 10 ∧ answers st' !! "r1_qty" = Some (Js.String_of_Z n)
      | _ => 5 ≤ n ≤ 2000 ∧ answers st' !! "r1_amt" = Some (Js.String_of_Z n)
      end.
Proof.
  intros Hk st'. subst st'. unfold applyFreeformToStep, isStepComplete. cbv zeta.
  destruct Hk as [Hk | Hk]; rewrite Hk.
  - set (n := parseSpokenNumberClosest raw 1 10 _).
    assert (Hn : 1 ≤ n ≤ 10).
    { unfold n, parseSpokenNumberClosest.
      destruct (negb _); [apply clampInt_range; lia|]. cbv zeta.
      destruct (match_signed_digits _); [apply clampInt_range; lia|].
      destruct (find_number_word _) as [[w v]|]; apply clampInt_range; lia. }
    assert (Hst : answers (refreshPreview (setAnswer "r1_qty" (Js.String_of_Z n) st))
                    !! "r1_qty" = Some (Js.String_of_Z n)).
    { apply refreshPreview_keeps_truthy; [apply setAnswer_reads_back|].
      apply String_of_Z_truthy. }
    split; [|by exists n].
    destruct (negb _); [reflexivity|]. rewrite Hst. cbn [Number_of].
    by apply quantity_reads_ge_1.
  - set (n := parseSpokenNumberClosest raw 5 2000 _).
    assert (Hn : 5 ≤ n ≤ 2000).
    { unfold n, parseSpokenNumberClosest.
      destruct (negb _); [apply clampInt_range; lia|]. cbv zeta.
      destruct (match_signed_digits _); [apply clampInt_range; lia|].
      destruct (find_number_word _) as [[w v]|]; apply clampInt_range; lia. }
    assert (Hst : answers (refreshPreview (setAnswer "r1_amt" (Js.String_of_Z n) st))
                    !! "r1_amt" = Some (Js.String_of_Z n)).
    { apply refreshPreview_keeps_truthy; [apply setAnswer_reads_back|].
      apply String_of_Z_truthy. }
    split; [|by exists n].
    destruct (negb _); [reflexivity|]. rewrite Hst. cbn [Number_of].
    by apply amount_reads_ge_5.
Qed.

Lemma freeform_number_complete_witness :
  isStepComplete (answers (applyFreeformToStep amt_step "make it 75 dollars" empty_store))
    amt_step = true.
Proof.
  exact (proj1 (freeform_number_complete amt_step "make it 75 dollars" empty_store
                  (or_intror eq_refl))).
Defined.

(** ** Steps gone past *)

Lemma keeps_truthy_refl (st : Store) : keeps_truthy st st.
Proof. by intros k v. Qed.

Lemma keeps_truthy_trans (a b c : Store) :
  keeps_truthy a b → keeps_truthy b c → keeps_truthy a c.
Proof. intros Hab Hbc k v Hk Hv. apply Hbc; [|done]. by apply Hab. Qed.

Lemma refreshPreview_keeps_all (st : Store) : keeps_truthy st (refreshPreview st).
Proof. intros k v. apply refreshPreview_keeps_truthy. Qed.

Lemma renderStep_keeps (CONDITION : Condition) (now : Z) (s : State) :
  keeps_truthy (store s) (store (renderStep CONDITION now s)).
Proof.
  unfold renderStep. cbv zeta.
  destruct (computeFlow _ !! _); [|apply keeps_truthy_refl].
  intros k v Hk Hv.
  destruct CONDITION; state_simpl; apply refreshPreview_keeps_truthy; try done;
    apply ensureDesignDefaults_keeps; try done;
    by apply ensureRecipient1Defaults_keeps.
Qed.

(** The steps of a flow: the kind fixes the identifier of the steps
    that are not choice steps, and no step is called design_category. *)
Lemma flow_kind_id (a : Answers) (stepObj : Step) :
  stepObj ∈ computeFlow a →
  step_id stepObj ≠ "design_category"
  ∧ match kind stepObj with
    | design => step_id stepObj = "design"
    | number => step_id stepObj = "r1_qty"
    | amount => step_id stepObj = "r1_amt"
    | text => step_id stepObj = "r1_msg"
    | info => required stepObj = false
    | choice => True
    end.
Proof.
  unfold computeFlow, getConditionalSteps, baseSteps, paymentStep.
  case_decide as Hd; cbn [app]; intros Hin;
    rewrite !elem_of_cons, elem_of_nil in Hin;
    repeat (destruct Hin as [-> | Hin]); try done.
Qed.

Lemma flow_ids_NoDup (a : Answers) : NoDup (map step_id (computeFlow a)).
Proof.
  rewrite (proj1 (computeFlow_ids a)).
  case_decide; apply (bool_decide_unpack _); vm_compute; reflexivity.
Qed.

Lemma flow_ids_distinct (a : Answers) (i j : nat) (x y : Step) :
  computeFlow a !! i = Some x → computeFlow a !! j = Some y →
  step_id x = step_id y → i = j.
Proof.
  intros Hi Hj Hid. apply (NoDup_lookup _ i j (step_id x) (flow_ids_NoDup a)).
  - change (map step_id (computeFlow a)) with (step_id <$> computeFlow a).
    by rewrite list_lookup_fmap, Hi.
  - change (map step_id (computeFlow a)) with (step_id <$> computeFlow a).
    by rewrite list_lookup_fmap, Hj, Hid.
Qed.

(** The gate of a step of the flow reads the answer filed under the
    step's identifier, and nothing else. *)
Lemma gate_key (a0 a1 a2 : Answers) (stepObj : Step) :
  stepObj ∈ computeFlow a0 →
  a1 !! step_id stepObj = a2 !! step_id stepObj →
  isStepComplete a1 stepObj = isStepComplete a2 stepObj.
Proof.
  intros Hin Heq. destruct (flow_kind_id a0 stepObj Hin) as [_ Hk].
  unfold isStepComplete. destruct (negb _); [reflexivity|].
  destruct (kind stepObj); try reflexivity; rewrite ?Hk in Heq; by rewrite Heq.
Qed.

Lemma ge_truthy (v : option string) (lo : Z) :
  1 ≤ lo → Js.ge (Number_of v) (Js.of_Z lo) = true →
  ∃ s, v = Some s ∧ Js.truthy s = true.
Proof.
  intros Hlo. destruct v as [s|]; [|discriminate]. intros Hge. exists s. split; [done|].
  destruct s; [|reflexivity]. exfalso. cbn in Hge.
  unfold Qle_bool in Hge. cbn in Hge. apply Z.leb_le in Hge. lia.
Qed.

Lemma present_truthy (v : option string) :
  Js.present v = true → ∃ s, v = Some s ∧ Js.truthy s = true.
Proof. destruct v as [s|]; [|discriminate]. intros H. by exists s. Qed.

Lemma keeps_complete (a0 : Answers) (st st' : Store) (stepObj : Step) :
  keeps_truthy st st' → stepObj ∈ computeFlow a0 →
  isStepComplete (answers st) stepObj = true →
  isStepComplete (answers st') stepObj = true.
Proof.
  intros Hkeep Hin Hc. destruct (flow_kind_id a0 stepObj Hin) as [_ Hk].
  unfold isStepComplete in *. destruct (negb _); [reflexivity|].
  destruct (kind stepObj); try reflexivity.
  - apply present_truthy in Hc as (s & Hs & Ht). by rewrite (Hkeep _ _ Hs Ht).
  - apply present_truthy in Hc as (s & Hs & Ht). by rewrite (Hkeep _ _ Hs Ht).
  - pose proof Hc as Hc'. apply ge_truthy in Hc' as (s & Hs & Ht); [|lia].
    by rewrite (Hkeep _ _ Hs Ht), <- Hs.
  - pose proof Hc as Hc'. apply ge_truthy in Hc' as (s & Hs & Ht); [|lia].
    by rewrite (Hkeep _ _ Hs Ht), <- Hs.
Qed.

(** The key a control of a step of the flow writes. *)
Lemma has_control_key (a0 a : Answers) (stepObj : Step) (key value : string) :
  stepObj ∈ computeFlow a0 → has_control a stepObj key value = true →
  key = step_id stepObj ∨ key = "design_category".
Proof.
  intros Hin. destruct (flow_kind_id a0 stepObj Hin) as [_ Hk].
  unfold has_control. destruct (kind stepObj).
  - intros H. apply andb_prop in H as [H _]. apply String.eqb_eq in H. by left.
  - intros H. apply orb_prop in H as [H|H]; apply andb_prop in H as [H _];
      apply String.eqb_eq in H as ->; [by right | by left].
  - intros H. apply String.eqb_eq in H as ->. by left.
  - intros H. apply String.eqb_eq in H as ->. by left.
  - intros H. apply String.eqb_eq in H as ->. by left.
  - discriminate.
Qed.

Lemma applyFreeformToStep_key (a0 : Answers) (stepObj : Step) (raw : string) (st : Store) :
  stepObj ∈ computeFlow a0 →
  keeps_truthy st (applyFreeformToStep stepObj raw st)
  ∨ ∃ value, keeps_truthy (setAnswer (step_id stepObj) value st)
               (applyFreeformToStep stepObj raw st).
Proof.
  intros Hin. destruct (flow_kind_id a0 stepObj Hin) as [_ Hk].
  unfold applyFreeformToStep. cbv zeta. destruct (kind stepObj).
  - destruct (bestOptionMatch _ _) as [best|]; [|left; apply keeps_truthy_refl].
    destruct (Js.truthy best); [|left; apply keeps_truthy_refl].
    right. exists best. apply refreshPreview_keeps_all.
  - destruct (bestOptionMatch _ _) as [best|]; [|left; apply keeps_truthy_refl].
    destruct (Js.truthy best); [|left; apply keeps_truthy_refl].
    destruct (List.find _ CARD_DESIGNS) as [d|].
    + right. exists (design_id d). rewrite Hk. apply refreshPreview_keeps_all.
    + left. apply refreshPreview_keeps_all.
  - right. eexists. rewrite Hk. apply refreshPreview_keeps_all.
  - right. eexists. rewrite Hk. apply refreshPreview_keeps_all.
  - right. eexists. rewrite Hk. apply keeps_truthy_refl.
  - left. apply keeps_truthy_refl.
Qed.

(** What an event does to the answers, as far as the gates can tell. *)
Lemma handle_step_write (CONDITION : Condition) (e : Event) (s : State) :
  currentStep (handle CONDITION e s) = 0%nat
  ∨ keeps_truthy (store s) (store (handle CONDITION e s))
  ∨ ∃ stepObj key value,
      shown_step s = Some stepObj
      ∧ (key = step_id stepObj ∨ key = "design_category")
      ∧ keeps_truthy (setAnswer key value (store s)) (store (handle CONDITION e s))
      ∧ currentStep (handle CONDITION e s) = currentStep s.
Proof.
  destruct e as [t0 t1|t0 t1|t0 t1|key value|m|raw|form now ok]; cbn [handle].
  - left. unfold onStart. cbv zeta. by rewrite renderStep_currentStep.
  - right. left. unfold onNext. cbv zeta.
    destruct (computeFlow _ !! _); [|apply keeps_truthy_refl].
    destruct (negb _); [apply keeps_truthy_refl|].
    intros k v Hk Hv. by apply (renderStep_keeps CONDITION t1 _ k v).
  - right. left. unfold onBack. destruct (currentStep s); [apply keeps_truthy_refl|].
    cbv zeta.
    intros k v Hk Hv. by apply (renderStep_keeps CONDITION t1 _ k v).
  - unfold onManual. destruct (rendered_step s) as [stepObj|] eqn:Hr;
      [|right; left; apply keeps_truthy_refl].
    destruct (has_control (answers (store s)) stepObj key value) eqn:Hc; cbn [negb];
      [|right; left; apply keeps_truthy_refl].
    destruct (negb _); [right; left; apply keeps_truthy_refl|].
    apply rendered_step_shown in Hr.
    right. right. exists stepObj, key, value. split; [exact Hr|]. split.
    { apply (has_control_key (answers (store s)) _ _ _ _ (shown_step_elem _ _ Hr) Hc). }
    split; [|reflexivity]. state_simpl.
    destruct (String.eqb key "r1_msg");
      [apply keeps_truthy_refl | apply refreshPreview_keeps_all].
  - right. left. unfold onSwitchMethod.
    destruct CONDITION; try apply keeps_truthy_refl.
    destruct (rendered_step s); [|apply keeps_truthy_refl].
    state_simpl. apply refreshPreview_keeps_all.
  - unfold onFreeform. destruct (rendered_step s) as [stepObj|] eqn:Hr;
      [|right; left; apply keeps_truthy_refl].
    cbv zeta. destruct (_ && _); [|right; left; apply keeps_truthy_refl].
    apply rendered_step_shown in Hr. state_simpl.
    destruct (applyFreeformToStep_key (answers (store s)) stepObj (Js.trim raw) (store s)
                (shown_step_elem _ _ Hr)) as [Hkeep | [value Hkeep]].
    + right. left. exact Hkeep.
    + right. right. exists stepObj, (step_id stepObj), value.
      split; [exact Hr|]. split; [by left|]. split; [exact Hkeep | reflexivity].
  - right. left. destruct (submitDisabled s); [apply keeps_truthy_refl|].
    unfold onSubmitSurvey. cbv zeta. destruct (negb _); [apply keeps_truthy_refl|].
    unfold writeFinal. destruct ok; apply keeps_truthy_refl.
Qed.

(** The step index goes up only through the gate. *)
Lemma handle_advance (CONDITION : Condition) (e : Event) (s : State) :
  (currentStep (handle CONDITION e s) ≤ currentStep s)%nat
  ∨ (currentStep (handle CONDITION e s) = S (currentStep s)
     ∧ ∃ stepObj, shown_step s = Some stepObj
                  ∧ isStepComplete (answers (store s)) stepObj = true).
Proof.
  destruct e as [t0 t1|t0 t1|t0 t1|key value|m|raw|form now ok]; cbn [handle].
  - left. unfold onStart. cbv zeta. rewrite renderStep_currentStep. state_simpl. lia.
  - unfold onNext, shown_step. cbv zeta.
    destruct (computeFlow _ !! currentStep s) as [stepObj|] eqn:Hsh; [|left; lia].
    destruct (isStepComplete _ _) eqn:Hc; cbn [negb]; [|left; state_simpl; lia].
    right. rewrite renderStep_currentStep. state_simpl. split; [reflexivity|].
    by exists stepObj.
  - left. unfold onBack. destruct (currentStep s) eqn:Hc; [lia|]. cbv zeta.
    rewrite renderStep_currentStep. state_simpl. lia.
  - left. unfold onManual. destruct (rendered_step s); [|lia].
    destruct (negb _); [lia|]. destruct (negb _); state_simpl; lia.
  - left. unfold onSwitchMethod. destruct CONDITION; try lia.
    destruct (rendered_step s); state_simpl; lia.
  - left. unfold onFreeform. destruct (rendered_step s); [|lia]. cbv zeta.
    destruct (_ && _); state_simpl; lia.
  - left. destruct (submitDisabled s); [lia|].
    unfold onSubmitSurvey. cbv zeta. destruct (negb _); [state_simpl; lia|].
    unfold writeFinal. destruct ok; state_simpl; lia.
Qed.

Lemma handle_flow (CONDITION : Condition) (e : Event) (s : State) :
  computeFlow (answers (store (handle CONDITION e s))) = computeFlow (answers (store s))
  ∨ currentStep (handle CONDITION e s) = 0%nat.
Proof.
  destruct (handle_writes CONDITION e s) as [Hf | (stepObj & v & Hsh & _ & _ & Hf & Hcur)].
  - left. by apply fills_flow.
  - rewrite (fills_flow _ _ Hf), Hcur. by apply choice_write_flow.
Qed.

Lemma handle_passed_complete (CONDITION : Condition) (e : Event) (s : State) :
  passed_complete s → passed_complete (handle CONDITION e s).
Proof.
  intros Hs i y Hi Hy.
  destruct (handle_flow CONDITION e s) as [Hflow | Hz]; [|lia].
  rewrite Hflow in Hy. pose proof (list_elem_of_lookup_2 _ _ _ Hy) as Hin.
  destruct (handle_step_write CONDITION e s)
    as [Hz | [Hkeep | (x & key & value & Hsh & Hkey & Hkeep & Hcur)]]; [lia| |].
  - apply (keeps_complete _ _ _ _ Hkeep Hin).
    destruct (handle_advance CONDITION e s) as [Hle | [Hadv (x & Hsh & Hc)]].
    + apply (Hs i y); [lia | exact Hy].
    + destruct (decide (i = currentStep s)) as [-> | Hne].
      * unfold shown_step in Hsh. rewrite Hsh in Hy. by injection Hy as <-.
      * apply (Hs i y); [lia | exact Hy].
  - rewrite Hcur in Hi. apply (keeps_complete _ _ _ _ Hkeep Hin).
    assert (Hne : step_id y ≠ key).
    { destruct Hkey as [-> | ->].
      - intros Hid. unfold shown_step in Hsh.
        pose proof (flow_ids_distinct _ _ _ _ _ Hy Hsh Hid). lia.
      - apply (flow_kind_id _ _ Hin). }
    assert (Hct : key ≠ "card_type").
    { intros ->. destruct Hkey as [Hid | Hid]; [|discriminate].
      unfold shown_step in Hsh.
      pose proof (flow_card_type_first _ _ _ Hsh (eq_sym Hid)). lia. }
    rewrite (gate_key _ _ (answers (store s)) y Hin).
    + by apply (Hs i y).
    + rewrite setAnswer_other by done. rewrite answers_put. by rewrite lookup_insert_ne.
Qed.

(** ** Flow data, Condition C and pricing *)

(** X16. The flow is well formed: no two steps share an identifier (the
    answers and the input methods are filed under it), and every choice
    step offers at least two options with distinct, non-empty normal
    forms. *)
Theorem computeFlow_well_formed (a : Answers) :
  NoDup (map step_id (computeFlow a))
  ∧ Forall (λ stepObj,
        kind stepObj = choice →
        (2 ≤ length (options stepObj))%nat
        ∧ NoDup (map normalizeText (options stepObj))
        ∧ Forall (λ o, Js.truthy (normalizeText o) = true) (options stepObj))
      (computeFlow a).
Proof.
  split; [apply flow_ids_NoDup|]. apply Forall_forall. intros x Hin Hk.
  split; [|by apply (flow_options_distinct a)].
  destruct (flow_choice_steps a x Hin Hk) as [[_ ->] | _]; [cbn; lia|].
  revert Hin Hk. unfold computeFlow, getConditionalSteps, baseSteps, paymentStep.
  case_decide as Hd; cbn [app]; intros Hin Hk;
    rewrite !elem_of_cons, elem_of_nil in Hin;
    repeat (destruct Hin as [-> | Hin]); try done; cbn in Hk; try discriminate;
    cbn; lia.
Qed.

(** X17. Once the card type is chosen, the table that Condition C
    consults has an entry for exactly the steps of the flow. *)
Theorem condition_C_map_covers_flow (a : Answers) (k : string) :
  a !! "card_type" = Some "Physical" ∨ a !! "card_type" = Some "Digital" →
  is_Some (getConditionCMap a !! k) ↔ k ∈ map step_id (computeFlow a).
Proof.
  intros Hct. rewrite (proj1 (computeFlow_ids a)). unfold getConditionCMap.
  rewrite <- elem_of_dom.
  destruct Hct as [Hct | Hct]; rewrite Hct.
  - rewrite decide_True by done. rewrite decide_False by done.
    unfold CONDITION_C_MAP_PHYSICAL. rewrite dom_list_to_map_L, elem_of_list_to_set.
    unfold prefix_ids, physical_ids. cbn [fmap list_fmap fst app].
    rewrite !elem_of_cons, !elem_of_nil. tauto.
  - rewrite decide_False by done. rewrite decide_True by done.
    unfold CONDITION_C_MAP_DIGITAL. rewrite dom_list_to_map_L, elem_of_list_to_set.
    unfold prefix_ids, digital_ids. cbn [fmap list_fmap fst app].
    rewrite !elem_of_cons, !elem_of_nil. tauto.
Qed.

Lemma condition_C_map_covers_flow_witness :
  is_Some (getConditionCMap digital_only !! "digital_delivery")
  ↔ "digital_delivery" ∈ map step_id (computeFlow digital_only).
Proof.
  apply (condition_C_map_covers_flow digital_only "digital_delivery").
  right. reflexivity.
Defined.

(** X19. Only six answers bear on the price: setting any other one
    leaves it as it is. *)
Theorem computePrice_frame (st : Store) (k v : string) :
  k ∉ pricing_keys →
  (fst (computePrice (setAnswer k v st)) == fst (computePrice st))%Q.
Proof.
  unfold pricing_keys. rewrite !not_elem_of_cons. intros (Hct & He & Hq & Ha & Hp & Hs & _).
  rewrite (proj1 (computePrice_total (setAnswer k v st))), (proj1 (computePrice_total st)).
  rewrite setAnswer_other by done. rewrite answers_put.
  unfold total_of, quantity_of, amount_of.
  rewrite !lookup_insert_ne by done. reflexivity.
Qed.

Lemma computePrice_frame_witness :
  (fst (computePrice (setAnswer "variant" "Reloadable" physical_example))
   == fst (computePrice physical_example))%Q.
Proof.
  apply computePrice_frame. unfold pricing_keys. rewrite !not_elem_of_cons.
  repeat split; try discriminate. apply not_elem_of_nil.
Defined.

Lemma or_default_Some_truthy (s d : string) :
  Js.truthy s = true → Js.or_default (Some s) d = s.
Proof. intros H. unfold Js.or_default. by rewrite H. Qed.

Lemma total_of_with_totals (n m : Z) (st : Store) :
  1 ≤ n ≤ 10 → 5 ≤ m ≤ 2000 →
  total_of (answers (with_totals n m st))
  = (inject_Z (n * m)
     + expiry_premium (answers st !! "expiry")
     + physical_addons (answers st !! "card_type") (answers st !! "packaging")
         (answers st !! "shipping_method"))%Q.
Proof.
  intros Hn Hm. unfold with_totals, total_of, quantity_of, amount_of.
  rewrite !setAnswer_other by discriminate. rewrite !answers_put.
  rewrite lookup_insert_eq. rewrite (lookup_insert_ne _ "r1_amt" "r1_qty") by discriminate.
  rewrite lookup_insert_eq. rewrite !lookup_insert_ne by discriminate.
  rewrite !or_default_Some_truthy by apply String_of_Z_truthy.
  by rewrite quantity_canonical, amount_canonical.
Qed.

(** X20. The price does not go down when the quantity or the amount
    goes up, within their ranges. *)
Theorem computePrice_monotone_totals (st : Store) (n n' m m' : Z) :
  1 ≤ n → n ≤ n' → n' ≤ 10 → 5 ≤ m → m ≤ m' → m' ≤ 2000 →
  (fst (computePrice (with_totals n m st))
   <= fst (computePrice (with_totals n' m' st)))%Q.
Proof.
  intros H1 H2 H3 H4 H5 H6.
  rewrite (proj1 (computePrice_total (with_totals n m st))),
          (proj1 (computePrice_total (with_totals n' m' st))).
  apply Math_max_mono. rewrite !total_of_with_totals by lia.
  assert (Hle : (inject_Z (n * m) <= inject_Z (n' * m'))%Q).
  { rewrite <- Zle_Qle. nia. }
  lra.
Qed.

Lemma computePrice_monotone_totals_witness :
  (fst (computePrice (with_totals 2 25 empty_store))
   <= fst (computePrice (with_totals 3 40 empty_store)))%Q.
Proof. apply computePrice_monotone_totals; lia. Defined.

(** ** HTML escaping: properties *)

Lemma flat_map_flat_map {X Y Z' : Type} (f : X → list Y) (g : Y → list Z') (l : list X) :
  flat_map g (flat_map f l) = flat_map (λ x, flat_map g (f x)) l.
Proof.
  induction l as [|x l IH]; [reflexivity|]. cbn [flat_map].
  by rewrite flat_map_app, IH.
Qed.

Lemma escape_char_steps (c : ascii) :
  flat_map (λ c, if ascii_dec c "'" then Js.chars "&#039;" else [c])
    (flat_map (λ c, if ascii_dec c dquote then Js.chars "&quot;" else [c])
       (flat_map (λ c, if ascii_dec c ">" then Js.chars "&gt;" else [c])
          (flat_map (λ c, if ascii_dec c "<" then Js.chars "&lt;" else [c])
             (if ascii_dec c "&" then Js.chars "&amp;" else [c]))))
  = escape_char c.
Proof. each_char c; vm_compute; reflexivity. Qed.

(** The five replacements in a row come to one pass over the text. *)
Lemma escapeHtml_one_pass (s : string) :
  escapeHtml s = Js.str (flat_map escape_char (Js.chars s)).
Proof.
  unfold escapeHtml, replaceAll. rewrite !chars_str. f_equal.
  rewrite !flat_map_flat_map. apply flat_map_ext. intros c.
  rewrite <- (escape_char_steps c). by rewrite !flat_map_flat_map.
Qed.

Lemma escape_char_safe (c : ascii) :
  forallb (λ x, negb (html_special x)) (escape_char c) = true.
Proof. each_char c; vm_compute; reflexivity. Qed.

(** X22. The result of [escapeHtml] holds none of the characters [<],
    [>], the double quote and the single quote. *)
Theorem escapeHtml_safe (s : string) (c : ascii) :
  c ∈ Js.chars (escapeHtml s) → html_special c = false.
Proof.
  rewrite escapeHtml_one_pass, chars_str. intros Hin.
  apply list_elem_of_In, in_flat_map in Hin as (x & _ & Hc).
  pose proof (escape_char_safe x) as Hs. rewrite forallb_forall in Hs.
  apply negb_true_iff. by apply Hs.
Qed.

Lemma escapeHtml_safe_witness :
  html_special "a" = false.
Proof.
  apply (escapeHtml_safe "<a href='x'>" "a").
  vm_compute. elem_of_solve.
Defined.

Lemma escape_char_cases (c : ascii) :
  (escape_char c = [c] ∧ c ≠ "&"%char)
  ∨ (c = "&"%char ∧ escape_char c = Js.chars "&amp;")
  ∨ (c = "<"%char ∧ escape_char c = Js.chars "&lt;")
  ∨ (c = ">"%char ∧ escape_char c = Js.chars "&gt;")
  ∨ (c = dquote ∧ escape_char c = Js.chars "&quot;")
  ∨ (c = "'"%char ∧ escape_char c = Js.chars "&#039;").
Proof.
  unfold escape_char.
  repeat (destruct (ascii_dec c _) as [-> | ?]; [vm_compute; tauto|]).
  left. split; [reflexivity | done].
Qed.

Lemma escape_chars_injective (l l' : list ascii) :
  flat_map escape_char l = flat_map escape_char l' → l = l'.
Proof.
  revert l'. induction l as [|a l IH]; intros [|b l'] Heq; cbn [flat_map] in Heq.
  - reflexivity.
  - exfalso. destruct (escape_char_cases b) as [[Hb _] | [[_ Hb] | [[_ Hb] | [[_ Hb] |
      [[_ Hb] | [_ Hb]]]]]]; rewrite Hb in Heq; discriminate Heq.
  - exfalso. destruct (escape_char_cases a) as [[Ha _] | [[_ Ha] | [[_ Ha] | [[_ Ha] |
      [[_ Ha] | [_ Ha]]]]]]; rewrite Ha in Heq; discriminate Heq.
  - assert (Hab : a = b ∧ flat_map escape_char l = flat_map escape_char l').
    { destruct (escape_char_cases a) as [[Ha Hna] | [[-> Ha] | [[-> Ha] | [[-> Ha] |
        [[-> Ha] | [-> Ha]]]]]];
      destruct (escape_char_cases b) as [[Hb Hnb] | [[-> Hb] | [[-> Hb] | [[-> Hb] |
        [[-> Hb] | [-> Hb]]]]]];
      rewrite ?Ha, ?Hb in Heq; cbn [Js.chars list_ascii_of_string app] in Heq;
      try (injection Heq; intros; subst; first [done | split; [reflexivity|assumption]]);
      try discriminate Heq. }
    destruct Hab as [-> Hrest]. f_equal. by apply IH.
Qed.

(** X23. [escapeHtml] loses nothing: two texts with the same escaped
    form are the same text. *)
Theorem escapeHtml_injective (s t : string) :
  escapeHtml s = escapeHtml t → s = t.
Proof.
  rewrite !escapeHtml_one_pass. intros Heq.
  apply (f_equal Js.chars) in Heq. rewrite !chars_str in Heq.
  apply escape_chars_injective in Heq.
  by rewrite <- (str_chars s), <- (str_chars t), Heq.
Qed.

Lemma escapeHtml_injective_witness : "a<b" = "a<b".
Proof. apply escapeHtml_injective. reflexivity. Defined.

(** ** Condition selection and hints: properties *)

Lemma condition_letter_name (c : Condition) :
  condition_letter (toUpperCase (condition_name c)) = Some c.
Proof. by destruct c. Qed.

(** X24. The assignment sticks: a second call of [getCondition], on the
    address and the storage the first call left, returns the same
    condition and changes nothing. *)
Theorem getCondition_sticky (loc : Location) (stored : option string) :
  getCondition (snd (fst (getCondition loc stored))) (snd (getCondition loc stored))
  = getCondition loc stored.
Proof.
  unfold getCondition at 2 3 4. cbv zeta.
  destruct (condition_letter (trim_units (toUpperCase (or_else (param_cond loc) _))))
    as [c|] eqn:Hq.
  - cbn [fst snd]. by destruct c.
  - destruct (condition_letter (trim_units (toUpperCase (Js.str _)))) as [c|] eqn:Hh.
    + cbn [fst snd]. by destruct c.
    + destruct (condition_letter (toUpperCase (or_else stored ""))) as [c|] eqn:He;
        cbn [fst snd]; unfold getCondition; cbv zeta; rewrite Hq, Hh.
      * by rewrite He.
      * reflexivity.
Qed.

(** X25. A condition named in the query string wins over the fragment
    and over what is stored; it is stored, and the address is cleared. *)
Theorem getCondition_query_wins
    (loc : Location) (stored : option string) (v : string) (c : Condition) :
  or_else (param_cond loc) (or_else (param_condition loc) (or_else (param_c loc) "")) = v →
  condition_letter (trim_units (toUpperCase v)) = Some c →
  getCondition loc stored = (c, plain_location, Some (condition_name c)).
Proof.
  intros Hv Hc. unfold getCondition. cbv zeta. by rewrite Hv, Hc.
Qed.

Lemma getCondition_query_wins_witness :
  getCondition (mkLocation (Some "") None (Some " b ") "#C") (Some "A")
  = (B, plain_location, Some "B").
Proof.
  apply (getCondition_query_wins _ _ " b " B); reflexivity.
Defined.

(** X26. The hints of Conditions B and C are the same function of the
    input method and the step, and those of Condition A do not depend
    on the input method. *)
Theorem inputHintForStep_conditions (m m' : Modality) (stepObj : Step) :
  inputHintForStep B m stepObj = inputHintForStep C m stepObj
  ∧ inputHintForStep A m stepObj = inputHintForStep A m' stepObj.
Proof. split; reflexivity. Qed.

(** X27. [cssEscape] leaves a text without a double quote as it is, the
    names of the six Likert items among them, which [collectSurvey]
    passes through it. *)
Theorem cssEscape_plain (s : string) :
  dquote ∉ Js.chars s → cssEscape s = s.
Proof.
  intros Hq. unfold cssEscape, replaceAll.
  rewrite <- (str_chars s) at 2. f_equal.
  induction (Js.chars s) as [|c l IH]; [reflexivity|]. cbn [flat_map].
  apply not_elem_of_cons in Hq as [Hc Hl].
  destruct (ascii_dec c dquote) as [->|_]; [done|]. cbn [app]. f_equal. by apply IH.
Qed.

Lemma cssEscape_plain_witness : Forall (λ id, cssEscape id = id) likertIds.
Proof.
  unfold likertIds.
  repeat (apply Forall_cons; split;
          [apply cssEscape_plain; apply (bool_decide_unpack _); vm_compute; reflexivity|]).
  apply Forall_nil. exact I.
Defined.

(** ** The page: orderly inputs and the handlers *)

Ltac page_simpl :=
  cbn [globals wired recognizers writes surveyWired set_globals set_recognizers set_writes].

Lemma globals_rendered (s : State) (w : Page) : globals (rendered s w) = s.
Proof. unfold rendered. by destruct (shown_step s). Qed.

(** An orderly input does to the globals what an event of [handle]
    does, or nothing, or it is one of the two halves of a submission. *)
Lemma react_orderly (CONDITION : Condition) (i : Input) (w : Page) :
  no_voice_under_A CONDITION w → orderly_at i w →
  (∃ e, globals (react CONDITION i w) = handle CONDITION e (globals w))
  ∨ globals (react CONDITION i w) = globals w
  ∨ (∃ form now, i = SubmitClick form now)
  ∨ (∃ ok, i = WriteSettled ok).
Proof.
  intros Hvoice Hord.
  destruct i as [t0 t1|t0 t1|t0 t1|key value|m|raw| |i raw|form now|ok]; cbn [react].
  - left. exists (Start t0 t1). by rewrite globals_rendered.
  - left. exists (Next t0 t1). destruct (navigates _ _); [by rewrite globals_rendered|done].
  - left. exists (Back t0 t1). destruct (navigates _ _); [by rewrite globals_rendered|done].
  - left. exists (Manual key value). cbn [handle orderly_at] in *.
    unfold control_input, onManual. rewrite <- Hord.
    destruct (wired w); [|done]. cbv zeta.
    destruct (negb (has_control _ _ _ _)); [done|]. by destruct (negb _).
  - left. exists (SwitchMethod m). cbn [handle orderly_at] in *.
    unfold method_click, onSwitchMethod. rewrite <- Hord.
    destruct CONDITION; try done. by destruct (wired w).
  - cbn [orderly_at] in Hord. unfold chat_send, pane.
    destruct CONDITION; [by right; left| |].
    all: case_bool_decide as Hm; [|by right; left].
    all: destruct (wired w) as [stepObj|] eqn:Hw; [|by right; left].
    all: left; exists (Freeform raw); cbn [handle]; unfold onFreeform;
         rewrite <- Hord; cbv zeta; rewrite Hm; cbn [negb andb];
         rewrite bool_decide_eq_false_2 by discriminate; cbn [negb andb];
         by destruct (Js.truthy _).
  - right. left. unfold voice_start. by destruct (pane _ _ _).
  - cbn [orderly_at] in Hord. unfold voice_result.
    destruct (recognizers w !! i) as [stepObj|] eqn:Hi; [|by right; left].
    destruct (Hord stepObj eq_refl) as [Hr Hm].
    assert (Hc : CONDITION ≠ A).
    { intros HA. rewrite (Hvoice HA) in Hi. discriminate. }
    left. exists (Freeform raw). cbn [handle]. unfold onFreeform. rewrite Hr. cbv zeta.
    page_simpl. rewrite Hm.
    destruct CONDITION; [done| |];
      rewrite bool_decide_eq_false_2 by discriminate; cbn [negb andb];
      by destruct (Js.truthy _).
  - right. right. left. by exists form, now.
  - right. right. right. by exists ok.
Qed.

(** The two halves of a submission leave the core of the globals as it
    is. *)
Lemma submission_core (CONDITION : Condition) (w : Page) :
  (∀ form now, core (globals (submit_click CONDITION form now w)) = core (globals w))
  ∧ (∀ ok, core (globals (write_settled ok w)) = core (globals w)).
Proof.
  split.
  - intros form now. unfold submit_click. destruct (_ || _); [done|]. cbv zeta.
    by destruct (negb _).
  - intros ok. unfold write_settled. destruct (writes w); [done|]. by destruct ok.
Qed.

Lemma react_no_voice_under_A (CONDITION : Condition) (i : Input) (w : Page) :
  no_voice_under_A CONDITION w → no_voice_under_A CONDITION (react CONDITION i w).
Proof.
  intros Hvoice HA. specialize (Hvoice HA).
  destruct i as [t0 t1|t0 t1|t0 t1|key value|m|raw| |i raw|form now|ok]; cbn [react].
  - unfold rendered. by destruct (shown_step _).
  - destruct (navigates _ _); [|done]. unfold rendered. by destruct (shown_step _).
  - destruct (navigates _ _); [|done]. unfold rendered. by destruct (shown_step _).
  - unfold control_input. destruct (wired w); [|done]. cbv zeta.
    destruct (negb (has_control _ _ _ _)); [done|]. by destruct (negb _).
  - unfold method_click. by destruct CONDITION, (wired w).
  - unfold chat_send. destruct (pane _ _ _); [|done]. cbv zeta. by destruct (Js.truthy _).
  - unfold voice_start, pane. by rewrite HA.
  - unfold voice_result. rewrite Hvoice. done.
  - unfold submit_click. destruct (_ || _); [done|]. cbv zeta. by destruct (negb _).
  - unfold write_settled. by destruct (writes w).
Qed.

Lemma play_cons (CONDITION : Condition) (i : Input) (inputs : list Input) (w : Page) :
  play CONDITION (i :: inputs) w = play CONDITION inputs (react CONDITION i w).
Proof. reflexivity. Qed.

(** An invariant of the handlers that only looks at the core of the
    globals is kept by every orderly input, and so holds after every
    orderly run of the page. *)
Lemma react_invariant (CONDITION : Condition) (I : State → Prop) :
  (∀ e s, I s → I (handle CONDITION e s)) →
  (∀ s s', core s' = core s → I s → I s') →
  ∀ i w, no_voice_under_A CONDITION w → orderly_at i w →
    I (globals w) → I (globals (react CONDITION i w)).
Proof.
  intros Hstep Hcore i w Hvoice Hi Hw.
  destruct (react_orderly CONDITION i w Hvoice Hi)
    as [[e ->] | [-> | [(form & now & ->) | [ok ->]]]].
  - by apply Hstep.
  - exact Hw.
  - apply (Hcore (globals w)); [|exact Hw].
    apply (proj1 (submission_core CONDITION w)).
  - apply (Hcore (globals w)); [|exact Hw].
    apply (proj2 (submission_core CONDITION w)).
Qed.

Lemma play_invariant (CONDITION : Condition) (I : State → Prop) :
  (∀ e s, I s → I (handle CONDITION e s)) →
  (∀ s s', core s' = core s → I s → I s') →
  ∀ inputs w, no_voice_under_A CONDITION w → orderly CONDITION inputs w →
    I (globals w) → I (globals (play CONDITION inputs w)).
Proof.
  intros Hstep Hcore inputs.
  induction inputs as [|i inputs IH]; intros w Hvoice Hord Hw; [exact Hw|].
  destruct Hord as [Hi Hord]. rewrite play_cons.
  apply IH; [by apply react_no_voice_under_A | exact Hord|].
  by apply react_invariant.
Qed.

Lemma initial_no_voice (CONDITION : Condition) : no_voice_under_A CONDITION initial_page.
Proof. by intros _. Qed.

(** ** The page: invariants of orderly runs *)

Lemma core_eq (s s' : State) :
  core s' = core s →
  store s' = store s ∧ currentStep s' = currentStep s
  ∧ stepEnteredAt s' = stepEnteredAt s ∧ currentInputMethod s' = currentInputMethod s
  ∧ input_method_by_step (session s') = input_method_by_step (session s)
  ∧ log s' = log s.
Proof. unfold core, log. intros [= -> -> -> -> -> ->]. done. Qed.

Lemma orderly_store_invariant (CONDITION : Condition) (I : Store → Prop) :
  (∀ e s, I (store s) → I (store (handle CONDITION e s))) →
  I empty_store →
  ∀ inputs, orderly CONDITION inputs initial_page →
    I (store (globals (play CONDITION inputs initial_page))).
Proof.
  intros Hstep Hinit inputs Hord.
  apply (play_invariant CONDITION (λ s, I (store s))); try done.
  intros s s' Hc. apply core_eq in Hc as (-> & _). done.
Qed.

Lemma initial_branch_clean : branch_clean (answers empty_store).
Proof.
  unfold branch_clean, empty_store. cbn [answers].
  rewrite !lookup_empty. repeat split; auto.
Qed.

Lemma orderly_digital_checkout : orderly A digital_checkout initial_page.
Proof.
  unfold digital_checkout. cbn [orderly orderly_at].
  repeat split; vm_compute; reflexivity.
Qed.

Lemma orderly_digital_session : orderly A digital_session initial_page.
Proof.
  unfold digital_session, digital_checkout. cbn [List.app orderly orderly_at].
  repeat split; vm_compute; reflexivity.
Qed.

(** X2. In every orderly run of the page the store holds no answer of
    the branch that the card type excludes. *)
Theorem orderly_branch_clean (CONDITION : Condition) (inputs : list Input) :
  orderly CONDITION inputs initial_page →
  branch_clean (answers (store (globals (play CONDITION inputs initial_page)))).
Proof.
  apply (orderly_store_invariant CONDITION (λ st, branch_clean (answers st))).
  - intros e s. apply handle_branch_clean.
  - apply initial_branch_clean.
Qed.

Lemma orderly_branch_clean_witness :
  branch_clean (answers (store (globals (play A digital_checkout initial_page)))).
Proof. exact (orderly_branch_clean A digital_checkout orderly_digital_checkout). Defined.

(** Without the condition it fails: a transcript that comes late puts a
    digital delivery next to the card type "Physical". *)
Lemma late_transcript_mixes_branches :
  answers (store (globals (play B late_delivery initial_page))) !! "card_type"
  = Some "Physical"
  ∧ answers (store (globals (play B late_delivery initial_page))) !! "digital_delivery"
    = Some "Email"
  ∧ ¬ branch_clean (answers (store (globals (play B late_delivery initial_page)))).
Proof.
  set (a := answers (store (globals (play B late_delivery initial_page)))).
  assert (H1 : a !! "card_type" = Some "Physical") by (vm_compute; reflexivity).
  assert (H2 : a !! "digital_delivery" = Some "Email") by (vm_compute; reflexivity).
  clearbody a. split; [exact H1|]. split; [exact H2|].
  intros (_ & _ & Hphys & _).
  assert (Hd : a !! "digital_delivery" = None) by (apply Hphys; congruence).
  congruence.
Qed.

(** X3. In every orderly run of the page the step index stays within
    the flow of the current answers, the position just past the last
    step included. *)
Theorem orderly_in_flow (CONDITION : Condition) (inputs : list Input) :
  orderly CONDITION inputs initial_page →
  (currentStep (globals (play CONDITION inputs initial_page))
   ≤ length (computeFlow
               (answers (store (globals (play CONDITION inputs initial_page))))))%nat.
Proof.
  intros Hord.
  apply (play_invariant CONDITION in_flow); try done.
  - intros e s. apply handle_in_flow.
  - intros s s' Hc. apply core_eq in Hc as (Hst & Hcur & _).
    unfold in_flow. by rewrite Hst, Hcur.
  - unfold in_flow, initial_page, initial_state. cbn [globals currentStep]. lia.
Qed.

Lemma orderly_in_flow_witness :
  (currentStep (globals (play A digital_checkout initial_page))
   ≤ length (computeFlow (answers (store (globals (play A digital_checkout initial_page))))))%nat.
Proof. exact (orderly_in_flow A digital_checkout orderly_digital_checkout). Defined.

Lemma play_method_inv (CONDITION : Condition) (inputs : list Input) :
  orderly CONDITION inputs initial_page →
  method_inv CONDITION (globals (play CONDITION inputs initial_page)).
Proof.
  intros Hord.
  apply (play_invariant CONDITION (method_inv CONDITION)); try done.
  - intros e s. apply handle_method.
  - intros s s' Hc. apply core_eq in Hc as (Hst & Hcur & Hen & Hm & Hi & _).
    by apply method_inv_ext.
  - destruct CONDITION; unfold method_inv, rendered_step, initial_page, initial_state;
      cbn [globals stepEnteredAt currentInputMethod session input_method_by_step
           initial_session]; try done.
Qed.

(** X5. In every orderly run of the page the recorded input methods
    agree with the condition. *)
Theorem orderly_method_inv (CONDITION : Condition) (inputs : list Input) :
  orderly CONDITION inputs initial_page →
  method_inv CONDITION (globals (play CONDITION inputs initial_page)).
Proof. apply play_method_inv. Qed.

Lemma orderly_method_inv_witness :
  method_inv C (globals (play C [StartClick 1 2; VoiceStart; VoiceResult 0 "digital";
                             NextClick 3 4] initial_page)).
Proof.
  apply orderly_method_inv. cbn [orderly orderly_at].
  split; [exact I|]. split; [vm_compute; reflexivity|]. split.
  - intros stepObj. vm_compute. intros [= <-]. split; reflexivity.
  - split; exact I.
Defined.

(** X15. In every orderly run of the page, every step of the flow
    before the current one is complete; so when the wizard has gone past
    the last step, all the steps of the flow then in force are. *)
Theorem orderly_passed_steps_complete (CONDITION : Condition) (inputs : list Input) :
  orderly CONDITION inputs initial_page →
  passed_complete (globals (play CONDITION inputs initial_page))
  ∧ (currentStep (globals (play CONDITION inputs initial_page))
     = length (computeFlow (answers (store (globals (play CONDITION inputs initial_page))))) →
     Forall (λ stepObj,
         isStepComplete (answers (store (globals (play CONDITION inputs initial_page))))
           stepObj = true)
       (computeFlow (answers (store (globals (play CONDITION inputs initial_page)))))).
Proof.
  intros Hord.
  assert (Hp : passed_complete (globals (play CONDITION inputs initial_page))).
  { apply (play_invariant CONDITION passed_complete); try done.
    - intros e s. apply handle_passed_complete.
    - intros s s' Hc. apply core_eq in Hc as (Hst & Hcur & _).
      unfold passed_complete. by rewrite Hst, Hcur.
    - intros i y Hi. unfold initial_page, initial_state in Hi.
      cbn [globals currentStep] in Hi. lia. }
  split; [exact Hp|]. intros Hend. apply Forall_lookup. intros i y Hy.
  apply (Hp i y); [|exact Hy]. rewrite Hend. by apply lookup_lt_Some in Hy.
Qed.

Lemma orderly_passed_steps_complete_witness :
  Forall (λ stepObj,
      isStepComplete (answers (store (globals (play A digital_checkout initial_page))))
        stepObj = true)
    (computeFlow (answers (store (globals (play A digital_checkout initial_page))))).
Proof.
  apply (orderly_passed_steps_complete A digital_checkout orderly_digital_checkout).
  vm_compute. reflexivity.
Defined.

(** X18. Condition C locks the modality: in every orderly run, while
    the table in force gives the step on screen a modality other than
    standard, a click or a keystroke on the controls changes nothing;
    while it gives one other than chat, a chat message changes nothing;
    while it gives one other than voice, no recognizer starts. *)
Theorem condition_C_locks_orderly (inputs : list Input) (stepObj : Step) :
  orderly C inputs initial_page →
  rendered_step (globals (play C inputs initial_page)) = Some stepObj →
  (default standard
     (getConditionCMap (answers (store (globals (play C inputs initial_page))))
        !! step_id stepObj) ≠ standard →
   ∀ key value, react C (Control key value) (play C inputs initial_page)
                = play C inputs initial_page)
  ∧ (default standard
       (getConditionCMap (answers (store (globals (play C inputs initial_page))))
          !! step_id stepObj) ≠ chat →
     ∀ raw, react C (ChatSend raw) (play C inputs initial_page)
            = play C inputs initial_page)
  ∧ (default standard
       (getConditionCMap (answers (store (globals (play C inputs initial_page))))
          !! step_id stepObj) ≠ voice →
     react C VoiceStart (play C inputs initial_page) = play C inputs initial_page).
Proof.
  intros Hord Hr.
  pose proof (play_method_inv C inputs Hord) as Hm.
  destruct (Hm stepObj Hr) as [_ Htab]. rewrite <- Htab. split; [|split].
  - intros Hne key value. cbn [react]. unfold control_input.
    destruct (wired _); [|reflexivity]. cbv zeta.
    destruct (negb (has_control _ _ _ _)); [reflexivity|].
    unfold isManualInputAllowedForCurrentStep. by rewrite bool_decide_eq_false_2.
  - intros Hne raw. cbn [react]. unfold chat_send, pane.
    by rewrite bool_decide_eq_false_2.
  - intros Hne. cbn [react]. unfold voice_start, pane.
    by rewrite bool_decide_eq_false_2.
Qed.

Lemma condition_C_locks_orderly_witness :
  react C (Control "card_type" "Digital") (play C [StartClick 1 2] initial_page)
  = play C [StartClick 1 2] initial_page.
Proof.
  assert (Hord : orderly C [StartClick 1 2] initial_page) by (split; exact I).
  refine (proj1 (condition_C_locks_orderly [StartClick 1 2]
                   (step "card_type" "Select Card Type" true choice ["Physical"; "Digital"])
                   Hord eq_refl) _ "card_type" "Digital").
  vm_compute. discriminate.
Defined.

(** X21. In every orderly run a switch of the card type hides the
    price: with the other branch's card type in the store, choosing
    "Physical" or "Digital" leaves [canShowPrice] false, because the new
    branch has no answers yet. *)
Theorem switch_hides_price_orderly
    (CONDITION : Condition) (inputs : list Input) (v : string) :
  orderly CONDITION inputs initial_page →
  (answers (store (globals (play CONDITION inputs initial_page))) !! "card_type"
   = Some "Digital" ∧ v = "Physical")
  ∨ (answers (store (globals (play CONDITION inputs initial_page))) !! "card_type"
     = Some "Physical" ∧ v = "Digital") →
  canShowPrice
    (answers (setAnswer "card_type" v (store (globals (play CONDITION inputs initial_page)))))
  = false.
Proof.
  intros Hord.
  assert (Hb : branch_clean (answers (store (globals (play CONDITION inputs initial_page))))).
  { revert Hord.
    apply (orderly_store_invariant CONDITION (λ st, branch_clean (answers st))).
    - intros e s. apply handle_branch_clean.
    - apply initial_branch_clean. }
  destruct Hb as (_ & Hdig & Hphys & _ & _).
  intros [[Hct ->] | [Hct ->]]; rewrite setAnswer_answers; unfold canShowPrice; cbv zeta.
  - destruct (Hdig Hct) as [Hp _].
    rewrite decide_True by done. rewrite decide_False by done. rewrite decide_True by done.
    simplify_map_eq. cbn [Js.present Js.truthy negb].
    destruct (negb (Js.present _)); [reflexivity|].
    destruct (_ || _); [reflexivity|]. by rewrite Hp.
  - assert (Hd : answers (store (globals (play CONDITION inputs initial_page)))
                   !! "digital_delivery" = None) by (apply Hphys; congruence).
    rewrite decide_True by done. rewrite decide_True by done.
    simplify_map_eq. cbn [Js.present Js.truthy negb].
    destruct (negb (Js.present _)); [reflexivity|].
    destruct (_ || _); [reflexivity|]. by rewrite Hd.
Qed.

Lemma switch_hides_price_orderly_witness :
  canShowPrice
    (answers (setAnswer "card_type" "Physical"
                (store (globals (play A digital_checkout initial_page)))))
  = false.
Proof.
  apply (switch_hides_price_orderly A digital_checkout "Physical"
           orderly_digital_checkout).
  left. split; [vm_compute; reflexivity | reflexivity].
Defined.

(** The two halves of a submission, one right after the other, are
    [onSubmitSurvey]. *)
Lemma submission_halves
    (CONDITION : Condition) (form : SurveyForm) (now : Z) (ok : bool) (w : Page) :
  surveyWired w = true → submitDisabled (globals w) = false → writes w = 0%nat →
  globals (if validateSurvey (collectSurvey form)
       then write_settled ok (submit_click CONDITION form now w)
       else submit_click CONDITION form now w)
  = onSubmitSurvey CONDITION form now ok (globals w).
Proof.
  intros Hs Hd Hw. unfold submit_click, write_settled, onSubmitSurvey, writeFinal.
  rewrite Hs, Hd. cbn [negb orb]. cbv zeta.
  destruct (validateSurvey _); cbn [negb]; [|reflexivity].
  page_simpl. by destruct ok.
Qed.

(** X8. A click on the submit button with a valid survey, while the
    button is wired and enabled, stores the survey and the time in the
    session and starts one write, whose record carries the session and
    [session.answers]; the button stays enabled. When that write is
    answered the status line reads "Submitted. Thank you!", also after a
    failure, the button is disabled, and from then on a click on it
    does nothing. *)
Theorem submit_click_then_settled
    (CONDITION : Condition) (form : SurveyForm) (now : Z) (ok : bool) (w : Page) :
  validateSurvey (collectSurvey form) = true →
  surveyWired w = true →
  submitDisabled (globals w) = false →
  let s := globals w in
  let w1 := react CONDITION (SubmitClick form now) w in
  let w2 := react CONDITION (WriteSettled ok) w1 in
  let p := mkPayload CONDITION (startedAt (session s)) (checkoutCompletedAt (session s))
             (Some now) (taskDurationMs (session s)) (log s)
             (session_answers (store s)) (input_method_by_step (session s))
             (collectSurvey form) in
  (effects (globals w1) = (effects s ++ [SurveyStatus ""; WriteFinal p])%list
   ∧ writes w1 = S (writes w)
   ∧ survey (session (globals w1)) = collectSurvey form
   ∧ surveySubmittedAt (session (globals w1)) = Some now
   ∧ store (globals w1) = store s
   ∧ submitDisabled (globals w1) = false)
  ∧ (effects (globals w2)
     = (effects (globals w1)
        ++ (if ok then [] else [SurveyStatus "Upload failed. Please try again."])
        ++ [SurveyStatus "Submitted. Thank you!"])%list
     ∧ writes w2 = writes w
     ∧ submitDisabled (globals w2) = true
     ∧ ∀ form' now', react CONDITION (SubmitClick form' now') w2 = w2).
Proof.
  intros Hv Hs Hd s w1 w2 p. subst s w1 w2 p. cbn [react].
  unfold submit_click. rewrite Hs, Hd. cbn [negb orb]. cbv zeta. rewrite Hv. cbn [negb].
  unfold write_settled, log. page_simpl. state_simpl. session_simpl.
  split.
  - rewrite <- app_assoc. cbn [List.app]. repeat split; first [reflexivity | exact Hd].
  - destruct ok; state_simpl; rewrite <- ?app_assoc; cbn [List.app];
      repeat split; try reflexivity;
      intros form' now'; unfold submit_click; page_simpl; state_simpl;
      by rewrite orb_true_r.
Qed.

(** A second click while the first write is under way writes again. *)
Lemma double_submit_writes_twice :
  writes (play A double_submit initial_page) = 2%nat
  ∧ length (List.filter is_write (effects (globals (play A double_submit initial_page))))
    = 2%nat.
Proof. split; vm_compute; reflexivity. Qed.

(** ** The page: what is written to the datastore *)

(** Without the condition the step index can leave the flow: the late
    "digital" shortens the flow to 11 steps under an index of 12. *)
Lemma late_transcript_past_flow :
  currentStep (globals (play B late_card_type initial_page)) = 12%nat
  ∧ length (computeFlow (answers (store (globals (play B late_card_type initial_page)))))
    = 11%nat.
Proof. split; vm_compute; reflexivity. Qed.

Lemma react_effects (CONDITION : Condition) (i : Input) (w : Page) :
  no_voice_under_A CONDITION w → orderly_at i w →
  in_sync (store (globals w)) → branch_clean (answers (store (globals w))) →
  Forall entry_ok (log (globals w)) →
  ∃ new, effects (globals (react CONDITION i w)) = (effects (globals w) ++ new)%list
         ∧ Forall (effect_ok CONDITION) new.
Proof.
  intros Hvoice Hi Hsync Hclean Hlog.
  destruct (react_orderly CONDITION i w Hvoice Hi)
    as [[e ->] | [-> | [(form & now & ->) | [ok ->]]]].
  - by apply handle_effects.
  - exists []. split; [by rewrite app_nil_r | apply Forall_nil; exact I].
  - cbn [react]. unfold submit_click. destruct (_ || _).
    { exists []. split; [by rewrite app_nil_r | apply Forall_nil; exact I]. }
    cbv zeta. destruct (validateSurvey _) eqn:Hv; cbn [negb]; page_simpl; state_simpl.
    + rewrite <- app_assoc. eexists. split; [reflexivity|].
      apply Forall_cons. split; [exact I|]. apply Forall_cons. split; [|apply Forall_nil; exact I].
      unfold effect_ok, payload_ok.
      cbn [p_condition p_survey p_surveySubmittedAt p_answers p_transitions].
      session_simpl. unfold in_sync in Hsync. rewrite Hsync.
      split; [reflexivity|]. split; [exact Hv|]. split; [by eexists|].
      split; [exact Hclean | exact Hlog].
    + rewrite <- app_assoc. eexists. split; [reflexivity|].
      repeat (apply Forall_cons; split; [exact I|]). apply Forall_nil; exact I.
  - cbn [react]. unfold write_settled. destruct (writes w).
    { exists []. split; [by rewrite app_nil_r | apply Forall_nil; exact I]. }
    destruct ok; page_simpl; state_simpl; rewrite <- ?app_assoc;
      (eexists; split; [reflexivity|]);
      repeat (apply Forall_cons; split; [exact I|]); apply Forall_nil; exact I.
Qed.

Lemma write_inv_core (CONDITION : Condition) (s s' : State) :
  core s' = core s →
  in_sync (store s) ∧ branch_clean (answers (store s)) ∧ in_flow s
  ∧ Forall entry_ok (log s) →
  in_sync (store s') ∧ branch_clean (answers (store s')) ∧ in_flow s'
  ∧ Forall entry_ok (log s').
Proof.
  intros Hc. apply core_eq in Hc as (Hst & Hcur & _ & _ & _ & Hlog).
  unfold in_flow. by rewrite Hst, Hcur, Hlog.
Qed.

Lemma play_write_inv (CONDITION : Condition) (inputs : list Input) (w : Page) :
  no_voice_under_A CONDITION w → orderly CONDITION inputs w →
  write_inv CONDITION (globals w) → write_inv CONDITION (globals (play CONDITION inputs w)).
Proof.
  revert w. induction inputs as [|i inputs IH]; intros w Hvoice Hord Hw; [exact Hw|].
  destruct Hord as [Hi Hord]. rewrite play_cons.
  apply IH; [by apply react_no_voice_under_A | exact Hord|].
  destruct Hw as (Hsync & Hclean & Hflow & Hlog & Heff).
  assert (H4 : in_sync (store (globals (react CONDITION i w)))
               ∧ branch_clean (answers (store (globals (react CONDITION i w))))
               ∧ in_flow (globals (react CONDITION i w))
               ∧ Forall entry_ok (log (globals (react CONDITION i w)))).
  { apply (react_invariant CONDITION
             (λ s, in_sync (store s) ∧ branch_clean (answers (store s)) ∧ in_flow s
                   ∧ Forall entry_ok (log s))); try done.
    - intros e s (H1 & H2 & H3 & H4).
      split; [by apply handle_in_sync|]. split; [by apply handle_branch_clean|].
      split; [by apply handle_in_flow|].
      destruct (handle_entry CONDITION e s H3) as (new & -> & Hnew).
      apply Forall_app. by split.
    - intros s s'. apply write_inv_core. exact CONDITION. }
  destruct H4 as (H1 & H2 & H3 & H4).
  split; [exact H1|]. split; [exact H2|]. split; [exact H3|]. split; [exact H4|].
  destruct (react_effects CONDITION i w Hvoice Hi Hsync Hclean Hlog) as (new & -> & Hnew).
  apply Forall_app. by split.
Qed.

(** X9. Whatever an orderly run of the page writes to the datastore
    carries the condition of the run, a valid survey with its submission
    time, answers that do not mix the two branches, and a well-formed
    transition log. *)
Theorem orderly_writes_ok (CONDITION : Condition) (inputs : list Input) (p : Payload) :
  orderly CONDITION inputs initial_page →
  WriteFinal p ∈ effects (globals (play CONDITION inputs initial_page)) →
  payload_ok CONDITION p.
Proof.
  intros Hord Hin.
  assert (Hinv : write_inv CONDITION (globals (play CONDITION inputs initial_page))).
  { apply play_write_inv; [done | exact Hord|].
    split; [reflexivity|]. split; [apply initial_branch_clean|].
    split; [unfold in_flow, initial_page, initial_state; cbn [globals currentStep]; lia|].
    split; apply Forall_nil; exact I. }
  destruct Hinv as (_ & _ & _ & _ & Heff).
  rewrite Forall_forall in Heff. exact (Heff _ Hin).
Qed.

Lemma orderly_writes_ok_witness :
  ∃ p, WriteFinal p ∈ effects (globals (play A digital_session initial_page))
       ∧ payload_ok A p.
Proof.
  assert (∃ p, effects (globals (play A digital_session initial_page)) !! 1%nat
               = Some (WriteFinal p)) as [p Hp]
    by (eexists; vm_compute; reflexivity).
  exists p.
  assert (Hin : WriteFinal p ∈ effects (globals (play A digital_session initial_page)))
    by (eapply list_elem_of_lookup_2; exact Hp).
  split; [exact Hin | exact (orderly_writes_ok A _ p orderly_digital_session Hin)].
Defined.

Lemma submit_click_then_settled_witness :
  submitDisabled
    (globals (react A (WriteSettled false)
            (react A (SubmitClick filled_form 13000)
               (play A digital_checkout initial_page))))
  = true.
Proof.
  assert (Hv : validateSurvey (collectSurvey filled_form) = true)
    by (vm_compute; reflexivity).
  assert (Hs : surveyWired (play A digital_checkout initial_page) = true)
    by (vm_compute; reflexivity).
  assert (Hd : submitDisabled (globals (play A digital_checkout initial_page)) = false)
    by (vm_compute; reflexivity).
  exact (proj1 (proj2 (proj2 (proj2
    (submit_click_then_settled A filled_form 13000 false
       (play A digital_checkout initial_page) Hv Hs Hd))))).
Defined.

(** ** The page: every run *)

Lemma play_page_invariant (CONDITION : Condition) (P : Page → Prop) :
  (∀ i w, P w → P (react CONDITION i w)) →
  ∀ inputs w, P w → P (play CONDITION inputs w).
Proof.
  intros Hstep inputs. induction inputs as [|i inputs IH]; intros w Hw; [exact Hw|].
  rewrite play_cons. apply IH. by apply Hstep.
Qed.

Lemma applyFreeformToStep_in_sync (stepObj : Step) (raw : string) (st : Store) :
  in_sync st → in_sync (applyFreeformToStep stepObj raw st).
Proof.
  intros Hs. destruct (applyFreeformToStep_writes stepObj raw st) as [Hf | (v & _ & _ & Hf)].
  - by apply (fills_in_sync _ _ Hf).
  - apply (fills_in_sync _ _ Hf). by apply setAnswer_in_sync.
Qed.

Lemma react_in_sync (CONDITION : Condition) (i : Input) (w : Page) :
  in_sync (store (globals w)) → in_sync (store (globals (react CONDITION i w))).
Proof.
  intros Hs.
  destruct i as [t0 t1|t0 t1|t0 t1|key value|m|raw| |i raw|form now|ok]; cbn [react].
  - rewrite globals_rendered. by apply (handle_in_sync CONDITION (Start t0 t1)).
  - destruct (navigates _ _); [rewrite globals_rendered|page_simpl];
      by apply (handle_in_sync CONDITION (Next t0 t1)).
  - destruct (navigates _ _); [rewrite globals_rendered|page_simpl];
      by apply (handle_in_sync CONDITION (Back t0 t1)).
  - unfold control_input. destruct (wired w); [|done]. cbv zeta.
    destruct (negb (has_control _ _ _ _)); [done|]. destruct (negb _); [done|].
    page_simpl. state_simpl.
    destruct (String.eqb key "r1_msg"); [by apply setAnswer_in_sync|].
    apply (fills_in_sync _ _ (refreshPreview_fills _)). by apply setAnswer_in_sync.
  - unfold method_click. destruct CONDITION; try done.
    destruct (wired w); [|done]. page_simpl. state_simpl.
    by apply (fills_in_sync _ _ (refreshPreview_fills _)).
  - unfold chat_send. destruct (pane _ _ _); [|done]. cbv zeta.
    destruct (Js.truthy _); [|done]. page_simpl. state_simpl.
    by apply applyFreeformToStep_in_sync.
  - unfold voice_start. by destruct (pane _ _ _).
  - unfold voice_result. destruct (recognizers w !! i); [|done]. cbv zeta.
    destruct (Js.truthy _); [|done]. page_simpl. state_simpl.
    by apply applyFreeformToStep_in_sync.
  - unfold submit_click. destruct (_ || _); [done|]. cbv zeta. by destruct (negb _).
  - unfold write_settled. destruct (writes w); [done|]. by destruct ok.
Qed.

(** X28. In every run of the page, with transcripts in order or late
    and writes answered at any time, [session.answers] holds the same
    entries as [answers]. *)
Theorem play_answers_in_sync (CONDITION : Condition) (inputs : list Input) :
  session_answers (store (globals (play CONDITION inputs initial_page)))
  = answers (store (globals (play CONDITION inputs initial_page))).
Proof.
  apply (play_page_invariant CONDITION (λ w, in_sync (store (globals w)))).
  - intros i w. apply react_in_sync.
  - reflexivity.
Qed.

Lemma react_log (CONDITION : Condition) (i : Input) (w : Page) :
  ∃ new, log (globals (react CONDITION i w)) = (log (globals w) ++ new)%list
         ∧ length new = logs i w.
Proof.
  assert (Hnil : ∀ w', log (globals w') = log (globals w) →
            ∃ new, log (globals w') = (log (globals w) ++ new)%list ∧ length new = 0%nat).
  { intros w' ->. exists []. by rewrite app_nil_r. }
  destruct i as [t0 t1|t0 t1|t0 t1|key value|m|raw| |i raw|form now|ok];
    cbn [react logs].
  - rewrite globals_rendered.
    destruct (handle_appends CONDITION (Start t0 t1) (globals w)) as (new & Hl & Hn).
    by exists new.
  - destruct (handle_appends CONDITION (Next t0 t1) (globals w)) as (new & Hl & Hn).
    exists new. destruct (navigates _ _); [rewrite globals_rendered|page_simpl]; done.
  - destruct (handle_appends CONDITION (Back t0 t1) (globals w)) as (new & Hl & Hn).
    exists new. destruct (navigates _ _); [rewrite globals_rendered|page_simpl]; done.
  - apply Hnil. unfold control_input. destruct (wired w); [|done]. cbv zeta.
    destruct (negb (has_control _ _ _ _)); [done|]. by destruct (negb _).
  - apply Hnil. unfold method_click. destruct CONDITION; try done. by destruct (wired w).
  - apply Hnil. unfold chat_send. destruct (pane _ _ _); [|done]. cbv zeta.
    by destruct (Js.truthy _).
  - apply Hnil. unfold voice_start. by destruct (pane _ _ _).
  - apply Hnil. unfold voice_result. destruct (recognizers w !! i); [|done]. cbv zeta.
    by destruct (Js.truthy _).
  - apply Hnil. unfold submit_click. destruct (_ || _); [done|]. cbv zeta.
    by destruct (negb _).
  - apply Hnil. unfold write_settled. destruct (writes w); [done|]. by destruct ok.
Qed.

(** X29. On the page, too, the transition log only grows at its end: an
    input appends exactly one entry when it is a forward navigation from
    a complete step or a backward navigation from a step after the
    first, and none otherwise; no transcript, late or not, and no
    submission touches the log; whatever was logged stays a prefix of
    the log, over any run. *)
Theorem page_log_append_only (CONDITION : Condition) :
  (∀ (i : Input) (w : Page),
     ∃ new, log (globals (react CONDITION i w)) = (log (globals w) ++ new)%list
            ∧ length new = logs i w)
  ∧ (∀ (inputs : list Input) (w : Page),
       ∃ new, log (globals (play CONDITION inputs w)) = (log (globals w) ++ new)%list).
Proof.
  split; [apply react_log|].
  intros inputs. induction inputs as [|i inputs IH]; intros w.
  - exists []. by rewrite app_nil_r.
  - rewrite play_cons. destruct (IH (react CONDITION i w)) as (new & ->).
    destruct (react_log CONDITION i w) as (new' & -> & _).
    exists (new' ++ new)%list. by rewrite app_assoc.
Qed.

Lemma renderStep_shown_entered (CONDITION : Condition) (now : Z) (s : State) :
  is_Some (shown_step (renderStep CONDITION now s)) →
  is_Some (stepEnteredAt (renderStep CONDITION now s)).
Proof.
  unfold renderStep, shown_step. cbv zeta.
  destruct (computeFlow (answers (store s)) !! currentStep s) eqn:Hf.
  - intros _. destruct CONDITION; state_simpl; by eexists.
  - state_simpl. rewrite Hf. by intros [x Hx].
Qed.

Lemma handle_entered_some (CONDITION : Condition) (e : Event) (s : State) :
  is_Some (stepEnteredAt s) → is_Some (stepEnteredAt (handle CONDITION e s)).
Proof.
  intros Hs.
  destruct (handle_log CONDITION e s)
    as [(_ & _ & [-> | (t0 & t1 & _ & ->)])
       | (_ & t0 & t1 & r & _ & _ & _ & _ & _ & [-> | ->])]; by eauto.
Qed.

Lemma react_page_defaults (CONDITION : Condition) (i : Input) (w : Page) :
  page_defaults w → page_defaults (react CONDITION i w).
Proof.
  intros Hw0. pose proof Hw0 as [He Hd].
  assert (Hrender : ∀ e, 
            (is_Some (shown_step (handle CONDITION e (globals w))) →
             is_Some (stepEnteredAt (handle CONDITION e (globals w)))) →
            page_defaults (rendered (handle CONDITION e (globals w)) w)).
  { intros e Hsh. split; [|rewrite globals_rendered; by apply handle_defaults].
    rewrite globals_rendered. unfold rendered.
    destruct (shown_step _) eqn:Hs; page_simpl.
    - intros _. apply Hsh. by eexists.
    - intros H. by apply handle_entered_some, He. }
  assert (Hstay : ∀ e, page_defaults (set_globals (handle CONDITION e (globals w)) w)).
  { intros e. split; page_simpl; [|by apply handle_defaults].
    intros H. by apply handle_entered_some, He. }
  destruct i as [t0 t1|t0 t1|t0 t1|key value|m|raw| |i raw|form now|ok]; cbn [react].
  - apply (Hrender (Start t0 t1)). intros _. cbn [handle]. rewrite onStart_entered.
    by eexists.
  - destruct (navigates _ _) eqn:Hn; [|apply (Hstay (Next t0 t1))].
    apply (Hrender (Next t0 t1)). cbn [handle navigates] in *. unfold onNext. cbv zeta.
    unfold shown_step in Hn. destruct (computeFlow _ !! _); [|discriminate].
    rewrite Hn. cbn [negb]. apply renderStep_shown_entered.
  - destruct (navigates _ _) eqn:Hn; [|apply (Hstay (Back t0 t1))].
    apply (Hrender (Back t0 t1)). cbn [handle navigates] in *. unfold onBack.
    destruct (currentStep (globals w)); [discriminate|]. cbv zeta.
    apply renderStep_shown_entered.
  - unfold control_input. destruct (wired w) eqn:Hw; [|exact Hw0]. cbv zeta.
    destruct (negb (has_control _ _ _ _)) eqn:Hh; [exact Hw0|].
    destruct (negb (isManualInputAllowedForCurrentStep _ _)); [exact Hw0|].
    split; page_simpl; state_simpl; [rewrite ?Hw; exact He|].
    unfold defaults_inv. state_simpl. intros Hs.
    destruct (String.eqb key "r1_msg") eqn:Hk.
    + apply String.eqb_eq in Hk. subst key. apply setAnswer_msg_defaults. by apply Hd.
    + apply refreshPreview_defaults.
  - unfold method_click. destruct CONDITION; try exact Hw0.
    destruct (wired w) eqn:Hw; [|exact Hw0].
    split; page_simpl; state_simpl; [rewrite ?Hw; exact He|].
    unfold defaults_inv. state_simpl. intros _. apply refreshPreview_defaults.
  - unfold chat_send. destruct (pane _ _ _) eqn:Hp; [|exact Hw0]. cbv zeta.
    destruct (Js.truthy _); [|exact Hw0].
    split; page_simpl; state_simpl; [exact He|].
    unfold defaults_inv. state_simpl. intros Hs.
    apply applyFreeformToStep_defaults. by apply Hd.
  - unfold voice_start, pane.
    destruct CONDITION; [exact Hw0| |];
      (case_bool_decide; [|exact Hw0]; destruct (wired w) eqn:Hw; [|exact Hw0];
       split; page_simpl; [intros _; apply He; left; by eexists | exact Hd]).
  - unfold voice_result. destruct (recognizers w !! i) eqn:Hi; [|exact Hw0]. cbv zeta.
    assert (Hent : is_Some (stepEnteredAt (globals w))).
    { apply He. right. intros Hnil. by rewrite Hnil in Hi. }
    destruct (Js.truthy _).
    + split; page_simpl; state_simpl; [by intros _|].
      unfold defaults_inv. state_simpl. intros _.
      apply applyFreeformToStep_defaults. by apply Hd.
    + split; page_simpl; [by intros _|exact Hd].
  - unfold submit_click. destruct (_ || _); [exact Hw0|]. cbv zeta.
    destruct (negb _); exact Hw0.
  - unfold write_settled. destruct (writes w); [exact Hw0|]. by destruct ok.
Qed.

(** X30. In every run of the page, with transcripts in order or late,
    from the first rendering of a step on, quantity, amount, design
    category and design hold a non-empty string and the message is set;
    so the design step never holds the user back. *)
Theorem play_defaults_present (CONDITION : Condition) (inputs : list Input) :
  is_Some (stepEnteredAt (globals (play CONDITION inputs initial_page))) →
  defaults_present (answers (store (globals (play CONDITION inputs initial_page))))
  ∧ ∀ stepObj, kind stepObj = design →
      isStepComplete (answers (store (globals (play CONDITION inputs initial_page))))
        stepObj = true.
Proof.
  intros He.
  assert (Hd : defaults_present
                 (answers (store (globals (play CONDITION inputs initial_page))))).
  { assert (Hp : page_defaults (play CONDITION inputs initial_page)).
    { apply play_page_invariant; [apply react_page_defaults|].
      split; cbn [initial_page wired recognizers globals initial_state].
      - intros [[x Hx]|H]; done.
      - unfold defaults_inv. cbn [stepEnteredAt]. by intros [x Hx]. }
    by apply Hp. }
  split; [exact Hd|]. intros stepObj Hk. unfold isStepComplete. rewrite Hk.
  destruct (negb _); [reflexivity|]. apply Hd.
Qed.

Lemma play_defaults_present_witness :
  defaults_present (answers (store (globals (play B late_card_type initial_page)))).
Proof.
  refine (proj1 (play_defaults_present B late_card_type _)).
  vm_compute. by eexists.
Defined.
